(** * The YIN reader of libyang (src/yin.c): a shallow embedding

    The schema compiler reads a YIN document, already parsed into an XML
    tree, and fills the schema structures of a module.  This file embeds
    the functions of yin.c one by one and proves properties of the
    compiled schema and of the registration in the context.

    Conventions of the embedding.
    - A C string is a [string]; a pointer that may be NULL is an [option].
    - An array allocated with calloc is a list of zeroed entries, updated
      in place by index; the counter kept next to it is a separate field.
    - A pointer into a module (an identity, a top-level typedef) is the
      address of the module in the object store together with an index.
    - Every function that reports a failure returns a [result]: the value,
      the diagnostic that was logged before EXIT_FAILURE or NULL was
      returned, or [Undef] where the C code leaves the behaviour undefined
      (strlen or strcmp on NULL, an access outside an allocation).
    - The object store is a list of modules and submodules; calloc puts
      an object behind those of the store.
    - The files of the search directory are not part of yin.c: what the
      context loads for an import or an include is the work of a loader
      ([ly_loader]) that the functions which resolve them take as a
      parameter. *)

From Stdlib Require Import ZArith String Ascii List Lia Bool.
From stdpp Require Import base list strings.

Set Warnings "-register-all".

Open Scope string_scope.
Open Scope list_scope.
Open Scope Z_scope.

(** ** Outcomes *)

(** Validation codes handed to LOGVAL. *)
Inductive LY_VERR :=
| VE_INSTMT | VE_MISSSTMT2 | VE_MISSARG | VE_TOOMANY | VE_INARG | VE_INPREFIX
| VE_ENUM_DUPVAL | VE_ENUM_DUPNAME | VE_ENUM_WS
| VE_KEY_NLEAF | VE_KEY_TYPE | VE_KEY_CONFIG | VE_KEY_MISS | VE_KEY_DUP.

(** Error numbers handed to LOGERR or stored in ly_errno. *)
Inductive LY_ERR := LY_EFATAL | LY_EINVAL | LY_EVALID.

(** What the caller can observe of a failure: the diagnostic logged last. *)
Inductive diag :=
| Val (code : LY_VERR)      (* LOGVAL(code, ...) *)
| Log (no : LY_ERR)         (* LOGERR(no, ...) or ly_errno = no *)
| Quiet.                    (* failure after a warning only *)

Inductive result (A : Type) :=
| Ok (a : A)
| Err (d : diag)
| Undef.
Arguments Ok {A} a.
Arguments Err {A} d.
Arguments Undef {A}.

#[global] Instance result_ret : MRet result := fun A a => Ok a.
#[global] Instance result_bind : MBind result := fun A B f r =>
  match r with
  | Ok a => f a
  | Err d => Err d
  | Undef => Undef
  end.

(** A C expression that dereferences [o]: undefined when [o] is NULL. *)
Definition deref {A} (o : option A) : result A :=
  match o with
  | Some a => Ok a
  | None => Undef
  end.

Definition is_ok {A} (r : result A) : bool :=
  match r with Ok _ => true | _ => false end.

(** ** The C library on strings *)

Definition ascii_in (c : ascii) (accept : string) : bool :=
  existsb (Ascii.eqb c) (list_ascii_of_string accept).

(** isspace in the C locale: space, \t, \n, \v, \f, \r. *)
Definition isspace (c : ascii) : bool :=
  let n := nat_of_ascii c in
  (Nat.eqb n 32 || (Nat.leb 9 n && Nat.leb n 13))%bool.

Definition isdigit (c : ascii) : bool :=
  let n := nat_of_ascii c in (Nat.leb 48 n && Nat.leb n 57)%bool.

(** strchr(s, c): the suffix of [s] that starts at the first [c]. *)
Fixpoint strchr (s : string) (c : ascii) : option string :=
  match s with
  | EmptyString => None
  | String a s' => if Ascii.eqb a c then Some s else strchr s' c
  end.

(** strpbrk(s, accept): the suffix that starts at the first character of
    [accept]. *)
Fixpoint strpbrk (s accept : string) : option string :=
  match s with
  | EmptyString => None
  | String a s' => if ascii_in a accept then Some s else strpbrk s' accept
  end.

(** while (isspace( *s )) s++; *)
Fixpoint skip_space (s : string) : string :=
  match s with
  | EmptyString => s
  | String a s' => if isspace a then skip_space s' else s
  end.

(** The difference of two pointers into the same string, [q - s], where
    [q] is a suffix of [s]. *)
Definition ptr_diff (q s : string) : nat :=
  (String.length s - String.length q)%nat.

(** !strncmp(a, b, n) *)
Fixpoint strncmp_eq (a b : string) (n : nat) : bool :=
  match n with
  | O => true
  | S n' =>
      match a, b with
      | EmptyString, EmptyString => true
      | String x a', String y b' => (Ascii.eqb x y && strncmp_eq a' b' n')%bool
      | _, _ => false
      end
  end.

(** !s[n], read after strncmp found [n] equal characters. *)
Definition nul_at (s : string) (n : nat) : bool :=
  Nat.eqb (String.length s) n.

(** The first [n] bytes of [s], as lydict_insert(ctx, s, n) stores them. *)
Fixpoint strndup (s : string) (n : nat) : string :=
  match n, s with
  | S n', String a s' => String a (strndup s' n')
  | _, _ => EmptyString
  end.

(** [s + 1] for a pointer [s] that is not at the terminator. *)
Definition str_next (s : string) : string :=
  match s with
  | EmptyString => EmptyString
  | String _ s' => s'
  end.

Definition last_char (s : string) : option ascii :=
  String.get (String.length s - 1)%nat s.

Definition LONG_MAX : Z := 9223372036854775807.
Definition LONG_MIN : Z := -9223372036854775808.
Definition INT32_MAX : Z := 2147483647.
Definition INT32_MIN : Z := -2147483648.

Fixpoint digits10 (s : string) (acc : Z) : Z :=
  match s with
  | String a s' =>
      if isdigit a then digits10 s' (10 * acc + Z.of_nat (nat_of_ascii a - 48))
      else acc
  | EmptyString => acc
  end.

(** strtol(s, NULL, 10) with a 64-bit long: leading white space, an
    optional sign, the longest run of digits, clamped to the range of
    long. *)
Definition strtol (s : string) : Z :=
  let s := skip_space s in
  let '(neg, s) :=
    match s with
    | String "-"%char s' => (true, s')
    | String "+"%char s' => (false, s')
    | _ => (false, s)
    end in
  let n := digits10 s 0 in
  let v := if neg : bool then - n else n in
  Z.max LONG_MIN (Z.min LONG_MAX v).

(** ** The XML tree (xml.h) *)

(** struct lyxml_elem, reduced to what the reader looks at: the element
    name, the value of the resolved namespace ([ns->value], NULL when the
    element has none), the standard attributes, the text content and the
    children in document order.  Elements are named: the anonymous text
    chunks of mixed content do not occur in a YIN document. *)
Inductive lyxml_elem := Elem {
  x_name : string;
  x_ns : option string;
  x_attr : list (string * string);
  x_content : option string;
  x_child : list lyxml_elem
}.

(** Modelled from the spec: lyxml_get_attr of xml.c (only declared in
    xml.h): the value of the attribute of the element with the given
    name, NULL if there is none. *)
Fixpoint lyxml_get_attr_in (attrs : list (string * string)) (name : string)
  : option string :=
  match attrs with
  | [] => None
  | (n, v) :: rest => if String.eqb n name then Some v else lyxml_get_attr_in rest name
  end.

Definition lyxml_get_attr (elem : lyxml_elem) (name : string) : option string :=
  lyxml_get_attr_in (x_attr elem) name.

Definition LY_NSYIN : string := "urn:ietf:params:xml:ns:yang:yin:1".

Definition named (sub : lyxml_elem) (n : string) : bool := String.eqb (x_name sub) n.

(** ** Constants of the schema tree (tree.h) *)

(** Modelled from the spec: tree.h is not part of src.  The flags of a
    node are bit-packed: two bits for config (W read-write, R read-only)
    and one bit per status. *)
Definition LY_NODE_CONFIG_W : Z := 1.
Definition LY_NODE_CONFIG_R : Z := 2.
Definition LY_NODE_CONFIG_MASK : Z := 3.
Definition LY_NODE_STATUS_CURR : Z := 4.
Definition LY_NODE_STATUS_DEPRC : Z := 8.
Definition LY_NODE_STATUS_OBSLT : Z := 16.

(** Modelled from the spec: the discriminant of a schema node. *)
Inductive LY_NODE_TYPE :=
| LY_NODE_UNKNOWN | LY_NODE_CONTAINER | LY_NODE_CHOICE | LY_NODE_LEAF
| LY_NODE_LEAFLIST | LY_NODE_LIST | LY_NODE_GROUPING | LY_NODE_USES.

(** Modelled from the spec: the base kinds of a type; LY_TYPE_DER (0) is
    the value of a zeroed type, the others are the built-in types. *)
Inductive LY_DATA_TYPE :=
| LY_TYPE_DER | LY_TYPE_BINARY | LY_TYPE_BITS | LY_TYPE_BOOL | LY_TYPE_DEC64
| LY_TYPE_EMPTY | LY_TYPE_ENUM | LY_TYPE_IDENT | LY_TYPE_INST | LY_TYPE_LEAFREF
| LY_TYPE_STRING | LY_TYPE_UNION | LY_TYPE_INT8 | LY_TYPE_UINT8 | LY_TYPE_INT16
| LY_TYPE_UINT16 | LY_TYPE_INT32 | LY_TYPE_UINT32 | LY_TYPE_INT64 | LY_TYPE_UINT64.

#[global] Instance LY_DATA_TYPE_eq_dec : EqDecision LY_DATA_TYPE.
Proof. solve_decision. Defined.
#[global] Instance LY_NODE_TYPE_eq_dec : EqDecision LY_NODE_TYPE.
Proof. solve_decision. Defined.

(** Modelled from the spec: the table ly_types of tree.c, entries 1 to
    LY_DATA_TYPE_COUNT - 1, with the canonical name of each built-in. *)
Definition ly_types : list (string * LY_DATA_TYPE) :=
  [ ("binary", LY_TYPE_BINARY); ("bits", LY_TYPE_BITS); ("boolean", LY_TYPE_BOOL);
    ("decimal64", LY_TYPE_DEC64); ("empty", LY_TYPE_EMPTY);
    ("enumeration", LY_TYPE_ENUM); ("identityref", LY_TYPE_IDENT);
    ("instance-identifier", LY_TYPE_INST); ("leafref", LY_TYPE_LEAFREF);
    ("string", LY_TYPE_STRING); ("union", LY_TYPE_UNION);
    ("int8", LY_TYPE_INT8); ("uint8", LY_TYPE_UINT8);
    ("int16", LY_TYPE_INT16); ("uint16", LY_TYPE_UINT16);
    ("int32", LY_TYPE_INT32); ("uint32", LY_TYPE_UINT32);
    ("int64", LY_TYPE_INT64); ("uint64", LY_TYPE_UINT64) ].

(** Modelled from the spec: LY_REV_SIZE of tree.h, the size of a revision
    date YYYY-MM-DD with its terminator. *)
Definition LY_REV_SIZE : nat := 11.

(** ** The schema structures (tree.h) *)

(** Addresses.  A module or submodule is an object of the store; the
    address of an identity is the address of its module and its index in
    the array [ident] of that module. *)
Abbreviation mod_ptr := nat.
Abbreviation ident_ptr := (mod_ptr * nat)%type.

(** The target of [type->der], a pointer to a typedef:
    - the descriptor of a built-in type, [ly_types[i].def];
    - [&tpdf[i]] in the typedef table of a node of the ancestor chain
      handed to fill_yin_type, [up] steps above its first node;
    - [&m->tpdf[i]], a top-level typedef of the module or submodule [m]. *)
Inductive tpdf_ptr :=
| TpBuiltin (t : LY_DATA_TYPE)
| TpLocal (up i : nat)
| TpModule (m : mod_ptr) (i : nat).

(** The target of [uses->grp]: a grouping among the children of the
    parent of the uses, or among the top-level nodes of the module. *)
Inductive grp_ptr :=
| GrpChild (i : nat)
| GrpData (i : nat).

(** The members every schema structure starts with; read_yin_common works
    on them through a cast to struct ly_mnode. *)
Record ly_common := Common {
  c_name : option string;
  c_dsc : option string;
  c_ref : option string;
  c_flags : Z;
  c_module : option mod_ptr
}.

Definition common0 : ly_common := Common None None None 0 None.

Definition set_name (h : ly_common) v := Common v (c_dsc h) (c_ref h) (c_flags h) (c_module h).
Definition set_dsc (h : ly_common) v := Common (c_name h) v (c_ref h) (c_flags h) (c_module h).
Definition set_ref (h : ly_common) v := Common (c_name h) (c_dsc h) v (c_flags h) (c_module h).
Definition set_flags (h : ly_common) v := Common (c_name h) (c_dsc h) (c_ref h) v (c_module h).
Definition set_module (h : ly_common) v := Common (c_name h) (c_dsc h) (c_ref h) (c_flags h) v.

(** struct ly_type_enum *)
Record ly_type_enum := TypeEnum {
  en_hdr : ly_common;
  en_value : Z                      (* int32_t *)
}.

Definition enum0 : ly_type_enum := TypeEnum common0 0.

(** struct ly_type; of the union [info] the enumeration and the
    identityref members are kept. *)
Record ly_type := Type_ {
  ty_prefix : option string;
  ty_base : LY_DATA_TYPE;
  ty_der : option tpdf_ptr;
  enums_count : nat;
  enums_list : list ly_type_enum;
  ident_ref : option ident_ptr
}.

Definition type0 : ly_type := Type_ None LY_TYPE_DER None 0 [] None.

(** struct ly_tpdf *)
Record ly_tpdf := Tpdf {
  tp_name : option string;
  tp_dsc : option string;
  tp_ref : option string;
  tp_flags : Z;
  tp_type : ly_type
}.

Definition tpdf0 : ly_tpdf := Tpdf None None None 0 type0.

(** struct ly_mnode and the structures of the node kinds that extend it.
    The members of the kinds are gathered in one record; calloc leaves
    those a kind does not use zeroed. *)
Inductive ly_mnode := Mnode {
  mn_hdr : ly_common;
  nodetype : LY_NODE_TYPE;
  mn_child : list ly_mnode;         (* child, next: the children in order *)
  mn_tpdf_size : nat;               (* container, list, grouping *)
  mn_tpdf : list ly_tpdf;
  keys_size : nat;                  (* list *)
  keys : list (option nat);         (* pointers to children, by position *)
  mn_type : ly_type;                (* leaf, leaf-list *)
  grp : option grp_ptr              (* uses *)
}.

Definition mnode0 (t : LY_NODE_TYPE) : ly_mnode :=
  Mnode common0 t [] 0 [] 0 [] type0 None.

Definition mn_name (n : ly_mnode) := c_name (mn_hdr n).
Definition mn_flags (n : ly_mnode) := c_flags (mn_hdr n).

Definition with_hdr (n : ly_mnode) h :=
  Mnode h (nodetype n) (mn_child n) (mn_tpdf_size n) (mn_tpdf n) (keys_size n) (keys n) (mn_type n) (grp n).
Definition with_child (n : ly_mnode) c :=
  Mnode (mn_hdr n) (nodetype n) c (mn_tpdf_size n) (mn_tpdf n) (keys_size n) (keys n) (mn_type n) (grp n).
Definition with_tpdf_size (n : ly_mnode) s :=
  Mnode (mn_hdr n) (nodetype n) (mn_child n) s (mn_tpdf n) (keys_size n) (keys n) (mn_type n) (grp n).
Definition with_tpdf (n : ly_mnode) t :=
  Mnode (mn_hdr n) (nodetype n) (mn_child n) (mn_tpdf_size n) t (keys_size n) (keys n) (mn_type n) (grp n).
Definition with_keys_size (n : ly_mnode) s :=
  Mnode (mn_hdr n) (nodetype n) (mn_child n) (mn_tpdf_size n) (mn_tpdf n) s (keys n) (mn_type n) (grp n).
Definition with_keys (n : ly_mnode) k :=
  Mnode (mn_hdr n) (nodetype n) (mn_child n) (mn_tpdf_size n) (mn_tpdf n) (keys_size n) k (mn_type n) (grp n).
Definition with_type (n : ly_mnode) t :=
  Mnode (mn_hdr n) (nodetype n) (mn_child n) (mn_tpdf_size n) (mn_tpdf n) (keys_size n) (keys n) t (grp n).
Definition with_grp (n : ly_mnode) g :=
  Mnode (mn_hdr n) (nodetype n) (mn_child n) (mn_tpdf_size n) (mn_tpdf n) (keys_size n) (keys n) (mn_type n) g.

(** Modelled from the spec: ly_mnode_addchild of tree.c appends the child
    to the sibling list of the parent.  The readers call it with their
    own parent; here the reader returns its node and the loop of the
    parent applies it, which is the same store once the reader is back. *)
Definition ly_mnode_addchild (parent child : ly_mnode) : ly_mnode :=
  with_child parent (mn_child parent ++ [child]).

(** struct ly_ident *)
Record ly_ident := Ident {
  id_hdr : ly_common;
  id_base : option ident_ptr;
  id_der : list ident_ptr           (* the list of struct ly_ident_der *)
}.

Definition ident0 : ly_ident := Ident common0 None [].

(** struct ly_import, struct ly_include, the revisions *)
Record ly_import := Import {
  imp_prefix : option string;
  imp_rev : string;                 (* empty: rev[0] == 0 *)
  imp_module : option mod_ptr
}.
Definition import0 : ly_import := Import None "" None.

Record ly_include := Include {
  inc_rev : string;
  inc_submodule : option mod_ptr
}.
Definition include0 : ly_include := Include "" None.

Record ly_revision := Revision {
  rev_date : string;
  rev_dsc : option string;
  rev_ref : option string
}.
Definition revision0 : ly_revision := Revision "" None None.

(** struct ly_module; a submodule is read through the same structure. *)
Record ly_module := Module {
  m_name : option string;
  m_ns : option string;
  m_prefix : option string;
  m_dsc : option string;
  m_ref : option string;
  m_org : option string;
  m_contact : option string;
  m_version : Z;
  imp_size : nat;  imp : list ly_import;
  inc_size : nat;  inc : list ly_include;
  rev_size : nat;  rev : list ly_revision;
  tpdf_size : nat; tpdf : list ly_tpdf;
  ident_size : nat; ident : list ly_ident;
  data : list ly_mnode
}.

Definition module0 : ly_module :=
  Module None None None None None None None 0 0 [] 0 [] 0 [] 0 [] 0 [] [].

(** The store of module objects, by address. *)
Abbreviation memory := (list ly_module).

Definition at_ (mem : memory) (m : mod_ptr) : ly_module := default module0 (mem !! m).

Definition update (mem : memory) (m : mod_ptr) (f : ly_module -> ly_module) : memory :=
  <[m := f (at_ mem m)]> mem.

(** ** Loops over a C array *)

(** for (i = from; i < from + n; i++) if (test(a[i])) return i;
    an index outside the allocation is an undefined access. *)
Fixpoint array_find_from {A} (test : A -> result bool) (a : list A) (from n : nat)
  : result (option nat) :=
  match n with
  | O => Ok None
  | S n' =>
      e ← deref (a !! from);
      b ← test e;
      if b : bool then Ok (Some from) else array_find_from test a (S from) n'
  end.

Definition array_find {A} (test : A -> result bool) (a : list A) (size : nat)
  : result (option nat) :=
  array_find_from test a 0 size.

(** !strcmp(s, name) for a member [s] that may still be NULL. *)
Definition strcmp_eq (s : option string) (name : string) : result bool :=
  s ← deref s; Ok (String.eqb s name).

(** !strncmp(prefix, name, prefix_len) && !prefix[prefix_len] *)
Definition prefix_is (prefix : option string) (name : string) (prefix_len : nat)
  : result bool :=
  p ← deref prefix; Ok (strncmp_eq p name prefix_len && nul_at p prefix_len)%bool.

(** ** read_yin_text *)

Definition read_yin_text (node : lyxml_elem) (name : string) : option string :=
  match x_child node with
  | [] => None
  | child :: _ => if negb (named child "text") then None else x_content child
  end.

(** ** read_yin_common

    Covers description, reference, status and, for [ext], config.  The
    children it handles are freed; the element is returned with the
    children that are left. *)

Definition common_step (ext : bool) (acc : result (ly_common * list lyxml_elem))
  (sub : lyxml_elem) : result (ly_common * list lyxml_elem) :=
  '(mnode, kept) ← acc;
  if named sub "description" then
    Ok (set_dsc mnode (read_yin_text sub "description"), kept)
  else if named sub "reference" then
    Ok (set_ref mnode (read_yin_text sub "reference"), kept)
  else if named sub "status" then
    value ← deref (lyxml_get_attr sub "value");
    if String.eqb value "current" then
      Ok (set_flags mnode (Z.lor (c_flags mnode) LY_NODE_STATUS_CURR), kept)
    else if String.eqb value "deprecated" then
      Ok (set_flags mnode (Z.lor (c_flags mnode) LY_NODE_STATUS_DEPRC), kept)
    else if String.eqb value "obsolete" then
      Ok (set_flags mnode (Z.lor (c_flags mnode) LY_NODE_STATUS_OBSLT), kept)
    else Ok (mnode, kept)
  else if (ext && named sub "config")%bool then
    value ← deref (lyxml_get_attr sub "value");
    if String.eqb value "false" then
      Ok (set_flags mnode (Z.lor (c_flags mnode) LY_NODE_CONFIG_R), kept)
    else if String.eqb value "false" then
      Ok (set_flags mnode (Z.lor (c_flags mnode) LY_NODE_CONFIG_W), kept)
    else Ok (mnode, kept)
  else
    (* skip the lyxml_free_elem *)
    Ok (mnode, kept ++ [sub]).

Definition read_yin_common (module : mod_ptr) (parent : list ly_mnode)
  (mnode : ly_common) (xmlnode : lyxml_elem) (ext : bool)
  : result (ly_common * lyxml_elem) :=
  let mnode := if ext then set_module mnode (Some module) else mnode in
  value ← deref (lyxml_get_attr xmlnode "name");
  let mnode := set_name mnode (Some value) in
  if String.eqb value "" then Err (Val VE_MISSARG) else
  (* process local parameters *)
  '(mnode, kept) ← fold_left (common_step ext) (x_child xmlnode) (Ok (mnode, []));
  let xmlnode := Elem (x_name xmlnode) (x_ns xmlnode) (x_attr xmlnode)
                      (x_content xmlnode) kept in
  if (ext && Z.eqb (Z.land (c_flags mnode) LY_NODE_CONFIG_MASK) 0)%bool then
    (* get config flag from parent *)
    match parent with
    | p :: _ =>
        Ok (set_flags mnode (Z.lor (c_flags mnode) (Z.land (mn_flags p) LY_NODE_CONFIG_MASK)),
            xmlnode)
    | [] =>
        (* default config is true *)
        Ok (set_flags mnode (Z.lor (c_flags mnode) LY_NODE_CONFIG_W), xmlnode)
    end
  else Ok (mnode, xmlnode).

(** ** find_superior_type *)

Definition builtin_def (t : LY_DATA_TYPE) : ly_tpdf :=
  Tpdf (fst <$> List.find (fun e => bool_decide (snd e = t)) ly_types) None None 0
       (Type_ None t None 0 [] None).

(** [*p] for a typedef pointer [p], seen from a node whose ancestor chain
    is [parent]. *)
Definition tpdf_at (mem : memory) (parent : list ly_mnode) (p : tpdf_ptr)
  : result ly_tpdf :=
  match p with
  | TpBuiltin t => Ok (builtin_def t)
  | TpLocal up i => n ← deref (parent !! up); deref (mn_tpdf n !! i)
  | TpModule m i => deref (tpdf (at_ mem m) !! i)
  end.

(** The search in the typedefs of the ancestors: while (parent) ... *)
Fixpoint find_local_type (qname : string) (parent : list ly_mnode) (up : nat)
  : result (option tpdf_ptr) :=
  match parent with
  | [] => Ok None
  | p :: rest =>
      match nodetype p with
      | LY_NODE_CONTAINER | LY_NODE_LIST | LY_NODE_GROUPING =>
          r ← array_find (fun t => strcmp_eq (tp_name t) qname) (mn_tpdf p) (mn_tpdf_size p);
          match r with
          | Some i => Ok (Some (TpLocal up i))
          | None => find_local_type qname rest (S up)
          end
      | _ => find_local_type qname rest (S up)
      end
  end.

(** The search in the top-level typedefs of the included submodules. *)
Fixpoint find_inc_type (mem : memory) (qname : string) (incs : list ly_include)
  (i n : nat) : result (option tpdf_ptr) :=
  match n with
  | O => Ok None
  | S n' =>
      inc_i ← deref (incs !! i);
      sub ← deref (inc_submodule inc_i);
      r ← array_find (fun t => strcmp_eq (tp_name t) qname)
                     (tpdf (at_ mem sub)) (tpdf_size (at_ mem sub));
      match r with
      | Some j => Ok (Some (TpModule sub j))
      | None => find_inc_type mem qname incs (S i) n'
      end
  end.

Definition find_superior_type (mem : memory) (name : string) (module : mod_ptr)
  (parent : list ly_mnode) : result (option tpdf_ptr) :=
  let search_module (module : mod_ptr) (qname : string) :=
    (* search in top level typedefs *)
    r ← array_find (fun t => strcmp_eq (tp_name t) qname)
                   (tpdf (at_ mem module)) (tpdf_size (at_ mem module));
    match r with
    | Some i => Ok (Some (TpModule module i))
    | None =>
        (* search in submodules *)
        find_inc_type mem qname (inc (at_ mem module)) 0 (inc_size (at_ mem module))
    end in
  let search_local (qname : string) :=
    r ← find_local_type qname parent 0;
    match r with
    | Some p => Ok (Some p)
    | None => search_module module qname
    end in
  match strchr name ":" with
  | None =>
      (* no prefix, try built-in types *)
      match List.find (fun e => String.eqb (fst e) name) ly_types with
      | Some (_, t) => Ok (Some (TpBuiltin t))
      | None => search_local name
      end
  | Some q =>
      let prefix_len := ptr_diff q name in
      (* set qname to correct position after colon *)
      let qname := str_next q in
      own ← prefix_is (m_prefix (at_ mem module)) name prefix_len;
      (* prefix refers to the current module, ignore it *)
      let prefix_len := if own : bool then O else prefix_len in
      match prefix_len with
      | O => search_local qname
      | _ =>
          (* get module where to search *)
          r ← array_find (fun im => prefix_is (imp_prefix im) name prefix_len)
                         (imp (at_ mem module)) (imp_size (at_ mem module));
          match r with
          | None => Ok None
          | Some i =>
              im ← deref (imp (at_ mem module) !! i);
              m' ← deref (imp_module im);
              search_module m' qname
          end
      end
  end.

(** ** Reading and writing a module of the store *)

Definition with_ident (m : ly_module) v :=
  Module (m_name m) (m_ns m) (m_prefix m) (m_dsc m) (m_ref m) (m_org m) (m_contact m)
    (m_version m) (imp_size m) (imp m) (inc_size m) (inc m) (rev_size m) (rev m)
    (tpdf_size m) (tpdf m) (ident_size m) v (data m).
Definition with_ident_size (m : ly_module) v :=
  Module (m_name m) (m_ns m) (m_prefix m) (m_dsc m) (m_ref m) (m_org m) (m_contact m)
    (m_version m) (imp_size m) (imp m) (inc_size m) (inc m) (rev_size m) (rev m)
    (tpdf_size m) (tpdf m) v (ident m) (data m).
Definition with_tpdfs (m : ly_module) v :=
  Module (m_name m) (m_ns m) (m_prefix m) (m_dsc m) (m_ref m) (m_org m) (m_contact m)
    (m_version m) (imp_size m) (imp m) (inc_size m) (inc m) (rev_size m) (rev m)
    (tpdf_size m) v (ident_size m) (ident m) (data m).
Definition with_tpdfs_size (m : ly_module) v :=
  Module (m_name m) (m_ns m) (m_prefix m) (m_dsc m) (m_ref m) (m_org m) (m_contact m)
    (m_version m) (imp_size m) (imp m) (inc_size m) (inc m) (rev_size m) (rev m)
    v (tpdf m) (ident_size m) (ident m) (data m).
Definition with_rev (m : ly_module) v :=
  Module (m_name m) (m_ns m) (m_prefix m) (m_dsc m) (m_ref m) (m_org m) (m_contact m)
    (m_version m) (imp_size m) (imp m) (inc_size m) (inc m) (rev_size m) v
    (tpdf_size m) (tpdf m) (ident_size m) (ident m) (data m).
Definition with_rev_size (m : ly_module) v :=
  Module (m_name m) (m_ns m) (m_prefix m) (m_dsc m) (m_ref m) (m_org m) (m_contact m)
    (m_version m) (imp_size m) (imp m) (inc_size m) (inc m) v (rev m)
    (tpdf_size m) (tpdf m) (ident_size m) (ident m) (data m).
Definition with_inc (m : ly_module) v :=
  Module (m_name m) (m_ns m) (m_prefix m) (m_dsc m) (m_ref m) (m_org m) (m_contact m)
    (m_version m) (imp_size m) (imp m) (inc_size m) v (rev_size m) (rev m)
    (tpdf_size m) (tpdf m) (ident_size m) (ident m) (data m).
Definition with_inc_size (m : ly_module) v :=
  Module (m_name m) (m_ns m) (m_prefix m) (m_dsc m) (m_ref m) (m_org m) (m_contact m)
    (m_version m) (imp_size m) (imp m) v (inc m) (rev_size m) (rev m)
    (tpdf_size m) (tpdf m) (ident_size m) (ident m) (data m).
Definition with_imp (m : ly_module) v :=
  Module (m_name m) (m_ns m) (m_prefix m) (m_dsc m) (m_ref m) (m_org m) (m_contact m)
    (m_version m) (imp_size m) v (inc_size m) (inc m) (rev_size m) (rev m)
    (tpdf_size m) (tpdf m) (ident_size m) (ident m) (data m).
Definition with_imp_size (m : ly_module) v :=
  Module (m_name m) (m_ns m) (m_prefix m) (m_dsc m) (m_ref m) (m_org m) (m_contact m)
    (m_version m) v (imp m) (inc_size m) (inc m) (rev_size m) (rev m)
    (tpdf_size m) (tpdf m) (ident_size m) (ident m) (data m).
Definition with_data (m : ly_module) v :=
  Module (m_name m) (m_ns m) (m_prefix m) (m_dsc m) (m_ref m) (m_org m) (m_contact m)
    (m_version m) (imp_size m) (imp m) (inc_size m) (inc m) (rev_size m) (rev m)
    (tpdf_size m) (tpdf m) (ident_size m) (ident m) v.
Definition with_m_name (m : ly_module) v :=
  Module v (m_ns m) (m_prefix m) (m_dsc m) (m_ref m) (m_org m) (m_contact m)
    (m_version m) (imp_size m) (imp m) (inc_size m) (inc m) (rev_size m) (rev m)
    (tpdf_size m) (tpdf m) (ident_size m) (ident m) (data m).
Definition with_ns (m : ly_module) v :=
  Module (m_name m) v (m_prefix m) (m_dsc m) (m_ref m) (m_org m) (m_contact m)
    (m_version m) (imp_size m) (imp m) (inc_size m) (inc m) (rev_size m) (rev m)
    (tpdf_size m) (tpdf m) (ident_size m) (ident m) (data m).
Definition with_prefix (m : ly_module) v :=
  Module (m_name m) (m_ns m) v (m_dsc m) (m_ref m) (m_org m) (m_contact m)
    (m_version m) (imp_size m) (imp m) (inc_size m) (inc m) (rev_size m) (rev m)
    (tpdf_size m) (tpdf m) (ident_size m) (ident m) (data m).
Definition with_m_dsc (m : ly_module) v :=
  Module (m_name m) (m_ns m) (m_prefix m) v (m_ref m) (m_org m) (m_contact m)
    (m_version m) (imp_size m) (imp m) (inc_size m) (inc m) (rev_size m) (rev m)
    (tpdf_size m) (tpdf m) (ident_size m) (ident m) (data m).
Definition with_m_ref (m : ly_module) v :=
  Module (m_name m) (m_ns m) (m_prefix m) (m_dsc m) v (m_org m) (m_contact m)
    (m_version m) (imp_size m) (imp m) (inc_size m) (inc m) (rev_size m) (rev m)
    (tpdf_size m) (tpdf m) (ident_size m) (ident m) (data m).
Definition with_org (m : ly_module) v :=
  Module (m_name m) (m_ns m) (m_prefix m) (m_dsc m) (m_ref m) v (m_contact m)
    (m_version m) (imp_size m) (imp m) (inc_size m) (inc m) (rev_size m) (rev m)
    (tpdf_size m) (tpdf m) (ident_size m) (ident m) (data m).
Definition with_contact (m : ly_module) v :=
  Module (m_name m) (m_ns m) (m_prefix m) (m_dsc m) (m_ref m) (m_org m) v
    (m_version m) (imp_size m) (imp m) (inc_size m) (inc m) (rev_size m) (rev m)
    (tpdf_size m) (tpdf m) (ident_size m) (ident m) (data m).
Definition with_version (m : ly_module) v :=
  Module (m_name m) (m_ns m) (m_prefix m) (m_dsc m) (m_ref m) (m_org m) (m_contact m)
    v (imp_size m) (imp m) (inc_size m) (inc m) (rev_size m) (rev m)
    (tpdf_size m) (tpdf m) (ident_size m) (ident m) (data m).

(** [*p] and [p->... = ...] for a pointer to an identity. *)
Definition ident_at (mem : memory) (p : ident_ptr) : ly_ident :=
  default ident0 (ident (at_ mem p.1) !! p.2).

Definition update_ident (mem : memory) (p : ident_ptr) (f : ly_ident -> ly_ident)
  : memory :=
  update mem p.1 (fun m => with_ident m (<[p.2 := f (ident_at mem p)]> (ident m))).

(** ** Functions that write to the store

    They take the store and give it back with their outcome, also when
    they fail. *)
Definition state (A : Type) : Type := memory -> result A * memory.

(** The steps, for the store and for whatever else a function works on
    ([S]; the context together with the store, further down). *)
Definition bindS {S A B} (c : S -> result A * S) (k : A -> S -> result B * S)
  : S -> result B * S :=
  fun mem =>
    match c mem with
    | (Ok a, mem') => k a mem'
    | (Err d, mem') => (Err d, mem')
    | (Undef, mem') => (Undef, mem')
    end.

Definition retS {S A} (a : A) : S -> result A * S := fun mem => (Ok a, mem).
Definition failS {S A} (d : diag) : S -> result A * S := fun mem => (Err d, mem).
Definition pure {S A} (r : result A) : S -> result A * S := fun mem => (r, mem).
Definition reads {S A} (f : S -> result A) : S -> result A * S := fun mem => (f mem, mem).
Definition writes {S} (f : S -> S) : S -> result unit * S := fun mem => (Ok tt, f mem).

Notation "x <~ c ; k" := (bindS c (fun x => k))
  (at level 20, c at level 100, k at level 200, only parsing).
Notation "' p <~ c ; k" := (bindS c (fun p => k))
  (at level 20, p pattern, c at level 100, k at level 200, only parsing).
Notation "c ;; k" := (bindS c (fun _ => k))
  (at level 100, k at level 200, right associativity, only parsing).

(** ** find_base_ident_sub *)

(** The number of identities of the store bounds every chain of [base]
    pointers that has no cycle. *)
Definition ident_total (mem : memory) : nat :=
  fold_right (fun m n => (length (ident m) + n)%nat) O mem.

(** while (base_iter) ...: the identity is appended to the derived list of
    its base and of every base above it.  The loop does not return when
    the chain of bases is a cycle; [fuel] bounds its rounds. *)
Fixpoint link_derived (fuel : nat) (ident_p : ident_ptr) (base_iter : option ident_ptr)
  (mem : memory) : result unit * memory :=
  match base_iter with
  | None => (Ok tt, mem)
  | Some b =>
      match fuel with
      | O => (Undef, mem)
      | S fuel' =>
          let mem :=
            match id_der (ident_at mem b) with
            | (_ :: _) as der =>
                update_ident mem b (fun i => Ident (id_hdr i) (id_base i) (der ++ [ident_p]))
            | [] =>
                match id_base (ident_at mem ident_p) with
                | Some ib =>
                    update_ident mem ib (fun i => Ident (id_hdr i) (id_base i) [ident_p])
                | None => mem
                end
            end in
          link_derived fuel' ident_p (id_base (ident_at mem b)) mem
      end
  end.

Definition find_base_ident_sub (module : mod_ptr) (ident_p : option ident_ptr)
  (basename : string) : state (option ident_ptr) :=
  r <~ reads (fun mem =>
         array_find (fun i => strcmp_eq (c_name (id_hdr i)) basename)
                    (ident (at_ mem module)) (ident_size (at_ mem module)));
  match r with
  | None => retS None
  | Some i =>
      (* we are done *)
      match ident_p with
      | None =>
          (* just search for type, so do not modify anything *)
          retS (Some (module, i))
      | Some id =>
          (* we are resolving identity definition, so now update structures *)
          writes (fun mem =>
            update_ident mem id (fun x => Ident (id_hdr x) (Some (module, i)) (id_der x))) ;;
          (fun mem => link_derived (S (ident_total mem)) id (Some (module, i)) mem) ;;
          reads (fun mem => Ok (id_base (ident_at mem id)))
      end
  end.

(** ** find_base_ident *)

(** The search in the included submodules: the first one that knows the
    name gives the result. *)
Fixpoint find_base_ident_inc (module : mod_ptr) (ident_p : option ident_ptr)
  (name : string) (i n : nat) : state (option ident_ptr) :=
  match n with
  | O => retS None
  | S n' =>
      sub <~ reads (fun mem =>
               inc_i ← deref (inc (at_ mem module) !! i); deref (inc_submodule inc_i));
      result <~ find_base_ident_sub sub ident_p name;
      match result with
      | Some r => retS (Some r)
      | None => find_base_ident_inc module ident_p name (S i) n'
      end
  end.

Definition find_base_ident (module : mod_ptr) (ident_p : option ident_ptr)
  (node : lyxml_elem) : state ident_ptr :=
  match lyxml_get_attr node "name" with
  | None => failS (Val VE_MISSARG)
  | Some basename =>
      (* search for the base identity *)
      '(name, prefix_len) <~ reads (fun mem =>
         match strchr basename ":" with
         | Some q =>
             let prefix_len := ptr_diff q basename in
             own ← prefix_is (m_prefix (at_ mem module)) basename prefix_len;
             (* prefix refers to the current module, ignore it *)
             Ok (str_next q, if own : bool then O else prefix_len)
         | None => Ok (basename, O)
         end);
      target <~
        match prefix_len with
        | S _ =>
            (* get module where to search *)
            r <~ reads (fun mem =>
                   array_find (fun im => prefix_is (imp_prefix im) basename prefix_len)
                              (imp (at_ mem module)) (imp_size (at_ mem module)));
            match r with
            | None =>
                (* identity refers unknown data model *)
                failS (Val VE_INPREFIX)
            | Some i =>
                m' <~ reads (fun mem =>
                        im ← deref (imp (at_ mem module) !! i); deref (imp_module im));
                retS (inr m')
            end
        | O =>
            (* search in submodules *)
            n <~ reads (fun mem => Ok (inc_size (at_ mem module)));
            result <~ find_base_ident_inc module ident_p name 0 n;
            match result with
            | Some r => retS (inl r)
            | None => retS (inr module)
            end
        end;
      match target with
      | inl r => retS r
      | inr module =>
          (* search in the identified module *)
          result <~ find_base_ident_sub module ident_p name;
          match result with
          | Some r => retS r
          | None => failS (Val VE_INARG)
          end
      end
  end.

(** ** fill_yin_identity *)

(** The loop over the children that read_yin_common left. *)
Fixpoint fill_yin_identity_children (module : mod_ptr) (ident_p : ident_ptr)
  (children : list lyxml_elem) : state unit :=
  match children with
  | [] => retS tt
  | node :: next =>
      (if named node "base" then
         base <~ reads (fun mem => Ok (id_base (ident_at mem ident_p)));
         match base with
         | Some _ => failS (Val VE_TOOMANY)
         | None => find_base_ident module (Some ident_p) node ;; retS tt
         end
       else failS (Val VE_INSTMT)) ;;
      fill_yin_identity_children module ident_p next
  end.

Definition fill_yin_identity (module : mod_ptr) (yin : lyxml_elem) (ident_p : ident_ptr)
  : state unit :=
  hdr <~ reads (fun mem => Ok (id_hdr (ident_at mem ident_p)));
  '(hdr, yin) <~ pure (read_yin_common module [] hdr yin false);
  writes (fun mem =>
    update_ident mem ident_p
      (fun x => Ident (set_module hdr (Some module)) (id_base x) (id_der x))) ;;
  fill_yin_identity_children module ident_p (x_child yin).

(** ** fill_yin_type *)

Definition with_ty_prefix (t : ly_type) v :=
  Type_ v (ty_base t) (ty_der t) (enums_count t) (enums_list t) (ident_ref t).
Definition with_der (t : ly_type) der base :=
  Type_ (ty_prefix t) base der (enums_count t) (enums_list t) (ident_ref t).
Definition with_enums (t : ly_type) count l :=
  Type_ (ty_prefix t) (ty_base t) (ty_der t) count l (ident_ref t).
Definition with_ident_ref (t : ly_type) r :=
  Type_ (ty_prefix t) (ty_base t) (ty_der t) (enums_count t) (enums_list t) r.

Definition first_is_space (s : string) : bool :=
  match s with
  | String a _ => isspace a
  | EmptyString => false
  end.

Definition last_is_space (s : string) : bool :=
  match last_char s with
  | Some a => isspace a
  | None => false
  end.

(** for (i = v = 0; root.child; i++) ...: the enums staged in [root] are
    read in order into the array; [v] is the counter kept for the
    automatic values. *)
Fixpoint fill_yin_type_enums (module : mod_ptr) (root : list lyxml_elem)
  (enums : list ly_type_enum) (i : nat) (v : Z) : result (list ly_type_enum) :=
  match root with
  | [] => Ok enums
  | child :: root' =>
      en ← deref (enums !! i);
      '(hdr, child) ← read_yin_common module [] (en_hdr en) child false;
      let enums := <[i := TypeEnum hdr (en_value en)]> enums in
      (* the assigned name MUST NOT have any leading or trailing whitespace characters *)
      value ← deref (c_name hdr);
      if (first_is_space value || last_is_space value)%bool then Err (Val VE_ENUM_WS) else
      (* check the name uniqueness *)
      dup ← array_find (fun e => strcmp_eq (c_name (en_hdr e)) value) enums i;
      match dup with
      | Some _ => Err (Val VE_ENUM_DUPNAME)
      | None =>
          let explicit :=
            match x_child child with
            | node :: _ => if named node "value" then Some node else None
            | [] => None
            end in
          match explicit with
          | Some node =>
              value ← deref (lyxml_get_attr node "value");
              let v_ := strtol value in
              (* range check *)
              if ((v_ <? INT32_MIN) || (v_ >? INT32_MAX))%bool then Err (Val VE_INARG) else
              let enums := <[i := TypeEnum hdr v_]> enums in
              (* keep the highest enum value for automatic increment *)
              if v_ >? v then
                fill_yin_type_enums module root' enums (S i) (v_ + 1)
              else
                (* check that the value is unique *)
                dup ← array_find (fun e => Ok (en_value e =? v_)) enums i;
                match dup with
                | Some _ => Err (Val VE_ENUM_DUPVAL)
                | None => fill_yin_type_enums module root' enums (S i) v
                end
          | None =>
              (* assign value automatically *)
              if v >? INT32_MAX then Err (Val VE_INARG) else
              let enums := <[i := TypeEnum hdr v]> enums in
              fill_yin_type_enums module root' enums (S i) (v + 1)
          end
      end
  end.

Definition fill_yin_type (mem : memory) (module : mod_ptr) (parent : list ly_mnode)
  (yin : lyxml_elem) (type : ly_type) : result ly_type :=
  match lyxml_get_attr yin "name" with
  | None => Err (Val VE_MISSARG)
  | Some value =>
      let type :=
        match strchr value ":" with
        | Some delim => with_ty_prefix type (Some (strndup value (ptr_diff delim value)))
        | None => type
        end in
      der ← find_superior_type mem value module parent;
      match der with
      | None => Err (Val VE_INARG)
      | Some der =>
          d ← tpdf_at mem parent der;
          let type := with_der type (Some der) (ty_base (tp_type d)) in
          match ty_base type with
          | LY_TYPE_ENUM =>
              (* get enum specification, at least one must be present *)
              let root := filter (fun node => named node "enum") (x_child yin) in
              let rest := filter (fun node => negb (named node "enum")) (x_child yin) in
              let count := (enums_count type + length root)%nat in
              match rest with
              | _ :: _ => Err (Val VE_INSTMT)
              | [] =>
                  match count with
                  | O =>
                      match ty_der (tp_type d) with
                      | Some _ =>
                          (* this is just a derived type with no enum specified *)
                          Ok type
                      | None => Err (Val VE_MISSSTMT2)
                      end
                  | S _ =>
                      enums ← fill_yin_type_enums module root (replicate count enum0) 0 0;
                      Ok (with_enums type count enums)
                  end
              end
          | LY_TYPE_IDENT =>
              (* get base specification, exactly one must be present *)
              match x_child yin with
              | [] => Err (Val VE_MISSSTMT2)
              | child :: next =>
                  if negb (named child "base") then Err (Val VE_INSTMT) else
                  match next with
                  | _ :: _ => Err (Val VE_INSTMT)
                  | [] =>
                      r ← fst (find_base_ident module None child mem);
                      Ok (with_ident_ref type (Some r))
                  end
              end
          | _ => Ok type
          end
      end
  end.

(** ** fill_yin_typedef *)

(** The typedef that is filled is a slot of an array: of the module (at
    top level, where [parent] is NULL) or of the node at the head of
    [parent].  fill_yin_type searches these very arrays, so the slot is
    written where it lives. *)
Inductive tpdf_place :=
| AtModule (i : nat)      (* &module->tpdf[i] *)
| AtParent (i : nat).     (* &parent->tpdf[i] *)

Definition place_env : Type := memory * list ly_mnode.

Definition place_get (module : mod_ptr) (pl : tpdf_place) (e : place_env)
  : result ly_tpdf :=
  match pl with
  | AtModule i => deref (tpdf (at_ e.1 module) !! i)
  | AtParent i => p ← deref (head e.2); deref (mn_tpdf p !! i)
  end.

Definition place_set (module : mod_ptr) (pl : tpdf_place) (t : ly_tpdf) (e : place_env)
  : place_env :=
  match pl with
  | AtModule i => (update e.1 module (fun m => with_tpdfs m (<[i := t]> (tpdf m))), e.2)
  | AtParent i =>
      match e.2 with
      | p :: up => (e.1, with_tpdf p (<[i := t]> (mn_tpdf p)) :: up)
      | [] => e
      end
  end.

Definition fill_yin_typedef_step (module : mod_ptr) (pl : tpdf_place)
  (acc : result place_env) (node : lyxml_elem) : result place_env :=
  e ← acc;
  t ← place_get module pl e;
  if named node "type" then
    ty ← fill_yin_type e.1 module e.2 node (tp_type t);
    Ok (place_set module pl (Tpdf (tp_name t) (tp_dsc t) (tp_ref t) (tp_flags t) ty) e)
  (* optional statements *)
  else if named node "description" then
    match read_yin_text node "description" with
    | Some dsc => Ok (place_set module pl (Tpdf (tp_name t) (Some dsc) (tp_ref t) (tp_flags t) (tp_type t)) e)
    | None => Err Quiet
    end
  else if named node "reference" then
    match read_yin_text node "reference" with
    | Some r => Ok (place_set module pl (Tpdf (tp_name t) (tp_dsc t) (Some r) (tp_flags t) (tp_type t)) e)
    | None => Err Quiet
    end
  else if named node "status" then
    value ← deref (lyxml_get_attr node "value");
    let flag f := Ok (place_set module pl
                   (Tpdf (tp_name t) (tp_dsc t) (tp_ref t) (Z.lor (tp_flags t) f) (tp_type t)) e) in
    if String.eqb value "current" then flag LY_NODE_STATUS_CURR
    else if String.eqb value "deprecated" then flag LY_NODE_STATUS_DEPRC
    else if String.eqb value "obsolete" then flag LY_NODE_STATUS_OBSLT
    else Err (Val VE_INARG)
  else Ok e.

Definition fill_yin_typedef (module : mod_ptr) (yin : lyxml_elem) (pl : tpdf_place)
  (e : place_env) : result place_env :=
  value ← deref (lyxml_get_attr yin "name");
  t ← place_get module pl e;
  let e := place_set module pl
             (Tpdf (Some value) (tp_dsc t) (tp_ref t) (tp_flags t) (tp_type t)) e in
  e ← fold_left (fill_yin_typedef_step module pl) (x_child yin) (Ok e);
  t ← place_get module pl e;
  match ty_der (tp_type t) with
  | None => Err (Val VE_MISSSTMT2)
  | Some _ => Ok e
  end.

(** ** The context (context.h) *)

(** A slot of the array of module pointers: NULL, a module, or the
    indeterminate content of memory that realloc added. *)
Inductive slot :=
| Null
| Ptr (m : mod_ptr)
| Indet.

(** [ctx->models]: the array as far as its allocation reaches, the number
    of modules and the number of slots the context counts on. *)
Record ly_ctx := Ctx {
  models_list : list slot;
  models_used : nat;
  models_size : nat
}.

(** The registered modules, in the order of registration. *)
Definition registered (ctx : ly_ctx) : list slot :=
  take (models_used ctx) (models_list ctx).

Definition latest_revision (m : ly_module) : option string :=
  match rev_size m with
  | O => None
  | S _ => rev_date <$> (rev m !! 0%nat)
  end.

(** Modelled from the spec: the lookup of ly_ctx_get_module of context.c
    among the registered modules, by name and revision; without a
    revision the newest module of that name. *)
Definition ly_ctx_find_module (ctx : ly_ctx) (mem : memory) (name : option string)
  (revision : option string) : option mod_ptr :=
  let named_so m := bool_decide (m_name (at_ mem m) = name) in
  let newer m best :=
    match latest_revision (at_ mem best), latest_revision (at_ mem m) with
    | Some b, Some d => String.ltb b d
    | None, Some _ => true
    | _, None => false
    end in
  match name with
  | None => None
  | Some _ =>
      fold_left (fun best s =>
        match s with
        | Ptr m =>
            if negb (named_so m) then best else
            match revision with
            | Some r =>
                match best with
                | Some _ => best
                | None => if bool_decide (latest_revision (at_ mem m) = Some r)
                          then Some m else None
                end
            | None =>
                match best with
                | Some b => if newer m b then Some m else best
                | None => Some m
                end
            end
        | _ => best
        end) (registered ctx) None
  end.

(** Modelled from the spec: the lookup of ly_ctx_get_submodule of
    context.c among the submodules that the module includes so far, by
    name and revision. *)
Definition ly_ctx_find_submodule (mem : memory) (module : mod_ptr) (name : option string)
  (revision : option string) : option mod_ptr :=
  match name with
  | None => None
  | Some _ =>
      let ok sub :=
        (bool_decide (m_name (at_ mem sub) = name) &&
         match revision with
         | Some r => bool_decide (latest_revision (at_ mem sub) = Some r)
         | None => true
         end)%bool in
      List.find ok (omap inc_submodule (take (inc_size (at_ mem module)) (inc (at_ mem module))))
  end.

(** What a function that resolves imports and includes works on: the
    context and the store. *)
Abbreviation world := (ly_ctx * memory)%type.

Definition loading (A : Type) : Type := world -> result A * world.

(** A function on the store, run with the context at hand. *)
Definition in_ctx {A} (c : state A) : loading A :=
  fun w => ((c w.2).1, (w.1, (c w.2).2)).

(** Modelled from the spec: the loader of context.c.  When the module or
    submodule asked for is not at hand, the context looks for its file
    in the search directory (name.yin, name@revision.yin) and reads it,
    a module with yin_read_module, a submodule of [module] with
    yin_read_submodule.  That allocates objects in the store and, for a
    module, registers it in the context, together with whatever its own
    imports load.  The files are not part of the model: the loader is a
    parameter of the reader, with the outcome, the context and the store
    it leaves. *)
Record ly_loader := Loader {
  load_module : string -> option string -> ly_ctx -> memory
                -> result mod_ptr * ly_ctx * memory;
  load_submodule : mod_ptr -> string -> option string -> ly_ctx -> memory
                   -> result mod_ptr * ly_ctx * memory
}.

(** The pointer that the loader hands back: NULL when it failed. *)
Definition loaded (r : result mod_ptr * ly_ctx * memory) : result (option mod_ptr) * world :=
  match r.1.1 with
  | Ok m => (Ok (Some m), (r.1.2, r.2))
  | Err _ => (Ok None, (r.1.2, r.2))
  | Undef => (Undef, (r.1.2, r.2))
  end.

(** Modelled from the spec: ly_ctx_get_module of context.c: the module
    of that name and revision that is registered and, when there is
    none, the module that the context loads from its search directory. *)
Definition ly_ctx_get_module (L : ly_loader) (name : option string)
  (revision : option string) : loading (option mod_ptr) :=
  fun w =>
    match name with
    | None => (Ok None, w)
    | Some n =>
        match ly_ctx_find_module w.1 w.2 name revision with
        | Some m => (Ok (Some m), w)
        | None => loaded (load_module L n revision w.1 w.2)
        end
    end.

(** Modelled from the spec: ly_ctx_get_submodule of context.c: the
    submodule of that name and revision among those the module includes
    and, when there is none, the submodule that the context loads from
    its search directory. *)
Definition ly_ctx_get_submodule (L : ly_loader) (module : mod_ptr) (name : option string)
  (revision : option string) : loading (option mod_ptr) :=
  fun w =>
    match name with
    | None => (Ok None, w)
    | Some n =>
        match ly_ctx_find_submodule w.2 module name revision with
        | Some sub => (Ok (Some sub), w)
        | None => loaded (load_submodule L module n revision w.1 w.2)
        end
    end.

(** ** fill_yin_import, fill_yin_include *)

(** imp->rev[0] ? imp->rev : NULL *)
Definition rev_or_null (r : string) : option string :=
  match r with
  | EmptyString => None
  | _ => Some r
  end.

(** memcpy(rev, value, LY_REV_SIZE - 1) into the array [rev] of
    LY_REV_SIZE bytes, whose last byte is zero: ten bytes are read from
    [value], whatever its length.  The string [value] takes its
    characters and a terminator: with ten characters or more the first
    ten are copied, with nine the characters and the terminator, and
    with fewer than nine the bytes behind the terminator are read,
    outside of the allocation of the string. *)
Definition memcpy_rev (value : string) : result string :=
  if (String.length value + 1 <? LY_REV_SIZE - 1)%nat then Undef
  else Ok (strndup value (LY_REV_SIZE - 1)).

Definition fill_yin_import_step (acc : result ly_import) (child : lyxml_elem)
  : result ly_import :=
  imp ← acc;
  if named child "prefix" then
    value ← deref (lyxml_get_attr child "value");
    Ok (Import (Some value) (imp_rev imp) (imp_module imp))
  else if named child "revision-date" then
    match lyxml_get_attr child "date" with
    | None => Err (Val VE_MISSARG)
    | Some value =>
        rev ← memcpy_rev value;
        Ok (Import (imp_prefix imp) rev (imp_module imp))
    end
  else Err (Val VE_INSTMT).

Definition fill_yin_import (L : ly_loader) (yin : lyxml_elem) (imp : ly_import)
  : loading ly_import :=
  imp <~ pure (fold_left fill_yin_import_step (x_child yin) (Ok imp));
  let value := lyxml_get_attr yin "module" in
  m <~ ly_ctx_get_module L value (rev_or_null (imp_rev imp));
  match m with
  | None => failS (Log LY_EVALID)
  | Some m => retS (Import (imp_prefix imp) (imp_rev imp) (Some m))
  end.

Definition fill_yin_include_step (acc : result ly_include) (child : lyxml_elem)
  : result ly_include :=
  inc ← acc;
  if named child "revision-date" then
    match lyxml_get_attr child "date" with
    | None => Err (Val VE_MISSARG)
    | Some value =>
        rev ← memcpy_rev value;
        Ok (Include rev (inc_submodule inc))
    end
  else Err (Val VE_INSTMT).

Definition fill_yin_include (L : ly_loader) (module : mod_ptr) (yin : lyxml_elem)
  (inc : ly_include) : loading ly_include :=
  inc <~ pure (fold_left fill_yin_include_step (x_child yin) (Ok inc));
  let value := lyxml_get_attr yin "module" in
  s <~ ly_ctx_get_submodule L module value (rev_or_null (inc_rev inc));
  match s with
  | None => failS (Log LY_EVALID)
  | Some s => retS (Include (inc_rev inc) (Some s))
  end.

(** ** The readers of the data nodes *)

(** The data statements, which the readers of a module, container, list
    or grouping move aside into [root] before they read them. *)
Definition is_data_stmt (sub : lyxml_elem) : bool :=
  (named sub "container" || named sub "leaf-list" || named sub "leaf" ||
   named sub "list" || named sub "choice" || named sub "uses" ||
   named sub "grouping")%bool.

(** The [type] children of a leaf or leaf-list, each read into the same
    type structure. *)
Definition read_types (mem : memory) (module : mod_ptr) (parent : list ly_mnode)
  (children : list lyxml_elem) (type : ly_type) : result ly_type :=
  fold_left (fun acc sub =>
    type ← acc;
    if named sub "type" then fill_yin_type mem module parent sub type else Ok type)
    children (Ok type).

Definition read_yin_leaf (mem : memory) (module : mod_ptr) (parent : list ly_mnode)
  (node : lyxml_elem) : result ly_mnode :=
  let leaf := mnode0 LY_NODE_LEAF in
  '(hdr, node) ← read_yin_common module parent (mn_hdr leaf) node true;
  let leaf := with_hdr leaf hdr in
  type ← read_types mem module parent (x_child node) (mn_type leaf);
  Ok (with_type leaf type).

Definition read_yin_leaflist (mem : memory) (module : mod_ptr) (parent : list ly_mnode)
  (node : lyxml_elem) : result ly_mnode :=
  let llist := mnode0 LY_NODE_LEAFLIST in
  '(hdr, node) ← read_yin_common module parent (mn_hdr llist) node true;
  let llist := with_hdr llist hdr in
  type ← read_types mem module parent (x_child node) (mn_type llist);
  Ok (with_type llist type).

(** LY_TREE_FOR(nodes, mnode) if (mnode->nodetype == LY_NODE_GROUPING &&
    !strcmp(mnode->name, name)) ...: the first grouping of that name. *)
Definition find_grouping (nodes : list ly_mnode) (name : string) : result (option nat) :=
  array_find (fun mnode =>
    if bool_decide (nodetype mnode = LY_NODE_GROUPING)
    then strcmp_eq (mn_name mnode) name else Ok false) nodes (length nodes).

(** for (par = parent; par; par = par->parent) LY_TREE_FOR(parent->child, ...):
    one search among the children of [parent] for every ancestor. *)
Fixpoint find_grouping_local (par parent : list ly_mnode) (name : string)
  (found : option grp_ptr) : result (option grp_ptr) :=
  match par with
  | [] => Ok found
  | _ :: up =>
      r ← find_grouping (match parent with p :: _ => mn_child p | [] => [] end) name;
      find_grouping_local up parent name
        (match r with Some i => Some (GrpChild i) | None => found end)
  end.

Definition read_yin_uses (mem : memory) (module : mod_ptr) (parent : list ly_mnode)
  (node : lyxml_elem) (resolve : bool) : result ly_mnode :=
  let uses := with_hdr (mnode0 LY_NODE_USES) (set_module common0 (Some module)) in
  '(hdr, node) ← read_yin_common module parent (mn_hdr uses) node false;
  let uses := with_hdr uses hdr in
  uses_name ← deref (mn_name uses);
  (* get referenced grouping *)
  '(name, prefix_len) ←
    match strchr uses_name ":" with
    | None =>
        (* no prefix, search in local tree *)
        Ok (uses_name, O)
    | Some q =>
        (* there is some prefix, check if it refer the same data model *)
        let prefix_len := ptr_diff q uses_name in
        own ← prefix_is (m_prefix (at_ mem module)) uses_name prefix_len;
        Ok (str_next q, if own : bool then O else prefix_len)
    end;
  (* search *)
  match prefix_len with
  | S _ =>
      (* in top-level groupings of some other module *)
      searchmod ← array_find (fun im => prefix_is (imp_prefix im) uses_name prefix_len)
                             (imp (at_ mem module)) (imp_size (at_ mem module));
      searchmod ← match searchmod with
                  | Some i => im ← deref (imp (at_ mem module) !! i); Ok (imp_module im)
                  | None => Ok None
                  end;
      match searchmod with
      | None =>
          (* uses refers unknown data model *)
          Err (Val VE_INPREFIX)
      | Some _ =>
          r ← find_grouping (data (at_ mem module)) name;
          match r with
          | None => Err (Val VE_INARG)
          | Some i => Ok (with_grp uses (Some (GrpData i)))
          end
      end
  | O =>
      (* in local tree hierarchy *)
      g ← find_grouping_local parent parent name (grp uses);
      (* search in top level of the current module *)
      r ← find_grouping (data (at_ mem module)) name;
      Ok (with_grp uses (match r with Some i => Some (GrpData i) | None => g end))
  end.

(** The typedefs of a container, list or grouping: counted in the first
    run over the children, then the array is allocated and filled in the
    middle run.  The size of the array is set before the first typedef is
    filled.  fill_yin_typedef is handed [retval], the node that is being
    read; its parent pointer is still NULL (ly_mnode_addchild, which
    links the node to its parent, is the last step of the reader), so the
    chain of ancestors that the types of the typedefs are searched in
    ends with [retval]. *)
Definition read_typedefs (mem : memory) (module : mod_ptr)
  (retval : ly_mnode) (children : list lyxml_elem) : result ly_mnode :=
  let c_tpdf := length (filter (fun sub => named sub "typedef") children) in
  let retval :=
    match c_tpdf with
    | O => retval
    | S _ => with_tpdf (with_tpdf_size retval c_tpdf) (replicate c_tpdf tpdf0)
    end in
  r ← fold_left (fun acc sub =>
         '(retval, c_tpdf) ← acc;
         if named sub "typedef" then
           e ← fill_yin_typedef module sub (AtParent c_tpdf) (mem, [retval]);
           retval ← deref (head e.2);
           Ok (retval, S c_tpdf)
         else Ok (retval, c_tpdf))
       children (Ok (retval, O));
  Ok r.1.

(** The characters that end a key name in the argument of [key]. *)
Definition key_delims : string :=
  String " "%char (String "009"%char (String "010"%char EmptyString)).

(** while ((s = strpbrk(s, " \t\n"))) { keys_size++; while (isspace( *s )) s++; }
    keys_size++;
    Every round moves [s] forward, so the length of the string bounds the
    rounds. *)
Fixpoint count_keys (fuel : nat) (s : string) (keys_size : nat) : option nat :=
  match strpbrk s key_delims with
  | None => Some (S keys_size)
  | Some s' =>
      match fuel with
      | O => None
      | S fuel' => count_keys fuel' (skip_space s') (S keys_size)
      end
  end.

(** The [key] statement of a list, found in the first run over the
    children: cardinality 0..1, the keys counted and their array
    allocated. *)
Definition read_yin_list_key (acc : result (ly_mnode * option string))
  (sub : lyxml_elem) : result (ly_mnode * option string) :=
  '(list, key_str) ← acc;
  if is_data_stmt sub then Ok (list, key_str)
  else if named sub "key" then
    (* check cardinality 0..1 *)
    match keys_size list with
    | S _ => Err (Val VE_TOOMANY)
    | O =>
        (* count the number of keys *)
        match lyxml_get_attr sub "value" with
        | None => Err (Val VE_MISSARG)
        | Some s =>
            n ← deref (count_keys (String.length s) s 0);
            Ok (with_keys (with_keys_size list n) (replicate n None), Some s)
        end
    end
  else Ok (list, key_str).

(** link key leafs into the list structure and check all constraints:
    for (i = 0; i < list->keys_size; i++) ..., with [n] rounds to go. *)
Fixpoint read_yin_list_keys (n i : nat) (list : ly_mnode) (key_str : option string)
  : result ly_mnode :=
  match n with
  | O => Ok list
  | S n' =>
      (* get the key name *)
      key_str ← deref key_str;
      let s := strpbrk key_str key_delims in
      let len := match s with
                 | Some s => ptr_diff s key_str
                 | None => String.length key_str
                 end in
      found ← array_find (fun mnode =>
                 name ← deref (mn_name mnode);
                 Ok (strncmp_eq name key_str len && nul_at name len)%bool)
               (mn_child list) (length (mn_child list));
      let list := match found with
                  | Some k => with_keys list (<[i := Some k]> (keys list))
                  | None => list
                  end in
      slot_i ← deref (keys list !! i);
      match slot_i with
      | None =>
          (* existence *)
          Err (Val VE_KEY_MISS)
      | Some k =>
          key ← deref (mn_child list !! k);
          (* uniqueness *)
          if existsb (fun kj => bool_decide (kj = Some k)) (take i (keys list))
          then Err (Val VE_KEY_DUP)
          (* key is a leaf *)
          else if negb (bool_decide (nodetype key = LY_NODE_LEAF))
          then Err (Val VE_KEY_NLEAF)
          (* type of the leaf is not built-in empty *)
          else if bool_decide (ty_base (mn_type key) = LY_TYPE_EMPTY)
          then Err (Val VE_KEY_TYPE)
          (* config attribute is the same as of the list *)
          else if negb (Z.land (mn_flags list) LY_NODE_CONFIG_MASK =?
                        Z.land (mn_flags key) LY_NODE_CONFIG_MASK)
          then Err (Val VE_KEY_CONFIG)
          else
            (* prepare for next iteration *)
            read_yin_list_keys n' (S i) list (skip_space <$> s)
      end
  end.

(** The last run of a container, list or grouping.  The reader stages the
    data statements of its element in [root], in document order, and
    reads them last; read_yin_common and the runs before leave every data
    statement in place, so the last run walks the children of the element
    and takes up the data statements one after the other.  A child that
    was read is attached to [retval] by ly_mnode_addchild.  The reader of
    a child is handed [retval] as its parent, and [retval] has no parent
    yet: the reader of [retval] calls ly_mnode_addchild for it only when
    all its children are read.  The chain of ancestors of a child is
    therefore [retval] alone.  The readers of the children are the
    functions below, which call this loop. *)
Section LastRun.

Variables container leaflist leaf list_ choice grouping
  : list ly_mnode -> lyxml_elem -> result ly_mnode.
Variable uses : list ly_mnode -> lyxml_elem -> bool -> result ly_mnode.
Variable resolve : bool.

Fixpoint read_data_nodes (subs : list lyxml_elem) (retval : ly_mnode)
  : result ly_mnode :=
  match subs with
  | [] => Ok retval
  | sub :: next =>
      if named sub "container" then
        mnode ← container [retval] sub;
        read_data_nodes next (ly_mnode_addchild retval mnode)
      else if named sub "leaf-list" then
        mnode ← leaflist [retval] sub;
        read_data_nodes next (ly_mnode_addchild retval mnode)
      else if named sub "leaf" then
        mnode ← leaf [retval] sub;
        read_data_nodes next (ly_mnode_addchild retval mnode)
      else if named sub "list" then
        mnode ← list_ [retval] sub;
        read_data_nodes next (ly_mnode_addchild retval mnode)
      else if named sub "choice" then
        mnode ← choice [retval] sub;
        read_data_nodes next (ly_mnode_addchild retval mnode)
      else if named sub "uses" then
        mnode ← uses [retval] sub resolve;
        read_data_nodes next (ly_mnode_addchild retval mnode)
      else if named sub "grouping" then
        mnode ← grouping [retval] sub;
        read_data_nodes next (ly_mnode_addchild retval mnode)
      else read_data_nodes next retval
  end.

(** process choice's specific children *)
Fixpoint read_choice_nodes (subs : list lyxml_elem) (retval : ly_mnode)
  : result ly_mnode :=
  match subs with
  | [] => Ok retval
  | sub :: next =>
      if named sub "container" then
        r ← container [retval] sub;
        read_choice_nodes next (ly_mnode_addchild retval r)
      else if named sub "leaf-list" then
        r ← leaflist [retval] sub;
        read_choice_nodes next (ly_mnode_addchild retval r)
      else if named sub "leaf" then
        r ← leaf [retval] sub;
        read_choice_nodes next (ly_mnode_addchild retval r)
      else if named sub "list" then
        r ← list_ [retval] sub;
        read_choice_nodes next (ly_mnode_addchild retval r)
      else read_choice_nodes next retval
  end.

End LastRun.

(** [parent] is the node handed to the reader with the nodes that its
    parent pointers lead to: none at the top level of a module, the
    parent alone for a node below another. *)
Fixpoint read_yin_choice (mem : memory) (module : mod_ptr) (parent : list ly_mnode)
  (node : lyxml_elem) {struct node} : result ly_mnode :=
  let choice := with_hdr (mnode0 LY_NODE_CHOICE) (set_module common0 (Some module)) in
  '(hdr, _) ← read_yin_common module parent (mn_hdr choice) node true;
  let retval := with_hdr choice hdr in
  read_choice_nodes
    (read_yin_container mem module) (read_yin_leaflist mem module)
    (read_yin_leaf mem module) (read_yin_list mem module)
    (x_child node) retval

with read_yin_list (mem : memory) (module : mod_ptr) (parent : list ly_mnode)
  (node : lyxml_elem) {struct node} : result ly_mnode :=
  let lst := mnode0 LY_NODE_LIST in
  '(hdr, node') ← read_yin_common module parent (mn_hdr lst) node true;
  let lst := with_hdr lst hdr in
  (* process list's specific children *)
  '(lst, key_str) ← fold_left read_yin_list_key (x_child node') (Ok (lst, None));
  (* check - if list is configuration, key statement is mandatory *)
  if (negb (Z.land (mn_flags lst) LY_NODE_CONFIG_W =? 0) && bool_decide (key_str = None))%bool
  then Err (Val VE_MISSSTMT2) else
  (* middle part - process nodes with cardinality of 0..n except the data nodes *)
  retval ← read_typedefs mem module lst (x_child node');
  (* last part - process data nodes *)
  lst ← read_data_nodes
          (read_yin_container mem module) (read_yin_leaflist mem module)
          (read_yin_leaf mem module) (read_yin_list mem module)
          (read_yin_choice mem module) (read_yin_grouping mem module)
          (read_yin_uses mem module) true (x_child node) retval;
  match key_str with
  | None =>
      (* config false list without a key *)
      Ok lst
  | Some _ => read_yin_list_keys (keys_size lst) 0 lst key_str
  end

with read_yin_container (mem : memory) (module : mod_ptr) (parent : list ly_mnode)
  (node : lyxml_elem) {struct node} : result ly_mnode :=
  let cont := mnode0 LY_NODE_CONTAINER in
  '(hdr, node') ← read_yin_common module parent (mn_hdr cont) node true;
  let cont := with_hdr cont hdr in
  (* middle part - process nodes with cardinality of 0..n except the data nodes *)
  retval ← read_typedefs mem module cont (x_child node');
  (* last part - process data nodes *)
  read_data_nodes
    (read_yin_container mem module) (read_yin_leaflist mem module)
    (read_yin_leaf mem module) (read_yin_list mem module)
    (read_yin_choice mem module) (read_yin_grouping mem module)
    (read_yin_uses mem module) true (x_child node) retval

with read_yin_grouping (mem : memory) (module : mod_ptr) (parent : list ly_mnode)
  (node : lyxml_elem) {struct node} : result ly_mnode :=
  let grp := with_hdr (mnode0 LY_NODE_GROUPING) (set_module common0 (Some module)) in
  '(hdr, node') ← read_yin_common module parent (mn_hdr grp) node false;
  let grp := with_hdr grp hdr in
  (* middle part - process nodes with cardinality of 0..n except the data nodes *)
  retval ← read_typedefs mem module grp (x_child node');
  (* last part - process data nodes *)
  read_data_nodes
    (read_yin_container mem module) (read_yin_leaflist mem module)
    (read_yin_leaf mem module) (read_yin_list mem module)
    (read_yin_choice mem module) (read_yin_grouping mem module)
    (read_yin_uses mem module) false (x_child node) retval.

(** ** read_sub_module: common code for yin_read_module and yin_read_submodule *)

(** The counters of the statements with cardinality 0..n. *)
Record counters := Counters {
  c_imp : nat; c_rev : nat; c_tpdf : nat; c_ident : nat; c_inc : nat
}.

(** What the first run has built: the module, the children that are
    still under [yin], the data statements staged in [root], the
    counters. *)
Record first_run := FirstRun {
  fr_module : ly_module;
  fr_child : list lyxml_elem;
  fr_root : list lyxml_elem;
  fr_count : counters
}.

Definition is_some {A} (o : option A) : bool :=
  match o with Some _ => true | None => false end.

(** The first run: elements with cardinality 1 or 0..1 are processed and
    freed, elements with cardinality 0..n are counted, the data statements
    are moved aside. *)
Definition first_run_step (submodule : bool) (acc : result first_run)
  (node : lyxml_elem) : result first_run :=
  st ← acc;
  let module := fr_module st in
  let c := fr_count st in
  let freed (m : ly_module) := Ok (FirstRun m (fr_child st) (fr_root st) c) in
  let counted (c : counters) :=
    Ok (FirstRun module (fr_child st ++ [node]) (fr_root st) c) in
  if negb (bool_decide (x_ns node = Some LY_NSYIN)) then freed module
  else if (negb submodule && named node "namespace")%bool then
    match lyxml_get_attr node "uri" with
    | None => Err (Log LY_EVALID)
    | Some value => freed (with_ns module (Some value))
    end
  else if (negb submodule && named node "prefix")%bool then
    match lyxml_get_attr node "value" with
    | None => Err (Log LY_EVALID)
    | Some value => freed (with_prefix module (Some value))
    end
  else if named node "import" then
    counted (Counters (S (c_imp c)) (c_rev c) (c_tpdf c) (c_ident c) (c_inc c))
  else if named node "revision" then
    counted (Counters (c_imp c) (S (c_rev c)) (c_tpdf c) (c_ident c) (c_inc c))
  else if named node "typedef" then
    counted (Counters (c_imp c) (c_rev c) (S (c_tpdf c)) (c_ident c) (c_inc c))
  else if named node "identity" then
    counted (Counters (c_imp c) (c_rev c) (c_tpdf c) (S (c_ident c)) (c_inc c))
  else if named node "include" then
    counted (Counters (c_imp c) (c_rev c) (c_tpdf c) (c_ident c) (S (c_inc c)))
  (* data statements *)
  else if is_data_stmt node then
    Ok (FirstRun module (fr_child st) (fr_root st ++ [node]) c)
  (* optional statements *)
  else if named node "description" then
    if is_some (m_dsc module) then Err (Val VE_TOOMANY)
    else freed (with_m_dsc module (read_yin_text node "description"))
  else if named node "reference" then
    if is_some (m_ref module) then Err (Val VE_TOOMANY)
    else freed (with_m_ref module (read_yin_text node "reference"))
  else if named node "organization" then
    if is_some (m_org module) then Err (Val VE_TOOMANY)
    else freed (with_org module (read_yin_text node "organization"))
  else if named node "contact" then
    if is_some (m_contact module) then Err (Val VE_TOOMANY)
    else freed (with_contact module (read_yin_text node "contact"))
  else if named node "yang-version" then
    if negb (m_version module =? 0) then Err (Val VE_TOOMANY)
    else
      value ← deref (lyxml_get_attr node "value");
      if negb (String.eqb value "1") then Err (Val VE_INARG)
      else freed (with_version module 1)
  else counted c.

(** if (c_x) module->x = calloc(c_x, sizeof *module->x); *)
Definition calloc_if {A} (n : nat) (zero : A) (old : list A) : list A :=
  match n with
  | O => old
  | S _ => replicate n zero
  end.

Definition allocate_arrays (c : counters) (m : ly_module) : ly_module :=
  with_inc (with_ident (with_tpdfs (with_rev (with_imp m
    (calloc_if (c_imp c) import0 (imp m)))
    (calloc_if (c_rev c) revision0 (rev m)))
    (calloc_if (c_tpdf c) tpdf0 (tpdf m)))
    (calloc_if (c_ident c) ident0 (ident m)))
    (calloc_if (c_inc c) include0 (inc m)).

Definition read_revision (node : lyxml_elem) (r : ly_revision) : result ly_revision :=
  value ← deref (lyxml_get_attr node "date");
  date ← memcpy_rev value;
  Ok (fold_left (fun r child =>
        if named child "description" then
          Revision (rev_date r) (read_yin_text child "description") (rev_ref r)
        else if named child "reference" then
          Revision (rev_date r) (rev_dsc r) (read_yin_text child "reference")
        else r)
      (x_child node)
      (Revision date (rev_dsc r) (rev_ref r))).

(** The middle run, one child: the nodes with cardinality 0..n except the
    data nodes fill the next slot of their array.  An import or an
    include may load a module or a submodule: these two steps work on the
    context, module->ctx, as well as on the store. *)
Definition middle_run_step (L : ly_loader) (module : mod_ptr) (node : lyxml_elem)
  : loading unit :=
  if named node "import" then
    slot <~ in_ctx (reads (fun mem =>
              deref (imp (at_ mem module) !! imp_size (at_ mem module))));
    r <~ fill_yin_import L node slot;
    in_ctx (writes (fun mem => update mem module (fun m =>
      with_imp_size (with_imp m (<[imp_size m := r]> (imp m))) (S (imp_size m)))))
  else if named node "include" then
    slot <~ in_ctx (reads (fun mem =>
              deref (inc (at_ mem module) !! inc_size (at_ mem module))));
    r <~ fill_yin_include L module node slot;
    in_ctx (writes (fun mem => update mem module (fun m =>
      with_inc_size (with_inc m (<[inc_size m := r]> (inc m))) (S (inc_size m)))))
  else if named node "revision" then
    in_ctx (
      r <~ reads (fun mem =>
             slot ← deref (rev (at_ mem module) !! rev_size (at_ mem module));
             read_revision node slot);
      writes (fun mem => update mem module (fun m =>
        with_rev_size (with_rev m (<[rev_size m := r]> (rev m))) (S (rev_size m)))))
  else if named node "typedef" then
    in_ctx (
      mem' <~ reads (fun mem =>
                e ← fill_yin_typedef module node (AtModule (tpdf_size (at_ mem module))) (mem, []);
                Ok e.1);
      writes (fun _ => update mem' module (fun m => with_tpdfs_size m (S (tpdf_size m)))))
  else if named node "identity" then
    in_ctx (
      i <~ reads (fun mem => Ok (ident_size (at_ mem module)));
      fill_yin_identity module node (module, i) ;;
      writes (fun mem => update mem module (fun m => with_ident_size m (S (ident_size m)))))
  else retS tt.

Fixpoint middle_run (L : ly_loader) (module : mod_ptr) (children : list lyxml_elem)
  : loading unit :=
  match children with
  | [] => retS tt
  | node :: next => middle_run_step L module node ;; middle_run L module next
  end.

(** The last run, one staged data statement: the node is read and linked
    at the end of [module->data]. *)
Definition last_run_step (module : mod_ptr) (node : lyxml_elem) : state unit :=
  let include (read : memory -> result ly_mnode) : state unit :=
    mnode <~ reads read;
    (* include data element *)
    writes (fun mem => update mem module (fun m => with_data m (data m ++ [mnode]))) in
  if named node "container" then include (fun mem => read_yin_container mem module [] node)
  else if named node "leaf-list" then include (fun mem => read_yin_leaflist mem module [] node)
  else if named node "leaf" then include (fun mem => read_yin_leaf mem module [] node)
  else if named node "list" then include (fun mem => read_yin_list mem module [] node)
  else if named node "choice" then include (fun mem => read_yin_choice mem module [] node)
  else if named node "grouping" then include (fun mem => read_yin_grouping mem module [] node)
  else if named node "uses" then include (fun mem => read_yin_uses mem module [] node true)
  else retS tt.

Fixpoint last_run (module : mod_ptr) (root : list lyxml_elem) : state unit :=
  match root with
  | [] => retS tt
  | node :: next => last_run_step module node ;; last_run module next
  end.

(** The context of the module, module->ctx, is the context at hand. *)
Definition read_sub_module (L : ly_loader) (module : mod_ptr) (yin : lyxml_elem)
  (submodule : bool) : loading unit :=
  st <~ in_ctx (reads (fun mem =>
          fold_left (first_run_step submodule) (x_child yin)
            (Ok (FirstRun (at_ mem module) [] [] (Counters 0 0 0 0 0)))));
  in_ctx (writes (fun mem => update mem module (fun _ => fr_module st))) ;;
  (if submodule then retS tt
   else
     (* check for mandatory statements *)
     if negb (is_some (m_ns (fr_module st))) then failS (Val VE_MISSSTMT2)
     else if negb (is_some (m_prefix (fr_module st))) then failS (Val VE_MISSSTMT2)
     else retS tt) ;;
  (* allocate arrays for elements with cardinality of 0..n *)
  in_ctx (writes (fun mem => update mem module (allocate_arrays (fr_count st)))) ;;
  (* middle part - process nodes with cardinality of 0..n except the data nodes *)
  middle_run L module (fr_child st) ;;
  (* last part - process data nodes *)
  in_ctx (last_run module (fr_root st)).

(** ** yin_read_module *)

(** realloc(list, bytes) for an array of pointers of [sizeof_ptr] bytes
    each: the block reaches as far as whole pointers fit into [bytes];
    the slots it had are kept, the slots it gains are indeterminate. *)
Definition realloc (sizeof_ptr : nat) (l : list slot) (bytes : nat) : list slot :=
  let slots := (bytes / sizeof_ptr)%nat in
  take slots l ++ replicate (slots - length l) Indet.

(** newlist[i] = v: undefined outside the block. *)
Definition store (l : list slot) (i : nat) (v : slot) : result (list slot) :=
  if bool_decide (i < length l)%nat then Ok (<[i := v]> l) else Undef.

(** for (i = ctx->models.size; i < ctx->models.size * 2; i++) newlist[i] = NULL; *)
Fixpoint clear_slots (newlist : list slot) (i n : nat) : result (list slot) :=
  match n with
  | O => Ok newlist
  | S n' => newlist ← store newlist i Null; clear_slots newlist (S i) n'
  end.

(** The growth of the list of modules when it is full. *)
Definition grow_models (sizeof_ptr : nat) (ctx : ly_ctx) : result ly_ctx :=
  if bool_decide (models_used ctx = models_size ctx) then
    let newlist := realloc sizeof_ptr (models_list ctx) (models_size ctx * 2) in
    newlist ← clear_slots newlist (models_size ctx) (models_size ctx * 2 - models_size ctx);
    Ok (Ctx newlist (models_used ctx) (models_size ctx * 2))
  else Ok ctx.

(** for (i = 0; ctx->models.list[i]; i++) ...: the check of the name and
    the revision against every module of the list; the result is the
    index of the first NULL slot.  [n] bounds the slots of the block. *)
Fixpoint first_free_slot (mem : memory) (module : mod_ptr) (l : list slot) (i n : nat)
  : result nat :=
  match n with
  | O => Undef
  | S n' =>
      s ← deref (l !! i);
      match s with
      | Indet => Undef
      | Null => Ok i
      | Ptr other =>
          (* check name (name/revision) uniqueness *)
          n1 ← deref (m_name (at_ mem other));
          n2 ← deref (m_name (at_ mem module));
          if String.eqb n1 n2 then
            match rev_size (at_ mem other), rev_size (at_ mem module) with
            | O, O =>
                (* both data models are same, with no revision specified *)
                Err (Log LY_EINVAL)
            | O, _ | _, O =>
                (* one of the models does not have a revision, so they differs *)
                first_free_slot mem module l (S i) n'
            | _, _ =>
                (* both models have a revision statement which we have to
                   compare, revision at position 0 is the last revision *)
                r1 ← deref (rev (at_ mem other) !! 0%nat);
                r2 ← deref (rev (at_ mem module) !! 0%nat);
                if String.eqb (rev_date r1) (rev_date r2) then
                  (* we have the same modules *)
                  Err (Log LY_EINVAL)
                else first_free_slot mem module l (S i) n'
            end
          else first_free_slot mem module l (S i) n'
      end
  end.

(** Modelled from the spec: ly_module_free of tree.c frees the module
    that was being read.  The object leaves the store: when it is the
    object allocated last, the store ends before it again; when modules
    were loaded after it, its place stays behind, zeroed. *)
Definition ly_module_free (mem : memory) (module : mod_ptr) : memory :=
  if bool_decide (S module = length mem) then take module mem
  else <[module := module0]> mem.

Section Reader.

(** The loader of the context, lyxml_read of xml.c, the XML parser, and
    the size of a pointer of the platform. *)
Variable L : ly_loader.
Variable lyxml_read : string -> option lyxml_elem.
Variable sizeof_ptr : nat.

Definition yin_read_module (ctx : ly_ctx) (mem : memory) (data : string)
  : result mod_ptr * ly_ctx * memory :=
  match lyxml_read data with
  | None => (Err Quiet, ctx, mem)
  | Some yin =>
      (* check root element *)
      if negb (named yin "module") then (Err (Val VE_INSTMT), ctx, mem) else
      match lyxml_get_attr yin "name" with
      | None => (Err (Val VE_MISSARG), ctx, mem)
      | Some value =>
          let module := length mem in
          let mem := mem ++ [with_m_name module0 (Some value)] in
          match read_sub_module L module yin false (ctx, mem) with
          | (Ok _, (ctx, mem)) =>
              (* add to the context's list of modules *)
              match grow_models sizeof_ptr ctx with
              | Ok ctx =>
                  match first_free_slot mem module (models_list ctx) 0
                          (S (length (models_list ctx))) with
                  | Ok i =>
                      (Ok module,
                       Ctx (<[i := Ptr module]> (models_list ctx))
                           (S (models_used ctx)) (models_size ctx),
                       mem)
                  | Err d => (Err d, ctx, ly_module_free mem module)
                  | Undef => (Undef, ctx, mem)
                  end
              | Err d => (Err d, ctx, ly_module_free mem module)
              | Undef => (Undef, ctx, mem)
              end
          | (Err d, (ctx, mem)) => (Err d, ctx, ly_module_free mem module)
          | (Undef, (ctx, mem)) => (Undef, ctx, mem)
          end
      end
  end.

End Reader.

(** ** yin_read_submodule *)

(** Modelled from the spec: ly_submodule_free of tree.c frees the
    submodule that was being read, as ly_module_free does a module. *)
Definition ly_submodule_free (mem : memory) (submodule : mod_ptr) : memory :=
  if bool_decide (S submodule = length mem) then take submodule mem
  else <[submodule := module0]> mem.

Section SubmoduleReader.

Variable L : ly_loader.
Variable lyxml_read : string -> option lyxml_elem.

(** [ctx] is module->ctx, the context of the module that includes the
    submodule. *)
Definition yin_read_submodule (ctx : ly_ctx) (mem : memory) (data : string)
  : result mod_ptr * ly_ctx * memory :=
  match lyxml_read data with
  | None => (Err Quiet, ctx, mem)
  | Some yin =>
      (* check root element *)
      if negb (named yin "submodule") then (Err (Val VE_INSTMT), ctx, mem) else
      match lyxml_get_attr yin "name" with
      | None => (Err (Val VE_MISSARG), ctx, mem)
      | Some value =>
          let submodule := length mem in
          let mem := mem ++ [with_m_name module0 (Some value)] in
          match read_sub_module L submodule yin true (ctx, mem) with
          | (Ok _, (ctx, mem)) => (Ok submodule, ctx, mem)
          | (Err d, (ctx, mem)) => (Err d, ctx, ly_submodule_free mem submodule)
          | (Undef, (ctx, mem)) => (Undef, ctx, mem)
          end
      end
  end.

End SubmoduleReader.

(** ** Search directories

    Two loaders to read documents with. *)

(** The loader of a context whose search directory holds no file: every
    load fails. *)
Definition no_files : ly_loader :=
  Loader (fun _ _ ctx mem => (Err Quiet, ctx, mem))
         (fun _ _ _ ctx mem => (Err Quiet, ctx, mem)).

(** The loader of a context whose search directory holds the documents
    [modules] and [submodules], each under the name of its module,
    already parsed; the documents are read on a platform with pointers
    of [sizeof_ptr] bytes, and what they import or include themselves is
    loaded by [L]. *)
Definition file_of (files : list (string * lyxml_elem)) (name : string)
  : option lyxml_elem :=
  snd <$> List.find (fun f => String.eqb (fst f) name) files.

Definition files_loader (L : ly_loader) (sizeof_ptr : nat)
  (modules submodules : list (string * lyxml_elem)) : ly_loader :=
  Loader (fun name _ ctx mem =>
            yin_read_module L (file_of modules) sizeof_ptr ctx mem name)
         (fun _ name _ ctx mem =>
            yin_read_submodule L (file_of submodules) ctx mem name).

(** * Documents and contexts of the examples *)

#[global] Instance result_fmap : FMap result := fun A B f r =>
  match r with
  | Ok a => Ok (f a)
  | Err d => Err d
  | Undef => Undef
  end.

(** A statement of the YIN namespace. *)
Definition stmt (name : string) (attrs : list (string * string))
  (children : list lyxml_elem) : lyxml_elem :=
  Elem name (Some LY_NSYIN) attrs None children.

Definition arg (name value : string) : list (string * string) := [(name, value)].

(** module m { namespace "urn:m"; prefix m; ... } *)
Definition module_m (body : list lyxml_elem) : lyxml_elem :=
  stmt "module" (arg "name" "m")
    (stmt "namespace" (arg "uri" "urn:m") [] :: stmt "prefix" (arg "value" "m") [] :: body).

Definition type_stmt (name : string) (children : list lyxml_elem) : lyxml_elem :=
  stmt "type" (arg "name" name) children.

Definition leaf_stmt (name type : string) (more : list lyxml_elem) : lyxml_elem :=
  stmt "leaf" (arg "name" name) (type_stmt type [] :: more).

Definition enum_stmt (name : string) (value : option string) : lyxml_elem :=
  stmt "enum" (arg "name" name)
    match value with
    | Some v => [stmt "value" (arg "value" v) []]
    | None => []
    end.

Definition identity_stmt (name : string) (base : option string) : lyxml_elem :=
  stmt "identity" (arg "name" name)
    match base with
    | Some b => [stmt "base" (arg "name" b) []]
    | None => []
    end.

(** A context as ly_ctx_new leaves it: sixteen empty slots. *)
Definition fresh_ctx : ly_ctx := Ctx (replicate 16 Null) 0 16.

(** Reading a document that the parser has turned into [doc], on a
    platform with pointers of eight bytes, with no file in the search
    directory. *)
Definition read_doc (doc : lyxml_elem) (ctx : ly_ctx) (mem : memory)
  : result mod_ptr * ly_ctx * memory :=
  yin_read_module no_files (fun _ => Some doc) 8 ctx mem "".

(** The values of the enums of a type, in order. *)
Definition enum_values (t : ly_type) : list Z := en_value <$> enums_list t.

Definition read_enumeration (enums : list lyxml_elem) : result (list Z) :=
  enum_values <$> fill_yin_type [module0] 0 [] (type_stmt "enumeration" enums) type0.

(** The config bits of a node. *)
Definition config_of (n : ly_mnode) : Z := Z.land (mn_flags n) LY_NODE_CONFIG_MASK.

(** A container that is read-only state (config false). *)
Definition state_container : ly_mnode :=
  with_hdr (mnode0 LY_NODE_CONTAINER)
    (Common (Some "c") None None LY_NODE_CONFIG_R (Some 0%nat)).

(** identity a { base b; }  identity b; *)
Definition forward_base : lyxml_elem :=
  module_m [identity_stmt "a" (Some "b"); identity_stmt "b" None].

(** identity base;  identity a { base base; }  identity b { base a; } *)
Definition backward_bases : lyxml_elem :=
  module_m [identity_stmt "base" None; identity_stmt "a" (Some "base");
            identity_stmt "b" (Some "m:a")].

(** leaf x; *)
Definition leaf_without_type : lyxml_elem :=
  module_m [stmt "leaf" (arg "name" "x") []].

(** container c { typedef t { type t; } } *)
Definition typedef_of_itself : lyxml_elem :=
  module_m [stmt "container" (arg "name" "c")
              [stmt "typedef" (arg "name" "t") [type_stmt "t" []]]].

(** uses g;  in a module without any grouping *)
Definition uses_of_nothing : lyxml_elem :=
  module_m [stmt "uses" (arg "name" "g") []].

(** uses m:g;  with the prefix of the module itself *)
Definition uses_of_nothing_own_prefix : lyxml_elem :=
  module_m [stmt "uses" (arg "name" "m:g") []].

(** A module with a statement [bogus] of the YIN namespace at top level,
    in a list and in a leaf. *)
Definition bogus : lyxml_elem := stmt "bogus" [] [].

Definition bogus_statements : lyxml_elem :=
  module_m [bogus;
            stmt "list" (arg "name" "l")
              [stmt "key" (arg "value" "k") []; bogus; leaf_stmt "k" "string" [bogus]]].

(** A context whose sixteen slots are taken by the modules at the
    addresses 0 to 15, named m0 to m15. *)
Definition numbered (i : nat) : ly_module :=
  with_m_name module0 (Some (String "m" (String (ascii_of_nat (48 + i)) EmptyString))).

Definition full_memory : memory := numbered <$> seq 0 16.
Definition full_ctx : ly_ctx := Ctx (Ptr <$> seq 0 16) 16 16.

(** module m0 { namespace "urn:m0"; prefix m0; }, the name of the module
    at the address 0 of [full_memory], and the context of [full_ctx]
    with a seventeenth slot, which is free. *)
Definition module_m0 : lyxml_elem :=
  stmt "module" (arg "name" "m0")
    [stmt "namespace" (arg "uri" "urn:m0") []; stmt "prefix" (arg "value" "m0") []].

Definition roomy_ctx : ly_ctx := Ctx ((Ptr <$> seq 0 16) ++ [Null]) 16 17.

(** list l { key "k"; leaf k { type string; } leaf v { type string; } } *)
Definition keyed_list : lyxml_elem :=
  stmt "list" (arg "name" "l")
    [stmt "key" (arg "value" "k") []; leaf_stmt "k" "string" []; leaf_stmt "v" "string" []].

(** list l { config true; leaf v { type string; } } *)
Definition list_config_true : lyxml_elem :=
  stmt "list" (arg "name" "l")
    [stmt "config" (arg "value" "true") []; leaf_stmt "v" "string" []].

(** module m { ... container c { config false; list l { config true; ... } } } *)
Definition module_state_list : lyxml_elem :=
  module_m [stmt "container" (arg "name" "c")
              [stmt "config" (arg "value" "false") []; list_config_true]].

(** module m { ... revision 2015-07-03; leaf x { type string; } } *)
Definition module_with_revision : lyxml_elem :=
  module_m [stmt "revision" (arg "date" "2015-07-03") []; leaf_stmt "x" "string" []].

(** * Notions used to state the properties *)

(** ** The keys of a list *)

(** The walk of read_yin_list through the argument of [key]: the length
    of the name at the head, the name, and where the next name starts. *)
Definition key_len (key_str : string) : nat :=
  match strpbrk key_str key_delims with
  | Some s => ptr_diff s key_str
  | None => String.length key_str
  end.

Definition key_token (key_str : string) : string := strndup key_str (key_len key_str).

Definition key_rest (key_str : string) : option string :=
  skip_space <$> strpbrk key_str key_delims.

(** The names that [n] rounds of the walk take from the argument. *)
Fixpoint key_tokens (n : nat) (key_str : option string) : list string :=
  match n, key_str with
  | S n', Some s => key_token s :: key_tokens n' (key_rest s)
  | _, _ => []
  end.

(** [k] is the position of the first child with the name [name]. *)
Definition first_named (children : list ly_mnode) (name : string) (k : nat) : Prop :=
  (exists c, children !! k = Some c /\ mn_name c = Some name) /\
  forall j c, (j < k)%nat -> children !! j = Some c -> mn_name c <> Some name.

(** The child [k] of the list may serve as a key. *)
Definition key_leaf (lst : ly_mnode) (k : nat) : Prop :=
  exists key, mn_child lst !! k = Some key /\
    nodetype key = LY_NODE_LEAF /\
    ty_base (mn_type key) <> LY_TYPE_EMPTY /\
    config_of key = config_of lst.

(** The invariant of the keys of a list. *)
Record keys_valid (lst : ly_mnode) : Prop := KeysValid {
  kv_nonempty : (0 < keys_size lst)%nat;
  kv_length : length (keys lst) = keys_size lst;
  kv_distinct : NoDup (keys lst);
  kv_leaf : forall i slot, keys lst !! i = Some slot ->
            exists k, slot = Some k /\ key_leaf lst k
}.

(** The names of the argument of a key statement: what the walk takes
    from it until the argument ends.  Every round moves forward in the
    argument, so its length bounds the rounds. *)
Definition key_names (key_str : string) : list string :=
  key_tokens (S (String.length key_str)) (Some key_str).

(** The key array has one entry for every name of the key argument, and
    every name is bound, in order, to the first child of that name. *)
Definition keys_bound (lst : ly_mnode) (key_str : string) : Prop :=
  length (key_names key_str) = keys_size lst /\
  forall i tok, key_names key_str !! i = Some tok ->
    exists k, keys lst !! i = Some (Some k) /\ first_named (mn_child lst) tok k.

(** Two states of a list node that differ at most in the children and
    the typedefs. *)
Definition same_keys (a b : ly_mnode) : Prop :=
  mn_hdr a = mn_hdr b /\ keys_size a = keys_size b /\ keys a = keys b.

(** ** The store while a module is read *)

(** The module without its identities: what the resolution of a base
    leaves alone. *)
Definition without_ident (m : ly_module) : ly_module := with_ident m [].

Definition base_of (mem : memory) (p : ident_ptr) : option ident_ptr :=
  id_base (ident_at mem p).

(** From [mem] to [mem'] nothing but members of identities was written,
    and of the bases only that of the identity [id]: it is as before or
    points at an identity that its module counted as read. *)
Definition bound_to (id : ident_ptr) (mem mem' : memory) : Prop :=
  (forall m, without_ident (at_ mem' m) = without_ident (at_ mem m)) /\
  (forall p, p <> id -> base_of mem' p = base_of mem p) /\
  (base_of mem' id = base_of mem id \/
   exists m' i', (i' < ident_size (at_ mem m'))%nat /\ base_of mem' id = Some (m', i')).

(** Every base of an identity of [module] that lies in [module] itself
    is an identity declared before it. *)
Definition bases_backward (module : mod_ptr) (mem : memory) : Prop :=
  forall k j, base_of mem (module, k) = Some (module, j) -> (j < k)%nat.

(** The slots of the identities from [i] on have no base yet. *)
Definition unbound_from (module : mod_ptr) (i : nat) (mem : memory) : Prop :=
  forall k, (i <= k)%nat -> base_of mem (module, k) = None.

(** What identifies a module in the list of the context: its name and
    its revisions. *)
Definition card (m : ly_module) : option string * nat * list ly_revision :=
  (m_name m, rev_size m, rev m).

(** A module with revisions has one at position 0. *)
Definition revision_at_0 (m : ly_module) : Prop :=
  (0 < rev_size m)%nat -> is_Some (rev m !! 0%nat).

(** The invariant of the runs of read_sub_module over the store, for the
    module at [module] whose name is [name]; [mem0] is the store at the
    start. *)
Record reading (module : mod_ptr) (name : option string) (mem0 mem : memory) : Prop :=
  Reading {
    rd_backward : bases_backward module mem;
    rd_unbound : unbound_from module (ident_size (at_ mem module)) mem;
    rd_others : forall m, (m < length mem0)%nat -> m <> module ->
                card (at_ mem m) = card (at_ mem0 m);
    rd_name : m_name (at_ mem module) = name;
    rd_revision : revision_at_0 (at_ mem module);
    rd_alloc : (module < length mem0 <= length mem)%nat
  }.

(** ** What a load does to the store *)

(** The module without the derived lists of its identities. *)
Definition without_der (m : ly_module) : ly_module :=
  with_ident m ((fun i => Ident (id_hdr i) (id_base i) []) <$> ident m).

(** From [mem] to [mem'] objects were allocated behind those of [mem],
    and to the objects of [mem] nothing was written but derived lists
    of their identities. *)
Definition der_only (mem mem' : memory) : Prop :=
  (length mem <= length mem')%nat /\
  forall m, (m < length mem)%nat -> without_der (at_ mem' m) = without_der (at_ mem m).


(** The loader keeps to that.  It is what the functions of yin.c do when
    they read a module or a submodule: they write to the object that
    they allocate and, when they resolve the base of an identity, to the
    derived lists of the base and of the bases above it
    (find_base_ident_sub), which may lie in other modules. *)
Definition loads_der_only (L : ly_loader) : Prop :=
  (forall name revision ctx mem,
     der_only mem (load_module L name revision ctx mem).2) /\
  (forall module name revision ctx mem,
     der_only mem (load_submodule L module name revision ctx mem).2).



(** ** The list of modules *)

(** The list as the context keeps it: [size] slots, the first [used] of
    them modules of the store, with a name and, if they have revisions,
    one at position 0; the others NULL. *)
Record ctx_wf (ctx : ly_ctx) (mem : memory) : Prop := CtxWf {
  wf_length : length (models_list ctx) = models_size ctx;
  wf_used : forall i, (i < models_used ctx)%nat ->
            exists m, models_list ctx !! i = Some (Ptr m) /\ (m < length mem)%nat /\
                      is_Some (m_name (at_ mem m)) /\ revision_at_0 (at_ mem m);
  wf_free : forall i, (models_used ctx <= i < models_size ctx)%nat ->
            models_list ctx !! i = Some Null
}.

(** The modules [a] and [b] have the same name and the same latest
    revision, or the same name and no revision at all. *)
Definition duplicates (a b : ly_module) : Prop :=
  is_Some (m_name a) /\ m_name a = m_name b /\
  ((rev_size a = O /\ rev_size b = O) \/
   ((0 < rev_size a)%nat /\ (0 < rev_size b)%nat /\
    exists ra rb, rev a !! 0%nat = Some ra /\ rev b !! 0%nat = Some rb /\
                  rev_date ra = rev_date rb)).

(** The context and the store after read_sub_module has read the
    document into the module that yin_read_module allocates at the
    address [length mem]: the module as it is handed to the
    registration, and the context as the imports of the module have left
    it. *)
Definition module_read (L : ly_loader) (lyxml_read : string -> option lyxml_elem)
  (ctx : ly_ctx) (mem : memory) (data : string) : option world :=
  match lyxml_read data with
  | None => None
  | Some yin =>
      if negb (named yin "module") then None else
      match lyxml_get_attr yin "name" with
      | None => None
      | Some value =>
          match read_sub_module L (length mem) yin false
                  (ctx, mem ++ [with_m_name module0 (Some value)]) with
          | (Ok _, w) => Some w
          | _ => None
          end
      end
  end.

(** ** More examples *)

(** list l { key ...; ... } read at top level. *)
Definition list_l (key : list (string * string)) (children : list lyxml_elem)
  : result ly_mnode :=
  read_yin_list [module0] 0 [] (stmt "list" (arg "name" "l") (stmt "key" key [] :: children)).

(** The same document read twice, first into a fresh context. *)
Definition twice (doc : lyxml_elem) :=
  let first := read_doc doc fresh_ctx [] in
  (first, read_doc doc first.1.2 first.2).

(** A context of two slots with the module of [module_with_revision] in
    the first, and its store. *)
Definition ctx_with_m : ly_ctx := Ctx [Ptr 0; Null] 1 2.
Definition mem_with_m : memory := (read_doc module_with_revision (Ctx [Null; Null] 0 2) []).2.


(** * Further notions *)

(** ** read_yin_common *)

(** The children that read_yin_common takes up and frees. *)
Definition handled (ext : bool) (sub : lyxml_elem) : bool :=
  (named sub "description" || named sub "reference" || named sub "status" ||
   (ext && named sub "config"))%bool.

(** Some config statement among the children has the value false. *)
Definition config_false (children : list lyxml_elem) : bool :=
  existsb (fun sub => (named sub "config" &&
                       bool_decide (lyxml_get_attr sub "value" = Some "false"))%bool)
          children.

(** The config bits of a header. *)
Definition config_bits (h : ly_common) : Z := Z.land (c_flags h) LY_NODE_CONFIG_MASK.

(** leaf x { description; type string; config false; } *)
Definition documented_leaf : lyxml_elem :=
  stmt "leaf" (arg "name" "x")
    [stmt "description" [] []; type_stmt "string" [];
     stmt "config" (arg "value" "false") []].

(** ** Types *)

(** The name of a type or of an identity without its prefix. *)
Definition local_name (name : string) : string :=
  match strchr name ":" with
  | Some q => str_next q
  | None => name
  end.

(** typedef t { type string; } at the top level of the module m, and a
    leaf of that type *)
Definition module_with_typedef : lyxml_elem :=
  module_m [stmt "typedef" (arg "name" "t") [type_stmt "string" []];
            leaf_stmt "x" "m:t" []].

Definition mem_with_typedef : memory := (read_doc module_with_typedef fresh_ctx []).2.

(** container outer { typedef t { type string; }
                      container inner { leaf x { type t; } } } *)
Definition module_typedef_two_up : lyxml_elem :=
  module_m [stmt "container" (arg "name" "outer")
              [stmt "typedef" (arg "name" "t") [type_stmt "string" []];
               stmt "container" (arg "name" "inner") [leaf_stmt "x" "t" []]]].

(** typedef t { type string; }
    container outer { typedef t { type empty; }
                      list l { key "k"; leaf k { type t; } } } *)
Definition module_typedef_behind : lyxml_elem :=
  module_m [stmt "typedef" (arg "name" "t") [type_stmt "string" []];
            stmt "container" (arg "name" "outer")
              [stmt "typedef" (arg "name" "t") [type_stmt "empty" []];
               stmt "list" (arg "name" "l")
                 [stmt "key" (arg "value" "k") []; leaf_stmt "k" "t" []]]].

(** ** Enumerations *)

Definition en_name (e : ly_type_enum) : option string := c_name (en_hdr e).

(** The enum statements of a type statement, in document order. *)
Definition enum_stmts (yin : lyxml_elem) : list lyxml_elem :=
  filter (fun node => named node "enum") (x_child yin).

(** The enum statement states its value: the first child that
    read_yin_common leaves to it is a value statement. *)
Definition has_value (en : lyxml_elem) : bool :=
  match filter (fun sub => negb (handled false sub)) (x_child en) with
  | node :: _ => named node "value"
  | [] => false
  end.

(** A name as an enum may bear it: not empty, no white space at either
    end. *)
Definition trimmed (s : string) : Prop :=
  s <> "" /\ first_is_space s = false /\ last_is_space s = false.

(** type enumeration { enum a { value 7; } enum b; enum c { value 3; } } *)
Definition enumeration_7_auto_3 : lyxml_elem :=
  type_stmt "enumeration"
    [enum_stmt "a" (Some "7"); enum_stmt "b" None; enum_stmt "c" (Some "3")].

(** ** Identities *)

Definition ident_name (mem : memory) (p : ident_ptr) : option string :=
  c_name (id_hdr (ident_at mem p)).

(** The store after the document [backward_bases] has been read. *)
Definition mem_with_identities : memory := (read_doc backward_bases fresh_ctx []).2.

(** The pointer is to an identity of the store. *)
Definition ident_valid (mem : memory) (p : ident_ptr) : Prop :=
  (p.1 < length mem)%nat /\ (p.2 < length (ident (at_ mem p.1)))%nat.

(** A module that has read its identity x and is about to fill its
    second identity. *)
Definition one_identity_read : memory :=
  [with_ident_size
     (with_ident module0 [Ident (set_name common0 (Some "x")) None []; ident0]) 1].

(** ** read_sub_module *)

(** The element without its children outside the YIN namespace. *)
Definition yin_only (yin : lyxml_elem) : lyxml_elem :=
  Elem (x_name yin) (x_ns yin) (x_attr yin) (x_content yin)
    (filter (fun node => x_ns node = Some LY_NSYIN) (x_child yin)).

(** ** The store and the registration *)

(** The statements of cardinality 0..1 of a module: what its header
    says. *)
Definition head_of (m : ly_module) :=
  (m_name m, m_ns m, m_prefix m, m_dsc m, m_ref m, m_org m, m_contact m, m_version m).

(** From [mem] to [mem'] no object of [mem] was freed and no header of
    a module of [mem] was written. *)
Definition frame (mem mem' : memory) : Prop :=
  (length mem <= length mem')%nat /\
  forall m, (m < length mem)%nat -> head_of (at_ mem' m) = head_of (at_ mem m).

(** From [mem] to [mem'] moreover no node was attached at the top level
    of a module of [mem]. *)
Definition frame_data (mem mem' : memory) : Prop :=
  frame mem mem' /\
  forall m, (m < length mem)%nat -> data (at_ mem' m) = data (at_ mem m).

(** The command keeps what it works on within the relation [R],
    whatever its outcome. *)
Definition keeps {S} (R : S -> S -> Prop) {A} (c : S -> result A * S) : Prop :=
  forall mem, R mem (c mem).2.

(** A relation of the store, for a command that works on the context as
    well. *)
Definition on_store (R : memory -> memory -> Prop) (w w' : world) : Prop :=
  R w.2 w'.2.

(** The store when the module m without a revision has been read into
    the context that holds m with its revision, before it is
    registered. *)
Definition mem_with_m_and_m : memory :=
  default [] (snd <$> module_read no_files (fun _ => Some (module_m []))
                        ctx_with_m mem_with_m "").

(** The last child of the YIN namespace that has the given name. *)
Definition last_stmt (name : string) (children : list lyxml_elem) : option lyxml_elem :=
  last (filter (fun node => x_ns node = Some LY_NSYIN /\ named node name = true) children).

(** ** The data nodes *)

(** What a node is: its kind and its name. *)
Definition sig_of (n : ly_mnode) : LY_NODE_TYPE * option string := (nodetype n, mn_name n).

(** The kind of node that a data statement stands for. *)
Definition kind_of (sub : lyxml_elem) : LY_NODE_TYPE :=
  if named sub "container" then LY_NODE_CONTAINER
  else if named sub "leaf-list" then LY_NODE_LEAFLIST
  else if named sub "leaf" then LY_NODE_LEAF
  else if named sub "list" then LY_NODE_LIST
  else if named sub "choice" then LY_NODE_CHOICE
  else if named sub "uses" then LY_NODE_USES
  else if named sub "grouping" then LY_NODE_GROUPING
  else LY_NODE_UNKNOWN.

Definition stmt_sig (sub : lyxml_elem) : LY_NODE_TYPE * option string :=
  (kind_of sub, lyxml_get_attr sub "name").

(** The nodes differ at most in their typedefs. *)
Definition same_but_tpdf (a b : ly_mnode) : Prop :=
  with_tpdf (with_tpdf_size a 0) [] = with_tpdf (with_tpdf_size b 0) [].

(** container c { leaf a { type string; } description; container d;
    leaf-list e { type string; } } *)
Definition container_c : lyxml_elem :=
  stmt "container" (arg "name" "c")
    [leaf_stmt "a" "string" []; stmt "description" [] [];
     stmt "container" (arg "name" "d") [];
     stmt "leaf-list" (arg "name" "e") [type_stmt "string" []]].

(** ** Typedefs and uses *)

(** A module whose array of typedefs has one slot, not yet filled. *)
Definition mem_one_tpdf_slot : memory := [with_tpdfs module0 [tpdf0]].

(** typedef t { type string; description ...; } *)
Definition typedef_t : lyxml_elem :=
  stmt "typedef" (arg "name" "t")
    [type_stmt "string" []; stmt "status" (arg "value" "current") []].

(** The node that [uses->grp] points at, for a uses below [parent] in
    the module at [module]. *)
Definition grp_at (mem : memory) (module : mod_ptr) (parent : list ly_mnode)
  (g : grp_ptr) : option ly_mnode :=
  match g with
  | GrpChild i => p ← head parent; mn_child p !! i
  | GrpData i => data (at_ mem module) !! i
  end.

(** A module with the top-level grouping g. *)
Definition mem_with_grouping : memory :=
  [with_data (with_prefix module0 (Some "m"))
     [with_hdr (mnode0 LY_NODE_GROUPING) (set_name common0 (Some "g"))]].

(** The data statements at the top level of a document: the children of
    the YIN namespace that stand for a data node. *)
Definition data_stmts (yin : lyxml_elem) : list lyxml_elem :=
  filter (fun node => x_ns node = Some LY_NSYIN /\ is_data_stmt node = true) (x_child yin).

(** module m { ... leaf x { type string; } typedef t { type string; }
    container c; } with a description outside the YIN namespace *)
Definition module_x_c : lyxml_elem :=
  module_m [leaf_stmt "x" "string" [];
            stmt "typedef" (arg "name" "t") [type_stmt "string" []];
            Elem "container" None (arg "name" "skipped") None [];
            stmt "container" (arg "name" "c") []].

(** submodule s { prefix p; leaf x { type string; } } *)
Definition submodule_s : lyxml_elem :=
  stmt "submodule" (arg "name" "s")
    [stmt "prefix" (arg "value" "p") []; leaf_stmt "x" "string" []].

(** ** Imports from the search directory *)

(** module x { namespace "urn:x"; prefix x; identity top; } *)
Definition module_x : lyxml_elem :=
  stmt "module" (arg "name" "x")
    [stmt "namespace" (arg "uri" "urn:x") []; stmt "prefix" (arg "value" "x") [];
     identity_stmt "top" None].

(** module m { ... import x { prefix x; } identity a { base x:top; } } *)
Definition module_importing_x : lyxml_elem :=
  module_m [stmt "import" [("module", "x")] [stmt "prefix" (arg "value" "x") []];
            identity_stmt "a" (Some "x:top")].


(** The loader of a search directory that holds x.yin and nothing
    else. *)
Definition dir_with_x : ly_loader := files_loader no_files 8 [("x", module_x)] [].



(** ** Leaves, imports, choices *)

(** The last child with the given name, whatever its namespace. *)
Definition last_named (name : string) (children : list lyxml_elem) : option lyxml_elem :=
  last (filter (fun c => named c name = true) children).

(** The statements that read_yin_choice reads as the children of a
    choice. *)
Definition is_case_stmt (sub : lyxml_elem) : bool :=
  (named sub "container" || named sub "leaf-list" || named sub "leaf" ||
   named sub "list")%bool.

(** leaf x { type string; type m:t; } in the module with the typedef t *)
Definition leaf_two_types : lyxml_elem :=
  stmt "leaf" (arg "name" "x") [type_stmt "string" []; type_stmt "m:t" []].

(** import m { prefix a; prefix b; revision-date 2015-07-03T00:00; } *)
Definition import_m : lyxml_elem :=
  stmt "import" [("module", "m")]
    [stmt "prefix" (arg "value" "a") []; stmt "prefix" (arg "value" "b") [];
     stmt "revision-date" (arg "date" "2015-07-03T00:00") []].

(** choice ch { leaf a { type string; } uses g; container b; } *)
Definition choice_ch : lyxml_elem :=
  stmt "choice" (arg "name" "ch")
    [leaf_stmt "a" "string" []; stmt "uses" (arg "name" "g") [];
     stmt "container" (arg "name" "b") []].

(** A container with two typedefs, t and u. *)
Definition container_with_typedefs : ly_mnode :=
  with_tpdf (with_tpdf_size (mnode0 LY_NODE_CONTAINER) 2)
    [Tpdf (Some "u") None None 0 type0; Tpdf (Some "t") None None 0 type0].

(** * Properties *)

(** ** Enumerations *)

(** The scenario of the specification: a, b = 5, c get 0, 5, 6. *)
Example enum_values_0_5_6 :
  read_enumeration [enum_stmt "a" None; enum_stmt "b" (Some "5"); enum_stmt "c" None]
  = Ok [0; 5; 6].
Proof. reflexivity. Qed.

(** Two equal explicit values are refused. *)
Example enum_explicit_duplicate :
  read_enumeration [enum_stmt "a" (Some "1"); enum_stmt "b" (Some "1")]
  = Err (Val VE_ENUM_DUPVAL).
Proof. reflexivity. Qed.

(** C2, at the input where the code departs from it: an explicit value
    that equals the counter of the automatic values does not raise the
    counter, so with a = 0 the enum b, which has no value, is assigned 0
    again and not 1, one more than the highest value before it. *)
Theorem enum_auto_value_after_explicit_zero :
  read_enumeration [enum_stmt "a" (Some "0"); enum_stmt "b" None] = Ok [0; 0].
Proof. reflexivity. Qed.

(** C3, at the input where the code departs from it: b = 1 leaves the
    counter at 1, c is assigned 1 automatically, and the type is accepted
    with the value 1 given twice; no duplicate-enum-value error. *)
Theorem enum_auto_value_collides :
  read_enumeration [enum_stmt "a" None; enum_stmt "b" (Some "1"); enum_stmt "c" None]
  = Ok [0; 1; 1].
Proof. reflexivity. Qed.

(** The boundaries of the specification. *)
Example enum_auto_after_int32_max :
  read_enumeration [enum_stmt "a" (Some "2147483647"); enum_stmt "b" None]
  = Err (Val VE_INARG).
Proof. reflexivity. Qed.

Example enum_explicit_above_int32_max :
  read_enumeration [enum_stmt "a" (Some "2147483648")] = Err (Val VE_INARG).
Proof. reflexivity. Qed.

(** ** Config *)

Example config_false_is_read_only :
  (fun r => Z.land (c_flags r.1) LY_NODE_CONFIG_MASK) <$>
    read_yin_common 0 [] common0
      (stmt "leaf" (arg "name" "x") [stmt "config" (arg "value" "false") []]) true
  = Ok LY_NODE_CONFIG_R.
Proof. reflexivity. Qed.

Example config_default_top_level :
  (fun r => Z.land (c_flags r.1) LY_NODE_CONFIG_MASK) <$>
    read_yin_common 0 [] common0 (stmt "leaf" (arg "name" "x") []) true
  = Ok LY_NODE_CONFIG_W.
Proof. reflexivity. Qed.

(** C4, at the input where the code departs from it: a leaf with an
    explicit config true inside a config false container.  Both branches
    of read_yin_common test the value "false", the statement leaves the
    flags alone and the leaf inherits R from its parent instead of W. *)
Theorem config_true_under_state_parent :
  config_of <$>
    read_yin_leaf [module0] 0 [state_container]
      (leaf_stmt "x" "string" [stmt "config" (arg "value" "true") []])
  = Ok LY_NODE_CONFIG_R.
Proof. reflexivity. Qed.

(** C5, at the input where the code departs from it: a list declared
    config true, without a key, inside a config false container.
    read_yin_common leaves the flags alone at config true (both of its
    branches test the value "false"), so the list inherits R from the
    container; read_yin_list asks for the key of a list with flag W
    only and compiles this one with no key at all, and the module with
    the container is registered.  The same list at the top level of a
    module, where it gets W by default, is refused. *)
Theorem config_true_list_without_key :
  (fun lst => (config_of lst, keys_size lst, keys lst)) <$>
    read_yin_list [module0] 0 [state_container] list_config_true
  = Ok (LY_NODE_CONFIG_R, 0%nat, []) /\
  (read_doc module_state_list fresh_ctx []).1.1 = Ok 0%nat /\
  (fun c => (fun l => (sig_of l, config_of l, keys_size l)) <$> mn_child c) <$>
    data (at_ (read_doc module_state_list fresh_ctx []).2 0)
  = [[((LY_NODE_LIST, Some "l"), LY_NODE_CONFIG_R, 0%nat)]] /\
  read_yin_list [module0] 0 [] list_config_true = Err (Val VE_MISSSTMT2).
Proof. repeat split; vm_compute; reflexivity. Qed.

(** ** Types *)

(** C7, at the input where the code departs from it: a leaf without a
    type statement is compiled and registered; its type has no derivation
    and is not a built-in (the base kind is the zero LY_TYPE_DER).
    fill_yin_typedef refuses a typedef in the same state. *)
Theorem leaf_without_type_has_no_derivation :
  (fun r => match r.1.1 with
            | Ok m => (fun n => (ty_der (mn_type n), ty_base (mn_type n))) <$> data (at_ r.2 m)
            | _ => []
            end) (read_doc leaf_without_type fresh_ctx [])
  = [(None, LY_TYPE_DER)].
Proof. reflexivity. Qed.

(** A typedef of a container can name itself: the size of the array is
    set before the typedef is filled, the search finds the slot that is
    being filled, and the derivation is a cycle of length one. *)
Example typedef_derived_from_itself :
  (fun r => match r.1.1 with
            | Ok m => (fun n => (fun t => ty_der (tp_type t)) <$> mn_tpdf n) <$> data (at_ r.2 m)
            | _ => []
            end) (read_doc typedef_of_itself fresh_ctx [])
  = [[Some (TpLocal 0 0)]].
Proof. reflexivity. Qed.

(** ** Uses *)

(** C8, at the input where the code departs from it: a uses of the
    grouping g in a module that has no grouping at all.  Without a prefix
    (and with the module's own prefix) read_yin_uses returns the node
    with a NULL grouping and the module is registered; only the branch of
    the foreign prefixes checks that a grouping was found. *)
Theorem uses_of_unknown_grouping_accepted :
  (fun r => match r.1.1 with
            | Ok m => (fun n => (nodetype n, grp n)) <$> data (at_ r.2 m)
            | _ => []
            end) (read_doc uses_of_nothing fresh_ctx [])
  = [(LY_NODE_USES, None)]
  /\ is_ok (read_doc uses_of_nothing_own_prefix fresh_ctx []).1.1 = true.
Proof. split; reflexivity. Qed.

(** ** Unknown statements *)

(** C9, at the input where the code departs from it: a statement bogus of
    the YIN namespace at the top level of a module, among the children of
    a list and among the children of a leaf.  Nothing is reported, the
    module is registered with the list l and its key leaf k. *)
Theorem unknown_yin_statements_ignored :
  (fun r => match r.1.1 with
            | Ok m => (fun n => (mn_name n, mn_name <$> mn_child n, keys n)) <$> data (at_ r.2 m)
            | _ => []
            end) (read_doc bogus_statements fresh_ctx [])
  = [(Some "l", [Some "k"], [Some 0%nat])].
Proof. reflexivity. Qed.

(** ** The list of modules of the context *)

(** The growth asks realloc for size * 2 bytes.  With pointers of eight
    bytes and sixteen slots in use that is room for four pointers. *)
Example realloc_of_full_list :
  length (realloc 8 (models_list full_ctx) (models_size full_ctx * 2)) = 4%nat.
Proof. reflexivity. Qed.

(** C10, at the input where the code departs from it: the seventeenth
    module is registered in a context whose sixteen slots are in use.
    The block that realloc returns holds four pointers; the first store
    of NULL, at index 16, is outside of it. *)
Theorem growth_of_full_list_undefined :
  grow_models 8 full_ctx = Undef
  /\ (read_doc (module_m []) full_ctx full_memory).1.1 = Undef.
Proof. split; reflexivity. Qed.

(** ** Tools *)

Lemma bind_Ok {A B} (k : A -> result B) (c : result A) (b : B) :
  mbind k c = Ok b -> exists a, c = Ok a /\ k a = Ok b.
Proof. destruct c; simpl; intros H; try discriminate; eauto. Qed.

Lemma fold_left_Err {A B} (f : result A -> B -> result A) (l : list B) (d : diag) :
  (forall x, f (Err d) x = Err d) -> fold_left f l (Err d) = Err d.
Proof. intros Hf. induction l; simpl; [reflexivity|]. rewrite Hf. exact IHl. Qed.

Lemma fold_left_Undef {A B} (f : result A -> B -> result A) (l : list B) :
  (forall x, f Undef x = Undef) -> fold_left f l Undef = Undef.
Proof. intros Hf. induction l; simpl; [reflexivity|]. rewrite Hf. exact IHl. Qed.

(** A fold whose step passes failures on keeps an invariant of the
    accumulator when it ends well. *)
Lemma fold_left_Ok_inv {A B} (f : result A -> B -> result A) (P : A -> Prop)
  (l : list B) :
  (forall x, f Undef x = Undef) ->
  (forall d x, f (Err d) x = Err d) ->
  (forall a x a', In x l -> P a -> f (Ok a) x = Ok a' -> P a') ->
  forall a a', P a -> fold_left f l (Ok a) = Ok a' -> P a'.
Proof.
  intros HU HE. induction l as [|x l IH]; simpl; intros Hstep a a' Pa H.
  - congruence.
  - destruct (f (Ok a) x) as [a1|d|] eqn:E.
    + eapply IH; [ | | exact H].
      * intros; eapply Hstep; eauto.
      * eapply Hstep; eauto.
    + rewrite fold_left_Err in H by auto. discriminate.
    + rewrite fold_left_Undef in H by auto. discriminate.
Qed.

Ltac inv_bind H :=
  let a := fresh "a" in
  let E := fresh "E" in
  apply bind_Ok in H; destruct H as (a & E & H).

(** *** Loops over arrays *)

Lemma array_find_from_Some {A} (test : A -> result bool) (a : list A) n :
  forall from k,
  array_find_from test a from n = Ok (Some k) ->
  (from <= k < from + n)%nat /\
  (exists e, a !! k = Some e /\ test e = Ok true) /\
  (forall j e, (from <= j < k)%nat -> a !! j = Some e -> test e = Ok false).
Proof.
  induction n as [|n IH]; simpl; intros from k H; [discriminate|].
  inv_bind H. inv_bind H.
  destruct (a !! from) as [e|] eqn:El; simpl in E; [|discriminate].
  injection E as <-.
  destruct a1.
  - injection H as <-. split; [lia|]. split; [eauto|]. intros; lia.
  - apply IH in H. destruct H as (Hk & He & Hlt).
    split; [lia|]. split; [exact He|].
    intros j e' Hj Hl. destruct (decide (j = from)) as [->|].
    + rewrite El in Hl. injection Hl as <-. exact E0.
    + apply (Hlt j); [lia | exact Hl].
Qed.

Lemma array_find_from_None {A} (test : A -> result bool) (a : list A) n :
  forall from,
  array_find_from test a from n = Ok None ->
  forall j e, (from <= j < from + n)%nat -> a !! j = Some e -> test e = Ok false.
Proof.
  induction n as [|n IH]; simpl; intros from H j e Hj Hl; [lia|].
  inv_bind H. inv_bind H.
  destruct (a !! from) as [e0|] eqn:El; simpl in E; [|discriminate].
  injection E as <-.
  destruct a1; [discriminate|].
  destruct (decide (j = from)) as [->|].
  - rewrite El in Hl. injection Hl as <-. exact E0.
  - eapply IH; [exact H | | exact Hl]. lia.
Qed.

(** *** Strings *)

Lemma strndup_length (s : string) (n : nat) :
  (n <= String.length s)%nat -> String.length (strndup s n) = n.
Proof.
  revert s. induction n as [|n IH]; intros s Hn; simpl; [destruct s; reflexivity|].
  destruct s; simpl in *; [lia|]. rewrite IH; [reflexivity | lia].
Qed.

(** The test of read_yin_list for the name of a child. *)
Lemma strncmp_nul (name s : string) (len : nat) :
  (len <= String.length s)%nat ->
  (strncmp_eq name s len && nul_at name len)%bool = true <-> name = strndup s len.
Proof.
  unfold nul_at. revert name s. induction len as [|len IH]; intros name s Hlen; simpl.
  - destruct name, s; simpl; split; intros H; try reflexivity; try discriminate.
  - destruct s as [|y s]; simpl in Hlen; [lia|].
    destruct name as [|x name]; simpl.
    + split; intros H; discriminate.
    + specialize (IH name s ltac:(lia)).
      destruct (Ascii.eqb_spec x y) as [->|Hne]; simpl.
      * rewrite IH. split; intros H; [subst; reflexivity | injection H; auto].
      * split; intros H; [discriminate | injection H; intros; congruence].
Qed.

Lemma strpbrk_length (s accept q : string) :
  strpbrk s accept = Some q -> (String.length q <= String.length s)%nat.
Proof.
  induction s as [|a s IH]; simpl; [discriminate|].
  destruct (ascii_in a accept).
  - intros [= <-]. simpl. lia.
  - intros H. apply IH in H. lia.
Qed.

Lemma key_len_le (s : string) : (key_len s <= String.length s)%nat.
Proof.
  unfold key_len. destruct (strpbrk s key_delims); [unfold ptr_diff|]; lia.
Qed.

(** ** The keys of a list *)

Lemma key_leaf_same (a b : ly_mnode) (k : nat) :
  mn_child a = mn_child b -> mn_hdr a = mn_hdr b -> key_leaf a k -> key_leaf b k.
Proof.
  unfold key_leaf, config_of, mn_flags. intros -> ->. auto.
Qed.

(** The test of a child against the name at the head of the argument. *)
Lemma key_test_true (c : ly_mnode) (key_str : string) :
  (name ← deref (mn_name c);
   Ok (strncmp_eq name key_str (key_len key_str) && nul_at name (key_len key_str))%bool)
  = Ok true ->
  mn_name c = Some (key_token key_str).
Proof.
  intros H. inv_bind H. destruct (mn_name c) as [name|]; simpl in E; [|discriminate].
  injection E as <-. injection H as H.
  apply strncmp_nul in H; [|apply key_len_le]. unfold key_token. congruence.
Qed.

Lemma key_test_false (c : ly_mnode) (key_str : string) :
  (name ← deref (mn_name c);
   Ok (strncmp_eq name key_str (key_len key_str) && nul_at name (key_len key_str))%bool)
  = Ok false ->
  mn_name c <> Some (key_token key_str).
Proof.
  intros H Hn. rewrite Hn in H. simpl in H. injection H as H.
  assert (T : (strncmp_eq (key_token key_str) key_str (key_len key_str)
               && nul_at (key_token key_str) (key_len key_str))%bool = true).
  { apply strncmp_nul; [apply key_len_le | reflexivity]. }
  congruence.
Qed.

(** One round of the loop over the keys, as the walk sees it. *)
Lemma read_yin_list_keys_round (n i : nat) (lst : ly_mnode) (key_str : string) :
  read_yin_list_keys (S n) i lst (Some key_str) =
  (found ← array_find (fun mnode =>
              name ← deref (mn_name mnode);
              Ok (strncmp_eq name key_str (key_len key_str)
                  && nul_at name (key_len key_str))%bool)
            (mn_child lst) (length (mn_child lst));
   let lst := match found with
              | Some k => with_keys lst (<[i := Some k]> (keys lst))
              | None => lst
              end in
   slot_i ← deref (keys lst !! i);
   match slot_i with
   | None => Err (Val VE_KEY_MISS)
   | Some k =>
       key ← deref (mn_child lst !! k);
       if existsb (fun kj => bool_decide (kj = Some k)) (take i (keys lst))
       then Err (Val VE_KEY_DUP)
       else if negb (bool_decide (nodetype key = LY_NODE_LEAF))
       then Err (Val VE_KEY_NLEAF)
       else if bool_decide (ty_base (mn_type key) = LY_TYPE_EMPTY)
       then Err (Val VE_KEY_TYPE)
       else if negb (Z.land (mn_flags lst) LY_NODE_CONFIG_MASK =?
                     Z.land (mn_flags key) LY_NODE_CONFIG_MASK)
       then Err (Val VE_KEY_CONFIG)
       else read_yin_list_keys n (S i) lst (key_rest key_str)
   end).
Proof. reflexivity. Qed.

Lemma read_yin_list_keys_spec (n : nat) :
  forall i lst ks lst',
  read_yin_list_keys n i lst ks = Ok lst' ->
  (forall j, (i <= j < i + n)%nat -> keys lst !! j = Some None) ->
  mn_hdr lst' = mn_hdr lst /\ mn_child lst' = mn_child lst /\
  keys_size lst' = keys_size lst /\
  length (keys lst') = length (keys lst) /\
  take i (keys lst') = take i (keys lst) /\
  length (key_tokens n ks) = n /\
  forall j, (i <= j < i + n)%nat ->
    exists k, keys lst' !! j = Some (Some k) /\ key_leaf lst k /\
      ~ In (Some k) (take j (keys lst')) /\
      exists tok, key_tokens n ks !! (j - i)%nat = Some tok /\
                  first_named (mn_child lst) tok k.
Proof.
  induction n as [|n IH]; intros i lst ks lst' H Hnull.
  - simpl in H. injection H as <-. repeat split; auto. intros; lia.
  - destruct ks as [key_str|]; [|discriminate H].
    rewrite read_yin_list_keys_round in H.
    inv_bind H. rename a into found.
    set (lst1 := match found with
                 | Some k => with_keys lst (<[i := Some k]> (keys lst))
                 | None => lst
                 end) in *.
    assert (Hi : keys lst !! i = Some None) by (apply Hnull; lia).
    assert (Hlen : (i < length (keys lst))%nat) by (eapply lookup_lt_Some; eauto).
    cbv zeta in H. inv_bind H. rename a into slot_i.
    destruct found as [k|]; subst lst1; simpl in *;
      [|rewrite Hi in E0; simpl in E0; injection E0 as <-; discriminate H].
    rewrite list_lookup_insert_eq in E0 by assumption. simpl in E0. injection E0 as <-.
    inv_bind H. rename a into key.
    destruct (mn_child lst !! k) as [key'|] eqn:Ekey; simpl in E0; [|discriminate].
    injection E0 as ->.
    rewrite take_insert_ge in H by lia.
    destruct (existsb _ (take i (keys lst))) eqn:Edup; [discriminate|].
    destruct (bool_decide (nodetype key = LY_NODE_LEAF)) eqn:Eleaf; simpl in H; [|discriminate].
    destruct (bool_decide (ty_base (mn_type key) = LY_TYPE_EMPTY)) eqn:Eempty; [discriminate|].
    change (mn_flags (with_keys lst (<[i:=Some k]> (keys lst)))) with (mn_flags lst) in H.
    destruct (Z.land (mn_flags lst) LY_NODE_CONFIG_MASK =?
              Z.land (mn_flags key) LY_NODE_CONFIG_MASK) eqn:Ecfg; simpl in H; [|discriminate].
    apply IH in H.
    2:{ intros j Hj. simpl. rewrite list_lookup_insert_ne by lia. apply Hnull. lia. }
    simpl in H. destruct H as (Hh & Hc & Hs & Hl & Ht & Htok & Hall).
    rewrite length_insert in Hl.
    assert (Hti : take i (keys lst') = take i (keys lst)).
    { assert (Hmin : forall l : list (option nat), take i l = take i (take (S i) l)).
      { intros l. rewrite take_take. f_equal. lia. }
      rewrite (Hmin (keys lst')), Ht, <- Hmin. apply take_insert_ge. lia. }
    assert (Hki : keys lst' !! i = Some (Some k)).
    { rewrite <- (lookup_take_lt _ (S i)) by lia. rewrite Ht.
      rewrite lookup_take_lt by lia. apply list_lookup_insert_eq. assumption. }
    apply array_find_from_Some in E. destruct E as (_ & (c & Hck & Htest) & Hbefore).
    split; [exact Hh|]. split; [exact Hc|]. split; [exact Hs|]. split; [exact Hl|].
    split; [exact Hti|]. split; [simpl; congruence|].
    { intros j Hj. destruct (decide (j = i)) as [->|Hne].
      * exists k. split; [exact Hki|]. split.
        { exists key. split; [exact Ekey|].
          apply bool_decide_eq_true in Eleaf. apply bool_decide_eq_false in Eempty.
          apply Z.eqb_eq in Ecfg. unfold config_of. auto. }
        split.
        { rewrite Hti. intros Hin.
          assert (existsb (fun kj => bool_decide (kj = Some k)) (take i (keys lst)) = true).
          { apply existsb_exists. exists (Some k). split; [exact Hin|].
            apply bool_decide_eq_true. reflexivity. }
          congruence. }
        exists (key_token key_str). rewrite Nat.sub_diag. split; [reflexivity|].
        split.
        { exists c. split; [exact Hck|]. apply key_test_true. exact Htest. }
        { intros j c' Hj' Hc'. apply key_test_false. apply (Hbefore j); [lia | exact Hc']. }
      * destruct (Hall j ltac:(lia)) as (k' & Hk' & Hleaf & Hnot & tok & Htk & Hfirst).
        exists k'. split; [exact Hk'|]. split; [exact Hleaf|]. split; [exact Hnot|].
        exists tok. split; [|exact Hfirst].
        replace (j - i)%nat with (S (j - S i)) by lia. exact Htk. }
Qed.

Lemma same_keys_refl (a : ly_mnode) : same_keys a a.
Proof. repeat split. Qed.

Lemma same_keys_trans (a b c : ly_mnode) :
  same_keys a b -> same_keys b c -> same_keys a c.
Proof. unfold same_keys. intuition congruence. Qed.

(** The last run only attaches children. *)
Lemma read_data_nodes_same_keys
  (container leaflist leaf list_ choice grouping : list ly_mnode -> lyxml_elem -> result ly_mnode)
  (uses : list ly_mnode -> lyxml_elem -> bool -> result ly_mnode)
  (resolve : bool) (subs : list lyxml_elem) :
  forall retval r,
  read_data_nodes container leaflist leaf list_ choice grouping uses resolve
    subs retval = Ok r ->
  same_keys r retval.
Proof.
  induction subs as [|sub next IH]; simpl; intros retval r H.
  - injection H as <-. apply same_keys_refl.
  - repeat match type of H with
           | (if ?c then _ else _) = _ => destruct c
           end;
      try (inv_bind H); apply IH in H;
      (exact H || (eapply same_keys_trans; [exact H|]; repeat split)).
Qed.

(** Filling a typedef of a node only writes the typedef table. *)
Lemma place_set_parent (module : mod_ptr) (i : nat) (t : ly_tpdf) (mem : memory)
  (p : ly_mnode) (up : list ly_mnode) :
  exists p', place_set module (AtParent i) t (mem, p :: up) = (mem, p' :: up)
             /\ same_keys p' p.
Proof. eexists. split; [reflexivity|]. repeat split. Qed.

Lemma fill_yin_typedef_parent (module : mod_ptr) (yin : lyxml_elem) (i : nat)
  (mem : memory) (p : ly_mnode) (up : list ly_mnode) (e : place_env) :
  fill_yin_typedef module yin (AtParent i) (mem, p :: up) = Ok e ->
  exists p', e = (mem, p' :: up) /\ same_keys p' p.
Proof.
  unfold fill_yin_typedef. intros H.
  inv_bind H. inv_bind H. cbv zeta in H. inv_bind H. inv_bind H.
  destruct (ty_der (tp_type a2)); [|discriminate]. injection H as <-.
  refine (fold_left_Ok_inv _ (fun e => exists p', e = (mem, p' :: up) /\ same_keys p' p)
            _ _ _ _ _ _ _ E1).
  - reflexivity.
  - reflexivity.
  - intros e0 node e1 _ (p0 & -> & Hp0) Hstep.
    unfold fill_yin_typedef_step in Hstep. simpl in Hstep. inv_bind Hstep.
    assert (Hset : forall t', exists p', place_set module (AtParent i) t' (mem, p0 :: up)
                                        = (mem, p' :: up) /\ same_keys p' p).
    { intros t'. destruct (place_set_parent module i t' mem p0 up) as (p' & -> & Hp').
      eexists. split; [reflexivity|]. eapply same_keys_trans; eauto. }
    repeat match type of Hstep with
           | (if ?c then _ else _) = _ => destruct c
           | mbind _ _ = Ok _ => inv_bind Hstep
           | match ?c with _ => _ end = _ => destruct c; try discriminate
           end;
      try discriminate; try (injection Hstep as <-); try apply Hset; eauto.
  - destruct (place_set_parent module i
                (Tpdf (Some a) (tp_dsc a0) (tp_ref a0) (tp_flags a0) (tp_type a0)) mem p up)
      as (p' & Hp' & Hs).
    eauto.
Qed.

Lemma read_typedefs_same_keys (mem : memory) (module : mod_ptr)
  (retval : ly_mnode) (children : list lyxml_elem) (r : ly_mnode) :
  read_typedefs mem module retval children = Ok r -> same_keys r retval.
Proof.
  unfold read_typedefs. intros H. inv_bind H. injection H as <-.
  set (start := match length (filter _ children) with O => retval | S _ => _ end) in E.
  assert (Hstart : same_keys start retval).
  { subst start. destruct (length _); repeat split. }
  refine (fold_left_Ok_inv _ (fun rc => same_keys rc.1 retval) _ _ _ _ _ _ _ E).
  - reflexivity.
  - reflexivity.
  - intros [r0 c0] sub [r1 c1] _ Hr0 Hstep. simpl in *.
    destruct (named sub "typedef").
    + inv_bind Hstep. inv_bind Hstep. injection Hstep as <- <-.
      apply fill_yin_typedef_parent in E0. destruct E0 as (p' & -> & Hp').
      simpl in E1. injection E1 as <-. eapply same_keys_trans; eauto.
    + injection Hstep as <- <-. exact Hr0.
  - exact Hstart.
Qed.

Lemma count_keys_positive (fuel : nat) :
  forall s k n, count_keys fuel s k = Some n -> (k < n)%nat.
Proof.
  induction fuel as [|fuel IH]; intros s k n; simpl;
    destruct (strpbrk s key_delims); intros H; try discriminate.
  - injection H as <-. lia.
  - apply IH in H. lia.
  - injection H as <-. lia.
Qed.

(** read_yin_common returns the element with some of its children. *)
Lemma read_yin_common_kept (module : mod_ptr) (parent : list ly_mnode)
  (mnode hdr : ly_common) (xmlnode node' : lyxml_elem) (ext : bool) :
  read_yin_common module parent mnode xmlnode ext = Ok (hdr, node') ->
  forall x, In x (x_child node') -> In x (x_child xmlnode).
Proof.
  unfold read_yin_common. intros H. inv_bind H.
  destruct (String.eqb a ""); [discriminate|].
  inv_bind H. destruct a0 as [h kept].
  assert (Hkept : forall x, In x kept -> In x (x_child xmlnode)).
  { refine (fold_left_Ok_inv _ (fun hk => forall x, In x hk.2 -> In x (x_child xmlnode))
              _ _ _ _ _ _ _ E0).
    - reflexivity.
    - reflexivity.
    - intros [h0 k0] sub [h1 k1] Hsub Hk0 Hstep. unfold common_step in Hstep.
      simpl in *.
      repeat match type of Hstep with
             | (if ?c then _ else _) = _ => destruct c
             | mbind _ _ = Ok _ => inv_bind Hstep
             end;
        injection Hstep as <- <-; auto.
      intros x Hx. apply in_app_or in Hx. destruct Hx as [Hx|[<-|[]]]; auto.
    - simpl. intros x []. }
  destruct (ext && _)%bool; [destruct parent|]; injection H as <- <-; exact Hkept.
Qed.

(** The first run over the children of a list, as far as the key is
    concerned. *)
Lemma read_yin_list_key_spec (children : list lyxml_elem) (lst0 lst : ly_mnode)
  (key_str : option string) :
  keys_size lst0 = O ->
  fold_left read_yin_list_key children (Ok (lst0, None)) = Ok (lst, key_str) ->
  mn_hdr lst = mn_hdr lst0 /\
  ((key_str = None /\ keys_size lst = O) \/
   (exists key s, In key children /\ named key "key" = true /\
      lyxml_get_attr key "value" = Some s /\ key_str = Some s /\
      (0 < keys_size lst)%nat /\ keys lst = replicate (keys_size lst) None /\
      count_keys (String.length s) s 0 = Some (keys_size lst))).
Proof.
  intros H0 H.
  refine (fold_left_Ok_inv _
            (fun lk => mn_hdr lk.1 = mn_hdr lst0 /\
               ((lk.2 = None /\ keys_size lk.1 = O) \/
                (exists key s, In key children /\ named key "key" = true /\
                   lyxml_get_attr key "value" = Some s /\ lk.2 = Some s /\
                   (0 < keys_size lk.1)%nat /\
                   keys lk.1 = replicate (keys_size lk.1) None /\
                   count_keys (String.length s) s 0 = Some (keys_size lk.1))))
            _ _ _ _ _ _ _ H).
  - reflexivity.
  - reflexivity.
  - intros [l0 k0] sub [l1 k1] Hsub (Hh & Hk) Hstep. simpl in *.
    destruct (is_data_stmt sub); [injection Hstep as <- <-; auto|].
    destruct (named sub "key") eqn:Enamed; [|injection Hstep as <- <-; auto].
    destruct (keys_size l0) eqn:Esize; [|discriminate].
    destruct (lyxml_get_attr sub "value") as [s|] eqn:Eattr; [|discriminate].
    inv_bind Hstep. injection Hstep as <- <-. simpl.
    destruct (count_keys (String.length s) s 0) as [n|] eqn:Ecount; simpl in E; [|discriminate].
    injection E as <-. pose proof (count_keys_positive _ _ _ _ Ecount) as Hpos.
    split; [exact Hh|]. right. exists sub, s. auto 10.
  - simpl. auto.
Qed.

(** read_yin_list, run by run. *)
Lemma read_yin_list_eq (mem : memory) (module : mod_ptr) (parent : list ly_mnode)
  (node : lyxml_elem) :
  read_yin_list mem module parent node =
  ('(hdr, node') ← read_yin_common module parent (mn_hdr (mnode0 LY_NODE_LIST)) node true;
   '(lst, key_str) ← fold_left read_yin_list_key (x_child node')
                       (Ok (with_hdr (mnode0 LY_NODE_LIST) hdr, None));
   if (negb (Z.land (mn_flags lst) LY_NODE_CONFIG_W =? 0)
       && bool_decide (key_str = None))%bool
   then Err (Val VE_MISSSTMT2) else
   retval ← read_typedefs mem module lst (x_child node');
   lst ← read_data_nodes
           (read_yin_container mem module) (read_yin_leaflist mem module)
           (read_yin_leaf mem module) (read_yin_list mem module)
           (read_yin_choice mem module) (read_yin_grouping mem module)
           (read_yin_uses mem module) true (x_child node) retval;
   match key_str with
   | None => Ok lst
   | Some _ => read_yin_list_keys (keys_size lst) 0 lst key_str
   end).
Proof. destruct node; reflexivity. Qed.

Lemma NoDup_by_prefix {A} (l : list A) :
  (forall j x, l !! j = Some x -> ~ In x (take j l)) -> NoDup l.
Proof.
  intros H. apply NoDup_alt. intros i j x Hi Hj.
  destruct (Nat.lt_trichotomy i j) as [Hlt|[Heq|Hgt]]; [|exact Heq|].
  - exfalso. apply (H j x Hj). apply list_elem_of_In, elem_of_take. eauto.
  - exfalso. apply (H i x Hi). apply list_elem_of_In, elem_of_take. eauto.
Qed.

(** The violations, one by one: no child of the name, the same child
    twice, a container, a leaf of type empty, a leaf that is state in a
    list that is configuration, and no key statement at all. *)

Example key_missing :
  list_l (arg "value" "k") [leaf_stmt "v" "string" []] = Err (Val VE_KEY_MISS).
Proof. reflexivity. Qed.

Example key_twice :
  list_l (arg "value" "k k") [leaf_stmt "k" "string" []] = Err (Val VE_KEY_DUP).
Proof. reflexivity. Qed.

Example key_not_a_leaf :
  list_l (arg "value" "k") [stmt "container" (arg "name" "k") []] = Err (Val VE_KEY_NLEAF).
Proof. reflexivity. Qed.

Example key_of_type_empty :
  list_l (arg "value" "k") [leaf_stmt "k" "empty" []] = Err (Val VE_KEY_TYPE).
Proof. reflexivity. Qed.

Example key_of_other_config :
  list_l (arg "value" "k")
    [leaf_stmt "k" "string" [stmt "config" (arg "value" "false") []]]
  = Err (Val VE_KEY_CONFIG).
Proof. reflexivity. Qed.

Example key_statement_missing :
  read_yin_list [module0] 0 [] (stmt "list" (arg "name" "l") [leaf_stmt "k" "string" []])
  = Err (Val VE_MISSSTMT2).
Proof. reflexivity. Qed.

(** ** The store *)

Lemma at_update (mem : memory) (m m' : mod_ptr) (f : ly_module -> ly_module) :
  at_ (update mem m f) m' =
  if decide (m' = m /\ (m < length mem)%nat) then f (at_ mem m) else at_ mem m'.
Proof.
  unfold update, at_. destruct (decide (m' = m /\ (m < length mem)%nat)) as [[-> Hlt]|Hn].
  - rewrite list_lookup_insert_eq by assumption. reflexivity.
  - destruct (decide (m' = m)) as [->|Hne].
    + rewrite list_insert_ge by lia. reflexivity.
    + rewrite list_lookup_insert_ne by congruence. reflexivity.
Qed.

(** A member that [f] leaves alone is left alone in the store. *)
Lemma at_update_member {B} (member : ly_module -> B) (mem : memory) (m m' : mod_ptr)
  (f : ly_module -> ly_module) :
  (forall x, member (f x) = member x) ->
  member (at_ (update mem m f) m') = member (at_ mem m').
Proof.
  intros Hf. rewrite at_update. destruct (decide _) as [[-> _]|_]; auto.
Qed.

Lemma at_update_other (mem : memory) (m m' : mod_ptr) (f : ly_module -> ly_module) :
  m' <> m -> at_ (update mem m f) m' = at_ mem m'.
Proof.
  intros Hne. rewrite at_update. destruct (decide _) as [[? _]|_]; congruence.
Qed.

Lemma length_update (mem : memory) (m : mod_ptr) (f : ly_module -> ly_module) :
  length (update mem m f) = length mem.
Proof. apply length_insert. Qed.

Lemma update_ident_without (mem : memory) (p : ident_ptr) (f : ly_ident -> ly_ident)
  (m : mod_ptr) :
  without_ident (at_ (update_ident mem p f) m) = without_ident (at_ mem m).
Proof. unfold update_ident. apply at_update_member. reflexivity. Qed.

Lemma ident_at_update_ident (mem : memory) (p q : ident_ptr) (f : ly_ident -> ly_ident) :
  ident_at (update_ident mem p f) q =
  if decide (q = p /\ (p.1 < length mem)%nat /\ (p.2 < length (ident (at_ mem p.1)))%nat)
  then f (ident_at mem p) else ident_at mem q.
Proof.
  unfold ident_at at 1. unfold update_ident. rewrite at_update.
  destruct p as [pm pi], q as [qm qi]. simpl.
  destruct (decide (qm = pm /\ (pm < length mem)%nat)) as [[-> Hlt]|Hn]; simpl.
  - destruct (decide (qi = pi)) as [->|Hne].
    + destruct (decide ((pi < length (ident (at_ mem pm)))%nat)) as [Hi|Hi].
      * rewrite list_lookup_insert_eq by assumption.
        rewrite decide_True by auto. reflexivity.
      * rewrite list_insert_ge by lia. rewrite decide_False by (intros (_ & _ & ?); lia).
        reflexivity.
    + rewrite list_lookup_insert_ne by congruence.
      rewrite decide_False by (intros ([= ?] & _); congruence). reflexivity.
  - rewrite decide_False; [reflexivity|]. intros ([= -> ->] & Hlt & _). auto.
Qed.

Lemma base_of_update_ident_other (mem : memory) (p q : ident_ptr) (f : ly_ident -> ly_ident) :
  q <> p -> base_of (update_ident mem p f) q = base_of mem q.
Proof.
  intros Hne. unfold base_of. rewrite ident_at_update_ident.
  rewrite decide_False by (intros (? & _); congruence). reflexivity.
Qed.

Lemma base_of_update_ident_same (mem : memory) (p : ident_ptr) (f : ly_ident -> ly_ident) :
  base_of (update_ident mem p f) p = base_of mem p \/
  base_of (update_ident mem p f) p = id_base (f (ident_at mem p)).
Proof.
  unfold base_of. rewrite ident_at_update_ident. destruct (decide _); auto.
Qed.

Lemma base_of_update_ident_kept (mem : memory) (p q : ident_ptr) (f : ly_ident -> ly_ident) :
  (forall x, id_base (f x) = id_base x) ->
  base_of (update_ident mem p f) q = base_of mem q.
Proof.
  intros Hf. unfold base_of. rewrite ident_at_update_ident.
  destruct (decide _) as [(-> & _)|_]; auto.
Qed.

(** *** The relation [bound_to] *)

Lemma bound_to_refl (id : ident_ptr) (mem : memory) : bound_to id mem mem.
Proof. repeat split; auto. Qed.

Lemma bound_to_trans (id : ident_ptr) (mem1 mem2 mem3 : memory) :
  bound_to id mem1 mem2 -> bound_to id mem2 mem3 -> bound_to id mem1 mem3.
Proof.
  intros (F1 & O1 & S1) (F2 & O2 & S2). split; [|split].
  - intros m. rewrite F2. apply F1.
  - intros p Hp. rewrite O2 by assumption. auto.
  - destruct S2 as [S2|(m' & i' & Hi & S2)].
    + rewrite S2. exact S1.
    + right. exists m', i'. split; [|exact S2].
      replace (ident_size (at_ mem1 m')) with (ident_size (without_ident (at_ mem1 m')))
        by reflexivity.
      rewrite <- F1. exact Hi.
Qed.

(** Writing members of an identity other than its base. *)
Lemma bound_to_update_kept (id p : ident_ptr) (mem : memory) (f : ly_ident -> ly_ident) :
  (forall x, id_base (f x) = id_base x) ->
  bound_to id mem (update_ident mem p f).
Proof.
  intros Hf. split; [|split].
  - intros m. apply update_ident_without.
  - intros q _. apply base_of_update_ident_kept. exact Hf.
  - left. apply base_of_update_ident_kept. exact Hf.
Qed.

(** ident->base = &module->ident[i] *)
Lemma bound_to_update_base (id : ident_ptr) (mem : memory) (m' : mod_ptr) (i' : nat) :
  (i' < ident_size (at_ mem m'))%nat ->
  bound_to id mem
    (update_ident mem id (fun x => Ident (id_hdr x) (Some (m', i')) (id_der x))).
Proof.
  intros Hi. split; [|split].
  - intros m. apply update_ident_without.
  - intros q Hq. apply base_of_update_ident_other. exact Hq.
  - destruct (base_of_update_ident_same mem id
                (fun x => Ident (id_hdr x) (Some (m', i')) (id_der x))) as [H|H].
    + left. exact H.
    + right. exists m', i'. split; [exact Hi | exact H].
Qed.

(** *** Functions that write to the store, step by step *)

Lemma bindS_Ok {S A B} (c : S -> result A * S) (k : A -> S -> result B * S)
  (mem mem' : S) (b : B) :
  bindS c k mem = (Ok b, mem') ->
  exists a mem1, c mem = (Ok a, mem1) /\ k a mem1 = (Ok b, mem').
Proof.
  unfold bindS. destruct (c mem) as [[a|d|] mem1]; intros H; try discriminate; eauto.
Qed.

Lemma reads_Ok {S A} (f : S -> result A) (mem mem' : S) (a : A) :
  reads f mem = (Ok a, mem') -> f mem = Ok a /\ mem' = mem.
Proof. unfold reads. intros [= -> ->]. auto. Qed.

Lemma writes_Ok {S} (f : S -> S) (mem mem' : S) (u : unit) :
  writes f mem = (Ok u, mem') -> mem' = f mem.
Proof. unfold writes. intros H. inversion H. reflexivity. Qed.

Lemma retS_Ok {S A} (a b : A) (mem mem' : S) :
  retS a mem = (Ok b, mem') -> b = a /\ mem' = mem.
Proof. unfold retS. intros [= -> ->]. auto. Qed.

Lemma pure_Ok {S A} (r : result A) (mem mem' : S) (a : A) :
  pure r mem = (Ok a, mem') -> r = Ok a /\ mem' = mem.
Proof. unfold pure. intros [= -> ->]. auto. Qed.

(** A function on the store that is run with the context at hand leaves
    the context alone. *)
Lemma in_ctx_eq {A} (c : state A) (ctx : ly_ctx) (mem : memory) :
  in_ctx c (ctx, mem) = ((c mem).1, (ctx, (c mem).2)).
Proof. reflexivity. Qed.

Lemma in_ctx_Ok {A} (c : state A) (w w' : world) (a : A) :
  in_ctx c w = (Ok a, w') -> c w.2 = (Ok a, w'.2) /\ w'.1 = w.1.
Proof.
  unfold in_ctx. destruct (c w.2) as [r mem1]. simpl. intros [= -> <-]. auto.
Qed.

Ltac inv_state H :=
  cbv beta in H;
  lazymatch type of H with
  | bindS _ _ _ = (Ok _, _) =>
      let a := fresh "a" in
      let mem1 := fresh "mem" in
      let E := fresh "E" in
      apply bindS_Ok in H; destruct H as (a & mem1 & E & H); inv_state E; inv_state H
  | reads _ _ = (Ok _, _) =>
      let E := fresh "E" in
      apply reads_Ok in H; destruct H as (E & ?); subst
  | writes _ _ = (Ok _, _) => apply writes_Ok in H; subst
  | retS _ _ = (Ok _, _) => apply retS_Ok in H; destruct H as (? & ?); subst
  | pure _ _ = (Ok _, _) => apply pure_Ok in H; destruct H as (H & ?); subst
  | failS _ _ = (Ok _, _) => discriminate H
  | in_ctx _ _ = (Ok _, _) =>
      let E := fresh "E" in
      apply in_ctx_Ok in H; destruct H as (H & E); simpl in H, E; try subst;
      inv_state H
  | _ => idtac
  end.

(** ** The frame of the store *)

Lemma frame_refl (mem : memory) : frame mem mem.
Proof. split; [lia|reflexivity]. Qed.

Lemma frame_trans (mem1 mem2 mem3 : memory) :
  frame mem1 mem2 -> frame mem2 mem3 -> frame mem1 mem3.
Proof.
  intros [L1 H1] [L2 H2]. split; [lia|]. intros m Hm.
  rewrite H2 by lia. apply H1. exact Hm.
Qed.

Lemma frame_update (mem : memory) (m : mod_ptr) (f : ly_module -> ly_module) :
  (forall x, head_of (f x) = head_of x) -> frame mem (update mem m f).
Proof.
  intros Hf. split; [rewrite length_update; lia|]. intros m' _.
  apply (at_update_member head_of). exact Hf.
Qed.

Lemma frame_data_refl (mem : memory) : frame_data mem mem.
Proof. split; [apply frame_refl|reflexivity]. Qed.

Lemma frame_data_trans (mem1 mem2 mem3 : memory) :
  frame_data mem1 mem2 -> frame_data mem2 mem3 -> frame_data mem1 mem3.
Proof.
  intros [F1 H1] [F2 H2]. split; [eapply frame_trans; eauto|].
  intros m Hm. rewrite H2 by (destruct F1; lia). apply H1. exact Hm.
Qed.

Lemma frame_data_update (mem : memory) (m : mod_ptr) (f : ly_module -> ly_module) :
  (forall x, head_of (f x) = head_of x) -> (forall x, data (f x) = data x) ->
  frame_data mem (update mem m f).
Proof.
  intros Hf Hd. split; [apply frame_update; exact Hf|]. intros m' _.
  apply (at_update_member data). exact Hd.
Qed.

Lemma frame_update_ident (mem : memory) (p : ident_ptr) (g : ly_ident -> ly_ident) :
  frame mem (update_ident mem p g).
Proof. apply frame_update. reflexivity. Qed.

Lemma frame_data_update_ident (mem : memory) (p : ident_ptr) (g : ly_ident -> ly_ident) :
  frame_data mem (update_ident mem p g).
Proof. apply frame_data_update; reflexivity. Qed.

(** *** What a load leaves alone *)

Lemma der_only_refl (mem : memory) : der_only mem mem.
Proof. split; [lia|reflexivity]. Qed.

Lemma der_only_trans (mem1 mem2 mem3 : memory) :
  der_only mem1 mem2 -> der_only mem2 mem3 -> der_only mem1 mem3.
Proof.
  intros [L1 H1] [L2 H2]. split; [lia|]. intros m Hm.
  rewrite H2 by lia. apply H1. exact Hm.
Qed.

(** A member of a module other than the derived lists of its identities
    is as it was. *)
Lemma der_only_member {B} (member : ly_module -> B) (mem mem' : memory) (m : mod_ptr) :
  (forall x, member (without_der x) = member x) ->
  der_only mem mem' -> (m < length mem)%nat ->
  member (at_ mem' m) = member (at_ mem m).
Proof.
  intros Hm [_ H] Hlt.
  rewrite <- (Hm (at_ mem' m)), <- (Hm (at_ mem m)), H by exact Hlt. reflexivity.
Qed.

Lemma der_only_base (mem mem' : memory) (p : ident_ptr) :
  der_only mem mem' -> (p.1 < length mem)%nat -> base_of mem' p = base_of mem p.
Proof.
  intros [_ H] Hlt. specialize (H p.1 Hlt).
  assert (Hstrip : forall x : ly_module,
            id_base (default ident0 (ident x !! p.2)) =
            id_base (default ident0 (ident (without_der x) !! p.2))).
  { intros x. unfold without_der. simpl. rewrite list_lookup_fmap.
    destruct (ident x !! p.2); reflexivity. }
  unfold base_of, ident_at. rewrite (Hstrip (at_ mem' p.1)), (Hstrip (at_ mem p.1)), H.
  reflexivity.
Qed.

Lemma der_only_frame_data (mem mem' : memory) : der_only mem mem' -> frame_data mem mem'.
Proof.
  intros H. split; [split; [apply H|]|]; intros m Hm.
  - apply (der_only_member head_of); auto.
  - apply (der_only_member data); auto.
Qed.

(** *** Relations that the steps keep *)

Section Keeps.

Context {S : Type}.
Variable R : S -> S -> Prop.
Hypothesis R_refl : forall mem, R mem mem.
Hypothesis R_trans : forall mem1 mem2 mem3, R mem1 mem2 -> R mem2 mem3 -> R mem1 mem3.

Lemma keeps_bindS {A B} (c : S -> result A * S) (k : A -> S -> result B * S) :
  keeps R c -> (forall a, keeps R (k a)) -> keeps R (bindS c k).
Proof.
  intros Hc Hk mem. unfold bindS. specialize (Hc mem).
  destruct (c mem) as [[a|d|] mem1]; simpl in *; try exact Hc.
  eapply R_trans; [exact Hc|apply Hk].
Qed.

Lemma keeps_reads {A} (f : S -> result A) : keeps R (reads f).
Proof. intros mem. apply R_refl. Qed.

Lemma keeps_retS {A} (a : A) : keeps R (retS (S := S) a).
Proof. intros mem. apply R_refl. Qed.

Lemma keeps_failS {A} (d : diag) : keeps R (failS (S := S) (A := A) d).
Proof. intros mem. apply R_refl. Qed.

Lemma keeps_pure {A} (r : result A) : keeps R (pure (S := S) r).
Proof. intros mem. apply R_refl. Qed.

Lemma keeps_writes (f : S -> S) :
  (forall mem, R mem (f mem)) -> keeps R (writes f).
Proof. intros Hf mem. apply Hf. Qed.

End Keeps.

(** A function on the store keeps, run with the context at hand, what
    it keeps of the store. *)
Lemma keeps_in_ctx (R : memory -> memory -> Prop) {A} (c : state A) :
  keeps R c -> keeps (on_store R) (in_ctx c).
Proof. intros Hc w. apply Hc. Qed.

(** The runs of read_sub_module keep every relation of the store that
    holds across the writes they make when they read the module at
    [module]. *)
Section KeepsStore.

Variable R : memory -> memory -> Prop.
Hypothesis R_refl : forall mem, R mem mem.
Hypothesis R_trans : forall mem1 mem2 mem3, R mem1 mem2 -> R mem2 mem3 -> R mem1 mem3.

Variable module : mod_ptr.

(** The writes of the middle run: to members of the module that is read
    other than its header and its top-level nodes, *)
Hypothesis R_own : forall mem f,
  (forall x, head_of (f x) = head_of x) -> (forall x, data (f x) = data x) ->
  R mem (update mem module f).

(** and to the derived lists of identities, of whatever module. *)
Hypothesis R_der : forall mem p g,
  (forall i, id_hdr (g i) = id_hdr i) -> (forall i, id_base (g i) = id_base i) ->
  R mem (update_ident mem p g).

Lemma R_own_ident (mem : memory) (id : ident_ptr) (f : ly_ident -> ly_ident) :
  id.1 = module -> R mem (update_ident mem id f).
Proof. intros <-. apply R_own; reflexivity. Qed.

Ltac keeps_leaf :=
  first [ apply (keeps_reads R R_refl) | apply (keeps_retS R R_refl)
        | apply (keeps_failS R R_refl) | apply (keeps_pure R R_refl)
        | apply keeps_writes; intros;
          first [apply R_own_ident; auto; fail | apply R_own; reflexivity] ].

Ltac keeps_bind := apply (keeps_bindS R R_trans).

Lemma link_derived_keeps (fuel : nat) :
  forall ident_p base_iter mem,
  R mem (link_derived fuel ident_p base_iter mem).2.
Proof.
  induction fuel as [|fuel IH]; intros ident_p [b|] mem; simpl; try apply R_refl.
  eapply R_trans; [|apply IH].
  destruct (id_der (ident_at mem b));
    [destruct (id_base (ident_at mem ident_p))|];
    first [apply R_der; reflexivity | apply R_refl].
Qed.

Lemma find_base_ident_sub_keeps (m' : mod_ptr) (ident_p : option ident_ptr)
  (basename : string) :
  (forall id, ident_p = Some id -> id.1 = module) -> keeps R (find_base_ident_sub m' ident_p basename).
Proof.
  intros Hown. unfold find_base_ident_sub. keeps_bind; [keeps_leaf|].
  intros [i|]; [|keeps_leaf]. destruct ident_p as [id|]; [|keeps_leaf].
  specialize (Hown id eq_refl).
  keeps_bind; [keeps_leaf|]. intros _.
  keeps_bind; [intros mem; apply link_derived_keeps|]. intros _. keeps_leaf.
Qed.

Lemma find_base_ident_inc_keeps (m' : mod_ptr) (ident_p : option ident_ptr)
  (name : string) (n : nat) :
  (forall id, ident_p = Some id -> id.1 = module) -> forall i, keeps R (find_base_ident_inc m' ident_p name i n).
Proof.
  intros Hown. induction n as [|n IH]; intros i; simpl; [keeps_leaf|].
  keeps_bind; [keeps_leaf|]. intros sub.
  keeps_bind; [apply find_base_ident_sub_keeps; exact Hown|].
  intros [r|]; [keeps_leaf|apply IH].
Qed.

Lemma find_base_ident_keeps (m' : mod_ptr) (ident_p : option ident_ptr)
  (node : lyxml_elem) :
  (forall id, ident_p = Some id -> id.1 = module) -> keeps R (find_base_ident m' ident_p node).
Proof.
  intros Hown. unfold find_base_ident. destruct (lyxml_get_attr node "name"); [|keeps_leaf].
  keeps_bind; [keeps_leaf|]. intros [name prefix_len].
  keeps_bind.
  - destruct prefix_len.
    + keeps_bind; [keeps_leaf|]. intros n.
      keeps_bind; [apply find_base_ident_inc_keeps; exact Hown|].
      intros [r|]; keeps_leaf.
    + keeps_bind; [keeps_leaf|]. intros [i|]; [|keeps_leaf].
      keeps_bind; [keeps_leaf|]. intros m''. keeps_leaf.
  - intros [r|m]; [keeps_leaf|].
    keeps_bind; [apply find_base_ident_sub_keeps; exact Hown|].
    intros [r|]; keeps_leaf.
Qed.

Lemma fill_yin_identity_children_keeps (i : nat) (children : list lyxml_elem) :
  keeps R (fill_yin_identity_children module (module, i) children).
Proof.
  induction children as [|node next IH]; simpl; [keeps_leaf|].
  keeps_bind; [|intros _; exact IH].
  destruct (named node "base"); [|keeps_leaf].
  keeps_bind; [keeps_leaf|]. intros [b|]; [keeps_leaf|].
  keeps_bind; [apply find_base_ident_keeps; intros id [= <-]; reflexivity|].
  intros _. keeps_leaf.
Qed.

Lemma fill_yin_identity_keeps (yin : lyxml_elem) (i : nat) :
  keeps R (fill_yin_identity module yin (module, i)).
Proof.
  unfold fill_yin_identity. keeps_bind; [keeps_leaf|]. intros hdr.
  keeps_bind; [keeps_leaf|]. intros [hdr' yin'].
  keeps_bind; [keeps_leaf|]. intros _.
  apply fill_yin_identity_children_keeps.
Qed.

Lemma place_set_keeps (pl : tpdf_place) (t : ly_tpdf) (e : place_env) :
  R e.1 (place_set module pl t e).1.
Proof.
  destruct pl; simpl; [apply R_own; reflexivity|].
  destruct e.2; apply R_refl.
Qed.

Lemma fill_yin_typedef_keeps (yin : lyxml_elem) (pl : tpdf_place)
  (e e' : place_env) :
  fill_yin_typedef module yin pl e = Ok e' -> R e.1 e'.1.
Proof.
  unfold fill_yin_typedef. intros H.
  inv_bind H. inv_bind H. cbv zeta in H. inv_bind H. inv_bind H.
  destruct (ty_der (tp_type a2)); [|discriminate]. injection H as <-.
  refine (fold_left_Ok_inv _ (fun e1 => R e.1 e1.1) _ _ _ _ _ _ _ E1).
  - reflexivity.
  - reflexivity.
  - intros e0 node e1 _ He0 Hstep.
    unfold fill_yin_typedef_step in Hstep. simpl in Hstep. inv_bind Hstep.
    repeat match type of Hstep with
           | (if ?c then _ else _) = _ => destruct c
           | mbind _ _ = Ok _ => inv_bind Hstep
           | match ?c with _ => _ end = _ => destruct c; try discriminate
           end;
      try discriminate; try (injection Hstep as <-);
      first [exact He0 | eapply R_trans; [exact He0|apply place_set_keeps]].
  - apply place_set_keeps.
Qed.

(** The steps of the middle run that work on the store alone. *)
Lemma revision_step_keeps (node : lyxml_elem) :
  keeps R
    (r <~ reads (fun mem =>
            slot ← deref (rev (at_ mem module) !! rev_size (at_ mem module));
            read_revision node slot);
     writes (fun mem => update mem module (fun m =>
       with_rev_size (with_rev m (<[rev_size m := r]> (rev m))) (S (rev_size m))))).
Proof. keeps_bind; [keeps_leaf|]. intros r. keeps_leaf. Qed.

Lemma typedef_step_keeps (node : lyxml_elem) :
  keeps R
    (mem' <~ reads (fun mem =>
               e ← fill_yin_typedef module node (AtModule (tpdf_size (at_ mem module))) (mem, []);
               Ok e.1);
     writes (fun _ => update mem' module (fun m => with_tpdfs_size m (S (tpdf_size m))))).
Proof.
  intros mem. unfold bindS, reads, writes.
  destruct (fill_yin_typedef module node (AtModule (tpdf_size (at_ mem module)))
              (mem, [])) as [e| |] eqn:E; simpl; try apply R_refl.
  apply fill_yin_typedef_keeps in E.
  eapply R_trans; [exact E|]. apply R_own; reflexivity.
Qed.

Lemma identity_step_keeps (node : lyxml_elem) :
  keeps R
    (i <~ reads (fun mem => Ok (ident_size (at_ mem module)));
     fill_yin_identity module node (module, i) ;;
     writes (fun mem => update mem module (fun m => with_ident_size m (S (ident_size m))))).
Proof.
  keeps_bind; [keeps_leaf|]. intros i.
  keeps_bind; [apply fill_yin_identity_keeps|]. intros _. keeps_leaf.
Qed.

(** *** The steps that may load a module *)

(** The relation holds as well across what a load does to the store. *)
Hypothesis R_load : forall mem mem', der_only mem mem' -> R mem mem'.

Variable L : ly_loader.
Hypothesis L_der_only : loads_der_only L.

Lemma on_store_refl (w : world) : on_store R w w.
Proof. apply R_refl. Qed.

Lemma on_store_trans (w1 w2 w3 : world) :
  on_store R w1 w2 -> on_store R w2 w3 -> on_store R w1 w3.
Proof. apply R_trans. Qed.

Ltac loads_leaf :=
  first [ apply (keeps_reads (on_store R) on_store_refl)
        | apply (keeps_retS (on_store R) on_store_refl)
        | apply (keeps_failS (on_store R) on_store_refl)
        | apply (keeps_pure (on_store R) on_store_refl)
        | apply keeps_in_ctx; keeps_leaf ].

Ltac loads_bind := apply (keeps_bindS (on_store R) on_store_trans).

Lemma loaded_keeps (r : result mod_ptr * ly_ctx * memory) (mem : memory) :
  der_only mem r.2 -> R mem (loaded r).2.2.
Proof.
  intros H. unfold loaded. destruct r.1.1; simpl; apply R_load; exact H.
Qed.

Lemma ly_ctx_get_module_keeps (name revision : option string) :
  keeps (on_store R) (ly_ctx_get_module L name revision).
Proof.
  intros w. unfold ly_ctx_get_module, on_store.
  destruct name as [n|]; [|apply R_refl].
  destruct (ly_ctx_find_module _ _ _ _); [apply R_refl|].
  apply loaded_keeps. apply L_der_only.
Qed.

Lemma ly_ctx_get_submodule_keeps (m' : mod_ptr) (name revision : option string) :
  keeps (on_store R) (ly_ctx_get_submodule L m' name revision).
Proof.
  intros w. unfold ly_ctx_get_submodule, on_store.
  destruct name as [n|]; [|apply R_refl].
  destruct (ly_ctx_find_submodule _ _ _ _); [apply R_refl|].
  apply loaded_keeps. apply L_der_only.
Qed.

Lemma fill_yin_import_keeps (yin : lyxml_elem) (imp : ly_import) :
  keeps (on_store R) (fill_yin_import L yin imp).
Proof.
  unfold fill_yin_import. loads_bind; [loads_leaf|]. intros imp1.
  loads_bind; [apply ly_ctx_get_module_keeps|]. intros [m|]; loads_leaf.
Qed.

Lemma fill_yin_include_keeps (m' : mod_ptr) (yin : lyxml_elem) (inc : ly_include) :
  keeps (on_store R) (fill_yin_include L m' yin inc).
Proof.
  unfold fill_yin_include. loads_bind; [loads_leaf|]. intros inc1.
  loads_bind; [apply ly_ctx_get_submodule_keeps|]. intros [m|]; loads_leaf.
Qed.

Lemma middle_run_step_keeps (node : lyxml_elem) :
  keeps (on_store R) (middle_run_step L module node).
Proof.
  unfold middle_run_step.
  destruct (named node "import").
  { loads_bind; [loads_leaf|]. intros slot.
    loads_bind; [apply fill_yin_import_keeps|]. intros r. loads_leaf. }
  destruct (named node "include").
  { loads_bind; [loads_leaf|]. intros slot.
    loads_bind; [apply fill_yin_include_keeps|]. intros r. loads_leaf. }
  destruct (named node "revision");
    [apply keeps_in_ctx, revision_step_keeps|].
  destruct (named node "typedef");
    [apply keeps_in_ctx, typedef_step_keeps|].
  destruct (named node "identity");
    [apply keeps_in_ctx, identity_step_keeps|].
  loads_leaf.
Qed.

Lemma middle_run_keeps (children : list lyxml_elem) :
  keeps (on_store R) (middle_run L module children).
Proof.
  induction children as [|node next IH]; simpl; [loads_leaf|].
  loads_bind; [apply middle_run_step_keeps|]. intros _. exact IH.
Qed.

(** The allocation of the arrays and the middle run. *)
Lemma allocate_middle_run_keeps (st : first_run) :
  keeps (on_store R)
    (in_ctx (writes (fun mem => update mem module (allocate_arrays (fr_count st)))) ;;
     middle_run L module (fr_child st)).
Proof.
  loads_bind; [loads_leaf|]. intros _. apply middle_run_keeps.
Qed.

End KeepsStore.

Lemma last_run_step_frame (module : mod_ptr) (node : lyxml_elem) :
  keeps frame (last_run_step module node).
Proof.
  unfold last_run_step.
  repeat match goal with
         | |- keeps frame (if ?c then _ else _) => destruct c
         end;
    try (apply (keeps_bindS frame frame_trans);
         [apply (keeps_reads frame frame_refl)|]; intros mnode;
         apply keeps_writes; intros; apply frame_update; reflexivity);
    apply (keeps_retS frame frame_refl).
Qed.

Lemma last_run_frame (module : mod_ptr) (root : list lyxml_elem) :
  keeps frame (last_run module root).
Proof.
  induction root as [|node next IH]; simpl; [apply (keeps_retS frame frame_refl)|].
  apply (keeps_bindS frame frame_trans); [apply last_run_step_frame|].
  intros _. exact IH.
Qed.

Lemma frame_load (mem mem' : memory) : der_only mem mem' -> frame mem mem'.
Proof. intros H. apply der_only_frame_data. exact H. Qed.

(** The runs of read_sub_module after the first: the arrays are
    allocated and filled, the data nodes are read. *)
Lemma later_runs_frame (L : ly_loader) (module : mod_ptr) (st : first_run) :
  loads_der_only L ->
  keeps (on_store frame)
    (in_ctx (writes (fun mem => update mem module (allocate_arrays (fr_count st)))) ;;
     middle_run L module (fr_child st) ;;
     in_ctx (last_run module (fr_root st))).
Proof.
  intros HL.
  apply (keeps_bindS (on_store frame) (on_store_trans frame frame_trans)).
  { apply keeps_in_ctx, keeps_writes. intros. apply frame_update. reflexivity. }
  intros _.
  apply (keeps_bindS (on_store frame) (on_store_trans frame frame_trans));
    [|intros _; apply keeps_in_ctx, last_run_frame].
  apply (middle_run_keeps frame frame_refl frame_trans module);
    [| |exact frame_load|exact HL].
  - intros mem f Hf _. apply frame_update. exact Hf.
  - intros mem p g _ _. apply frame_update_ident.
Qed.

(** *** The resolution of a base *)

Lemma link_derived_bound (id : ident_ptr) (fuel : nat) :
  forall ident_p base_iter mem u mem',
  link_derived fuel ident_p base_iter mem = (Ok u, mem') -> bound_to id mem mem'.
Proof.
  induction fuel as [|fuel IH]; intros ident_p base_iter mem u mem' H;
    destruct base_iter as [b|]; simpl in H; try discriminate;
    try (injection H as <- <-; apply bound_to_refl).
  apply IH in H. eapply bound_to_trans; [|exact H].
  destruct (id_der (ident_at mem b)).
  - destruct (id_base (ident_at mem ident_p)).
    + apply bound_to_update_kept. reflexivity.
    + apply bound_to_refl.
  - apply bound_to_update_kept. reflexivity.
Qed.

Lemma find_base_ident_sub_spec (module : mod_ptr) (ident_p : option ident_ptr)
  (basename : string) (mem mem' : memory) (r : option ident_ptr) :
  find_base_ident_sub module ident_p basename mem = (Ok r, mem') ->
  match ident_p with
  | None => mem' = mem
  | Some id => bound_to id mem mem'
  end.
Proof.
  unfold find_base_ident_sub. intros H. inv_state H.
  match goal with
  | E : array_find _ _ _ = Ok ?a |- _ =>
      destruct a as [i|];
        [apply array_find_from_Some in E; destruct E as (Hi & _)|]
  end.
  - destruct ident_p as [id|]; inv_state H; [|reflexivity].
    match goal with
    | E : link_derived _ _ _ _ = _ |- _ => apply (link_derived_bound id) in E
    end.
    eapply bound_to_trans; [|eassumption]. apply bound_to_update_base. lia.
  - inv_state H. destruct ident_p; [apply bound_to_refl | reflexivity].
Qed.

Lemma find_base_ident_inc_spec (module : mod_ptr) (ident_p : option ident_ptr)
  (name : string) (n : nat) :
  forall i mem mem' r,
  find_base_ident_inc module ident_p name i n mem = (Ok r, mem') ->
  match ident_p with
  | None => mem' = mem
  | Some id => bound_to id mem mem'
  end.
Proof.
  induction n as [|n IH]; intros i mem mem' r H; simpl in H.
  - inv_state H. destruct ident_p; [apply bound_to_refl | reflexivity].
  - inv_state H.
    match goal with
    | E : find_base_ident_sub _ _ _ _ = _ |- _ =>
        apply find_base_ident_sub_spec in E; rename E into Hsub
    end.
    match type of H with
    | match ?res with _ => _ end _ = _ => destruct res
    end.
    + inv_state H. exact Hsub.
    + apply IH in H. destruct ident_p; [eapply bound_to_trans; eauto | congruence].
Qed.

Lemma find_base_ident_spec (module : mod_ptr) (ident_p : option ident_ptr)
  (node : lyxml_elem) (mem mem' : memory) (r : ident_ptr) :
  find_base_ident module ident_p node mem = (Ok r, mem') ->
  match ident_p with
  | None => mem' = mem
  | Some id => bound_to id mem mem'
  end.
Proof.
  unfold find_base_ident. intros H.
  destruct (lyxml_get_attr node "name") as [basename|]; [|discriminate].
  apply bindS_Ok in H. destruct H as ([name prefix_len] & mem1 & E & H).
  inv_state E. cbv beta iota in H.
  apply bindS_Ok in H. destruct H as (target & mem2 & Et & H).
  assert (Htarget : match ident_p with
                    | None => mem2 = mem
                    | Some id => bound_to id mem mem2
                    end).
  { destruct prefix_len.
    - inv_state Et.
      match goal with
      | E : find_base_ident_inc _ _ _ _ _ _ = _ |- _ =>
          apply find_base_ident_inc_spec in E; rename E into Hinc
      end.
      match type of Et with
      | match ?res with _ => _ end _ = _ => destruct res
      end; inv_state Et; exact Hinc.
    - inv_state Et.
      match type of Et with
      | match ?res with _ => _ end _ = _ => destruct res
      end; [|discriminate].
      inv_state Et. destruct ident_p; [apply bound_to_refl | reflexivity]. }
  destruct target as [r0|m'].
  - inv_state H. exact Htarget.
  - inv_state H.
    match goal with
    | E : find_base_ident_sub _ _ _ _ = _ |- _ =>
        apply find_base_ident_sub_spec in E; rename E into Hsub
    end.
    match type of H with
    | match ?res with _ => _ end _ = _ => destruct res
    end; [|discriminate].
    inv_state H.
    destruct ident_p; [eapply bound_to_trans; eauto | congruence].
Qed.

(** The search for the base of an identityref only reads the store. *)
Lemma find_base_ident_reads_only (module : mod_ptr) (node : lyxml_elem)
  (mem mem' : memory) (r : ident_ptr) :
  find_base_ident module None node mem = (Ok r, mem') -> mem' = mem.
Proof. apply find_base_ident_spec. Qed.

Lemma fill_yin_identity_children_spec (module : mod_ptr) (ident_p : ident_ptr)
  (children : list lyxml_elem) :
  forall mem mem' u,
  fill_yin_identity_children module ident_p children mem = (Ok u, mem') ->
  bound_to ident_p mem mem'.
Proof.
  induction children as [|node next IH]; intros mem mem' u H; simpl in H.
  - inv_state H. apply bound_to_refl.
  - apply bindS_Ok in H. destruct H as (u1 & mem1 & E & H).
    apply IH in H. eapply bound_to_trans; [|exact H].
    destruct (named node "base"); [|discriminate].
    inv_state E.
    match type of E with
    | match ?res with _ => _ end _ = _ => destruct res
    end; [discriminate|].
    inv_state E.
    match goal with
    | E : find_base_ident _ _ _ _ = _ |- _ => apply find_base_ident_spec in E; exact E
    end.
Qed.

Lemma fill_yin_identity_spec (module : mod_ptr) (yin : lyxml_elem) (ident_p : ident_ptr)
  (mem mem' : memory) (u : unit) :
  fill_yin_identity module yin ident_p mem = (Ok u, mem') -> bound_to ident_p mem mem'.
Proof.
  unfold fill_yin_identity. intros H.
  apply bindS_Ok in H. destruct H as (hdr0 & mem1 & E & H). inv_state E.
  apply bindS_Ok in H. destruct H as ([hdr yin'] & mem1 & E & H). inv_state E.
  inv_state H.
  apply fill_yin_identity_children_spec in H.
  eapply bound_to_trans; [|exact H]. apply bound_to_update_kept. reflexivity.
Qed.

(** *** The invariant of the runs *)

Lemma base_of_same_ident (mem mem' : memory) (p : ident_ptr) :
  ident (at_ mem' p.1) = ident (at_ mem p.1) -> base_of mem' p = base_of mem p.
Proof. unfold base_of, ident_at. intros ->. reflexivity. Qed.

(** A step that leaves the identities alone. *)
Lemma reading_step (module : mod_ptr) (name : option string) (mem0 mem mem' : memory) :
  reading module name mem0 mem ->
  (length mem <= length mem')%nat ->
  (forall m, ident (at_ mem' m) = ident (at_ mem m)) ->
  ident_size (at_ mem' module) = ident_size (at_ mem module) ->
  (forall m, m <> module -> card (at_ mem' m) = card (at_ mem m)) ->
  m_name (at_ mem' module) = m_name (at_ mem module) ->
  revision_at_0 (at_ mem' module) ->
  reading module name mem0 mem'.
Proof.
  intros [Hb Hu Ho Hn Hr Ha] Hlen Hid Hsz Hcard Hname Hrev.
  assert (Hbase : forall p, base_of mem' p = base_of mem p).
  { intros p. apply base_of_same_ident. apply Hid. }
  constructor.
  - intros k j. rewrite Hbase. apply Hb.
  - intros k Hk. rewrite Hbase. apply Hu. lia.
  - intros m Hlt Hm. rewrite Hcard by assumption. apply Ho; assumption.
  - congruence.
  - exact Hrev.
  - lia.
Qed.

(** A write to members of the module other than its identities, its name
    and its revisions. *)
Lemma reading_update (module : mod_ptr) (name : option string) (mem0 mem : memory)
  (f : ly_module -> ly_module) :
  reading module name mem0 mem ->
  (forall x, ident (f x) = ident x) ->
  (forall x, ident_size (f x) = ident_size x) ->
  (forall x, card (f x) = card x) ->
  reading module name mem0 (update mem module f).
Proof.
  intros Hrd Hid Hsz Hcard. eapply reading_step; [exact Hrd|..].
  - rewrite length_update. lia.
  - intros m. apply at_update_member. exact Hid.
  - apply at_update_member. exact Hsz.
  - intros m Hm. rewrite at_update_other by assumption. reflexivity.
  - apply (at_update_member m_name). intros x. specialize (Hcard x).
    unfold card in Hcard. congruence.
  - destruct Hrd as [_ _ _ _ Hr _]. unfold revision_at_0 in *.
    rewrite (at_update_member rev_size), (at_update_member rev); [exact Hr|..];
      intros x; specialize (Hcard x); unfold card in Hcard; congruence.
Qed.

Lemma base_of_invalid (mem : memory) (m : mod_ptr) (k : nat) :
  ~ (m < length mem)%nat -> base_of mem (m, k) = None.
Proof.
  intros Hm. unfold base_of, ident_at, at_. simpl.
  rewrite (lookup_ge_None_2 mem m) by lia. reflexivity.
Qed.

Lemma bound_to_members (id : ident_ptr) (mem mem' : memory) (m : mod_ptr) :
  bound_to id mem mem' ->
  ident_size (at_ mem' m) = ident_size (at_ mem m) /\ card (at_ mem' m) = card (at_ mem m).
Proof.
  intros (F & _). specialize (F m).
  split.
  - change (ident_size (without_ident (at_ mem' m)) = ident_size (without_ident (at_ mem m))).
    congruence.
  - change (card (without_ident (at_ mem' m)) = card (without_ident (at_ mem m))).
    congruence.
Qed.

(** The step of an identity: it is filled at the slot [ident_size], then
    counted. *)
Lemma reading_identity (module : mod_ptr) (name : option string) (mem0 mem mem1 : memory) :
  reading module name mem0 mem ->
  bound_to (module, ident_size (at_ mem module)) mem mem1 ->
  (length mem <= length mem1)%nat ->
  reading module name mem0
    (update mem1 module (fun m => with_ident_size m (S (ident_size m)))).
Proof.
  intros [Hb Hu Ho Hn Hr Ha] Hbound Hlen1.
  set (i := ident_size (at_ mem module)) in *.
  set (mem2 := update mem1 module _).
  assert (Hbase : forall p, base_of mem2 p = base_of mem1 p).
  { intros p. apply base_of_same_ident. apply at_update_member. reflexivity. }
  destruct (bound_to_members _ _ _ module Hbound) as (Hsz1 & Hcard1).
  destruct Hbound as (F & Hother & Hsame).
  assert (Hk : forall k, k <> i -> base_of mem1 (module, k) = base_of mem (module, k)).
  { intros k Hk. apply Hother. congruence. }
  constructor.
  - intros k j. rewrite Hbase. destruct (decide (k = i)) as [->|Hne].
    + destruct Hsame as [Hsame|(m' & i' & Hi' & Hsame)]; rewrite Hsame.
      * rewrite Hu by (subst i; lia). discriminate.
      * intros [= -> ->]. exact Hi'.
    + rewrite Hk by assumption. apply Hb.
  - intros k Hle. rewrite Hbase. destruct (decide (k = i)) as [->|Hne].
    + destruct (decide (module < length mem1)%nat) as [Hv|Hv].
      * exfalso. subst mem2. rewrite at_update in Hle.
        rewrite decide_True in Hle by auto. simpl in Hle. lia.
      * apply base_of_invalid. exact Hv.
    + rewrite Hk by assumption. apply Hu.
      subst mem2. rewrite at_update in Hle.
      destruct (decide _) in Hle; simpl in Hle; subst i; lia.
  - intros m Hlt Hm. subst mem2. rewrite at_update_other by assumption.
    destruct (bound_to_members (module, i) mem mem1 m) as (_ & ->);
      [split; auto | apply Ho; assumption].
  - subst mem2. rewrite (at_update_member m_name) by reflexivity.
    unfold card in Hcard1. congruence.
  - subst mem2. unfold revision_at_0.
    rewrite (at_update_member rev_size), (at_update_member rev) by reflexivity.
    unfold card in Hcard1. unfold revision_at_0 in Hr.
    replace (rev_size (at_ mem1 module)) with (rev_size (at_ mem module)) by congruence.
    replace (rev (at_ mem1 module)) with (rev (at_ mem module)) by congruence.
    exact Hr.
  - subst mem2. rewrite length_update. lia.
Qed.

(** Filling a top-level typedef writes the typedefs of the module. *)
Lemma fill_yin_typedef_module (module : mod_ptr) (yin : lyxml_elem) (i : nat)
  (mem : memory) (e : place_env) :
  fill_yin_typedef module yin (AtModule i) (mem, []) = Ok e ->
  forall m, with_tpdfs (at_ e.1 m) [] = with_tpdfs (at_ mem m) [].
Proof.
  unfold fill_yin_typedef. intros H.
  inv_bind H. inv_bind H. cbv zeta in H. inv_bind H. inv_bind H.
  destruct (ty_der (tp_type a2)); [|discriminate]. injection H as <-.
  assert (Hset : forall t' (e0 : place_env),
            (forall m, with_tpdfs (at_ e0.1 m) [] = with_tpdfs (at_ mem m) []) ->
            forall m, with_tpdfs (at_ (place_set module (AtModule i) t' e0).1 m) []
                      = with_tpdfs (at_ mem m) []).
  { intros t' e0 He0 m. simpl. rewrite <- He0.
    apply (at_update_member (fun x => with_tpdfs x [])). reflexivity. }
  refine (fold_left_Ok_inv _
            (fun e => forall m, with_tpdfs (at_ e.1 m) [] = with_tpdfs (at_ mem m) [])
            _ _ _ _ _ _ _ E1).
  - reflexivity.
  - reflexivity.
  - intros e0 node e1 _ He0 Hstep.
    unfold fill_yin_typedef_step in Hstep. simpl in Hstep. inv_bind Hstep.
    repeat match type of Hstep with
           | (if ?c then _ else _) = _ => destruct c
           | mbind _ _ = Ok _ => inv_bind Hstep
           | match ?c with _ => _ end = _ => destruct c; try discriminate
           end;
      try discriminate; try (injection Hstep as <-); try apply Hset; auto.
  - apply Hset. reflexivity.
Qed.

Lemma reading_typedef (module : mod_ptr) (name : option string) (mem0 mem mem' : memory) :
  reading module name mem0 mem ->
  (length mem <= length mem')%nat ->
  (forall m, with_tpdfs (at_ mem' m) [] = with_tpdfs (at_ mem m) []) ->
  reading module name mem0 mem'.
Proof.
  intros Hrd Hlen F.
  assert (Hmember : forall {B} (member : ly_module -> B),
            (forall x, member (with_tpdfs x []) = member x) ->
            forall m, member (at_ mem' m) = member (at_ mem m)).
  { intros B member Hm m. rewrite <- (Hm (at_ mem' m)), <- (Hm (at_ mem m)), F.
    reflexivity. }
  eapply reading_step; [exact Hrd|exact Hlen|..].
  - apply (Hmember _ ident). reflexivity.
  - apply (Hmember _ ident_size). reflexivity.
  - intros m _. apply (Hmember _ card). reflexivity.
  - apply (Hmember _ m_name). reflexivity.
  - destruct Hrd as [_ _ _ _ Hr _]. unfold revision_at_0 in *.
    rewrite (Hmember _ rev_size), (Hmember _ rev) by reflexivity. exact Hr.
Qed.

(** What a load does to the store leaves the invariant alone. *)
Lemma reading_load (module : mod_ptr) (name : option string) (mem0 mem mem' : memory) :
  reading module name mem0 mem -> der_only mem mem' -> reading module name mem0 mem'.
Proof.
  intros [Hb Hu Ho Hn Hr Ha] Hd.
  assert (Hmod : (module < length mem)%nat) by lia.
  assert (Hbase : forall k, base_of mem' (module, k) = base_of mem (module, k)).
  { intros k. apply der_only_base; [exact Hd|exact Hmod]. }
  constructor.
  - intros k j. rewrite Hbase. apply Hb.
  - intros k Hk. rewrite Hbase. apply Hu.
    rewrite (der_only_member ident_size mem mem' module) in Hk; auto.
  - intros m Hlt Hm. rewrite (der_only_member card mem mem' m); auto. lia.
  - rewrite (der_only_member m_name mem mem' module); auto.
  - unfold revision_at_0.
    rewrite (der_only_member rev_size mem mem' module),
            (der_only_member rev mem mem' module); auto.
  - destruct Hd as [Hl _]. lia.
Qed.

Lemma middle_run_step_reading (L : ly_loader) (module : mod_ptr) (name : option string)
  (node : lyxml_elem) (mem0 : memory) (w w' : world) (u : unit) :
  loads_der_only L ->
  reading module name mem0 w.2 ->
  middle_run_step L module node w = (Ok u, w') ->
  reading module name mem0 w'.2.
Proof.
  intros HL Hrd H. destruct w as [ctx mem], w' as [ctx' mem']. simpl in *.
  unfold middle_run_step in H.
  destruct (named node "import").
  { apply bindS_Ok in H. destruct H as (slot & [ctx1 mem1] & E & H). inv_state E.
    apply bindS_Ok in H. destruct H as (r & [ctx2 mem2] & E & H). inv_state H.
    apply reading_update; auto. eapply reading_load; [exact Hrd|].
    pose proof (fill_yin_import_keeps der_only der_only_refl der_only_trans
                  (fun _ _ H => H) L HL node slot (ctx, mem)) as Hk.
    unfold on_store in Hk. rewrite E in Hk. exact Hk. }
  destruct (named node "include").
  { apply bindS_Ok in H. destruct H as (slot & [ctx1 mem1] & E & H). inv_state E.
    apply bindS_Ok in H. destruct H as (r & [ctx2 mem2] & E & H). inv_state H.
    apply reading_update; auto. eapply reading_load; [exact Hrd|].
    pose proof (fill_yin_include_keeps der_only der_only_refl der_only_trans
                  (fun _ _ H => H) L HL module node slot (ctx, mem)) as Hk.
    unfold on_store in Hk. rewrite E in Hk. exact Hk. }
  destruct (named node "revision").
  { inv_state H.
    match goal with
    | E : mbind _ _ = Ok _ |- _ => inv_bind E; rename E into Hslot
    end.
    eapply reading_step; [exact Hrd|..].
    - rewrite length_update. lia.
    - intros m. apply at_update_member. reflexivity.
    - apply at_update_member. reflexivity.
    - intros m Hm. rewrite at_update_other by assumption. reflexivity.
    - apply (at_update_member m_name). reflexivity.
    - rewrite at_update. destruct (decide _) as [_|_]; [|apply Hrd].
      intros _. simpl. apply lookup_lt_is_Some_2. rewrite length_insert.
      destruct (rev (at_ mem module) !! rev_size (at_ mem module)) eqn:El;
        [|discriminate].
      apply lookup_lt_Some in El. lia. }
  destruct (named node "typedef").
  { inv_state H.
    match goal with
    | E : mbind _ _ = Ok _ |- _ => inv_bind E; rename E into He
    end.
    injection He as <-.
    match goal with
    | E : fill_yin_typedef _ _ _ _ = Ok _ |- _ =>
        pose proof (fill_yin_typedef_module _ _ _ _ _ E) as Hfill;
        pose proof (fill_yin_typedef_keeps frame frame_refl frame_trans module
                      (fun mem f Hf _ => frame_update mem module f Hf) _ _ _ _ E) as [Hlen _]
    end.
    apply reading_update; auto. eapply reading_typedef; eauto. }
  destruct (named node "identity").
  { inv_state H.
    match goal with
    | E : Ok _ = Ok _ |- _ => injection E as <-
    end.
    match goal with
    | E : fill_yin_identity ?m ?n (_, ?i) ?mm = _ |- _ =>
        pose proof (fill_yin_identity_keeps frame frame_refl frame_trans m
                      (fun mem f Hf _ => frame_update mem m f Hf)
                      (fun mem p g _ _ => frame_update_ident mem p g)
                      n i mm) as [Hlen _];
        rewrite E in Hlen; simpl in Hlen;
        apply fill_yin_identity_spec in E
    end.
    eapply reading_identity; eassumption. }
  inv_state H.
  match goal with
  | E : (_, _) = (_, _) |- _ => injection E as <- <-
  end.
  exact Hrd.
Qed.

Lemma middle_run_reading (L : ly_loader) (module : mod_ptr) (name : option string)
  (children : list lyxml_elem) (mem0 : memory) :
  loads_der_only L ->
  forall (w w' : world) u,
  reading module name mem0 w.2 ->
  middle_run L module children w = (Ok u, w') ->
  reading module name mem0 w'.2.
Proof.
  intros HL.
  induction children as [|node next IH]; intros w w' u Hrd H; simpl in H.
  - apply retS_Ok in H. destruct H as (_ & ->). exact Hrd.
  - apply bindS_Ok in H. destruct H as (u1 & w1 & E & H).
    eapply IH; [|exact H]. eapply middle_run_step_reading; eauto.
Qed.

Lemma last_run_step_reading (module : mod_ptr) (name : option string)
  (node : lyxml_elem) (mem0 mem mem' : memory) (u : unit) :
  reading module name mem0 mem ->
  last_run_step module node mem = (Ok u, mem') ->
  reading module name mem0 mem'.
Proof.
  intros Hrd H. unfold last_run_step in H.
  repeat match type of H with
         | (if ?c then _ else _) _ = _ => destruct c
         end;
    inv_state H; try exact Hrd; apply reading_update; auto.
Qed.

Lemma last_run_reading (module : mod_ptr) (name : option string)
  (root : list lyxml_elem) (mem0 : memory) :
  forall mem mem' u,
  reading module name mem0 mem ->
  last_run module root mem = (Ok u, mem') ->
  reading module name mem0 mem'.
Proof.
  induction root as [|node next IH]; intros mem mem' u Hrd H; simpl in H.
  - inv_state H. exact Hrd.
  - apply bindS_Ok in H. destruct H as (u1 & mem1 & E & H).
    eapply IH; [|exact H]. eapply last_run_step_reading; eauto.
Qed.

(** The first run writes neither the identities nor the name nor the
    revisions of the module. *)
Lemma first_run_members (submodule : bool) (children : list lyxml_elem)
  (m0 : ly_module) (st : first_run) :
  fold_left (first_run_step submodule) children
    (Ok (FirstRun m0 [] [] (Counters 0 0 0 0 0))) = Ok st ->
  ident (fr_module st) = ident m0 /\ ident_size (fr_module st) = ident_size m0 /\
  card (fr_module st) = card m0.
Proof.
  intros H.
  refine (fold_left_Ok_inv _
            (fun st => ident (fr_module st) = ident m0 /\
                       ident_size (fr_module st) = ident_size m0 /\
                       card (fr_module st) = card m0)
            _ _ _ _ _ _ _ H).
  - reflexivity.
  - reflexivity.
  - intros st0 node st1 _ Hst0 Hstep. unfold first_run_step in Hstep. simpl in Hstep.
    repeat match type of Hstep with
           | (if ?c then _ else _) = _ => destruct c
           | mbind _ _ = Ok _ => inv_bind Hstep
           | match ?c with _ => _ end = _ => destruct c; try discriminate
           end;
      try discriminate; injection Hstep as <-; exact Hst0.
  - auto.
Qed.

Lemma reading_allocate (module : mod_ptr) (name : option string) (mem0 mem : memory)
  (c : counters) :
  reading module name mem0 mem ->
  reading module name mem0 (update mem module (allocate_arrays c)).
Proof.
  intros [Hb Hu Ho Hn Hr Ha].
  set (mem' := update mem module (allocate_arrays c)).
  assert (Hbase : forall k j, base_of mem' (module, k) = Some j ->
                              base_of mem (module, k) = Some j).
  { intros k j. unfold base_of, ident_at. subst mem'. rewrite at_update. simpl.
    destruct (decide _) as [_|_]; [|auto].
    unfold allocate_arrays. simpl. destruct (c_ident c) as [|n]; simpl; [auto|].
    change (ident0 :: replicate n ident0) with (replicate (S n) ident0).
    destruct (decide (k < S n)%nat).
    - rewrite (lookup_replicate_2 (S n) ident0 k) by assumption. discriminate.
    - rewrite lookup_ge_None_2 by (rewrite length_replicate; lia). discriminate. }
  constructor.
  - intros k j Hkj. apply Hb. apply Hbase. exact Hkj.
  - intros k Hk. destruct (base_of mem' (module, k)) as [j|] eqn:Ej; [|reflexivity].
    apply Hbase in Ej. rewrite Hu in Ej; [discriminate|].
    subst mem'. rewrite (at_update_member ident_size) in Hk; [exact Hk|].
    intros x. reflexivity.
  - intros m Hlt Hm. subst mem'. rewrite at_update_other by assumption.
    apply Ho; assumption.
  - subst mem'. rewrite (at_update_member m_name); [exact Hn|]. reflexivity.
  - subst mem'. unfold revision_at_0 in *. rewrite at_update.
    destruct (decide _) as [_|_]; [|exact Hr].
    unfold allocate_arrays. simpl. intros Hpos.
    destruct (c_rev c) as [|n]; simpl; [exact (Hr Hpos)|]. eauto.
  - subst mem'. rewrite length_update. exact Ha.
Qed.

(** read_sub_module keeps the invariant of the runs. *)
Lemma read_sub_module_reading (L : ly_loader) (module : mod_ptr) (name : option string)
  (yin : lyxml_elem) (submodule : bool) (ctx ctx' : ly_ctx) (mem mem' : memory) (u : unit) :
  loads_der_only L ->
  reading module name mem mem ->
  read_sub_module L module yin submodule (ctx, mem) = (Ok u, (ctx', mem')) ->
  reading module name mem mem'.
Proof.
  intros HL Hrd H. unfold read_sub_module in H.
  apply bindS_Ok in H. destruct H as (st & [ctx1 mem1] & E & H). inv_state E.
  match goal with
  | E : fold_left _ _ _ = Ok st |- _ =>
      apply first_run_members in E; destruct E as (Hid & Hsz & Hcard)
  end.
  apply bindS_Ok in H. destruct H as (u1 & [ctx2 mem2] & E & H). inv_state E.
  assert (Hrd1 : reading module name mem (update mem module (fun _ => fr_module st))).
  { eapply reading_step; [exact Hrd|..].
    - rewrite length_update. lia.
    - intros m. rewrite at_update. destruct (decide _) as [[-> _]|_]; auto.
    - rewrite at_update. destruct (decide _) as [[_ _]|_]; auto.
    - intros m Hm. rewrite at_update_other by assumption. reflexivity.
    - rewrite at_update. destruct (decide _) as [[_ _]|_]; [|reflexivity].
      unfold card in Hcard. congruence.
    - destruct Hrd as [_ _ _ _ Hr _]. rewrite at_update.
      destruct (decide _) as [[_ _]|_]; [|exact Hr].
      unfold revision_at_0 in *. unfold card in Hcard.
      replace (rev_size (fr_module st)) with (rev_size (at_ mem module)) by congruence.
      replace (rev (fr_module st)) with (rev (at_ mem module)) by congruence.
      exact Hr. }
  apply bindS_Ok in H. destruct H as (u2 & [ctx2 mem2] & E & H).
  assert (Hm : (ctx2, mem2) = (ctx, update mem module (fun _ => fr_module st))).
  { repeat match type of E with
           | (if ?c then _ else _) _ = _ => destruct c
           end;
      first [discriminate E | apply retS_Ok in E; destruct E as (_ & E); exact E]. }
  injection Hm as -> ->. clear E.
  apply bindS_Ok in H. destruct H as (u3 & [ctx3 mem3] & E & H). inv_state E.
  apply bindS_Ok in H. destruct H as (u4 & [ctx4 mem4] & E & H). inv_state H.
  eapply last_run_reading; [|eassumption].
  apply (middle_run_reading L module name (fr_child st) mem HL
           (ctx, update (update mem module (fun _ => fr_module st)) module
                   (allocate_arrays (fr_count st))) (ctx4, mem4) u4
           (reading_allocate module name mem _ (fr_count st) Hrd1) E).
Qed.

(** ** Identities *)

Lemma at_app_new (mem : memory) (x : ly_module) : at_ (mem ++ [x]) (length mem) = x.
Proof. unfold at_. rewrite list_lookup_middle by reflexivity. reflexivity. Qed.

Lemma at_app_old (mem : memory) (x : ly_module) (m : mod_ptr) :
  (m < length mem)%nat -> at_ (mem ++ [x]) m = at_ mem m.
Proof. intros Hm. unfold at_. rewrite lookup_app_l by assumption. reflexivity. Qed.

(** The module as yin_read_module allocates it. *)
Lemma reading_start (mem : memory) (value : string) :
  let mem0 := mem ++ [with_m_name module0 (Some value)] in
  reading (length mem) (Some value) mem0 mem0.
Proof.
  intros mem0.
  assert (Hbase : forall k, base_of mem0 (length mem, k) = None).
  { intros k. unfold base_of, ident_at. subst mem0. simpl. rewrite at_app_new. reflexivity. }
  constructor.
  - intros k j. rewrite Hbase. discriminate.
  - intros k _. apply Hbase.
  - reflexivity.
  - subst mem0. rewrite at_app_new. reflexivity.
  - subst mem0. rewrite at_app_new. intros Hpos. simpl in Hpos. lia.
  - subst mem0. rewrite length_app. simpl. lia.
Qed.

Lemma module_read_reading (L : ly_loader) (lyxml_read : string -> option lyxml_elem)
  (ctx : ly_ctx) (mem : memory) (w1 : world) (data : string) :
  loads_der_only L ->
  module_read L lyxml_read ctx mem data = Some w1 ->
  exists value,
    reading (length mem) (Some value) (mem ++ [with_m_name module0 (Some value)]) w1.2.
Proof.
  unfold module_read. intros HL H.
  destruct (lyxml_read data) as [yin|]; [|discriminate].
  destruct (negb (named yin "module")); [discriminate|].
  destruct (lyxml_get_attr yin "name") as [value|]; [|discriminate].
  destruct (read_sub_module _ _ _ _ _) as [[[]| |] [ctx2 mem2]] eqn:E; try discriminate.
  injection H as <-. exists value.
  eapply read_sub_module_reading; [exact HL| |exact E]. apply reading_start.
Qed.

Lemma yin_read_module_Ok (L : ly_loader) (lyxml_read : string -> option lyxml_elem)
  (sizeof_ptr : nat) (ctx ctx' : ly_ctx) (mem mem' : memory) (data : string) (m : mod_ptr) :
  yin_read_module L lyxml_read sizeof_ptr ctx mem data = (Ok m, ctx', mem') ->
  m = length mem /\
  exists ctx1, module_read L lyxml_read ctx mem data = Some (ctx1, mem').
Proof.
  unfold yin_read_module, module_read. intros H.
  destruct (lyxml_read data) as [yin|]; [|discriminate].
  destruct (negb (named yin "module")); [discriminate|].
  destruct (lyxml_get_attr yin "name") as [value|]; [|discriminate].
  destruct (read_sub_module _ _ _ _ _) as [[[]| |] [ctx2 mem2]]; try discriminate.
  destruct (grow_models sizeof_ptr ctx2); try discriminate.
  destruct (first_free_slot _ _ _ _ _); try discriminate.
  injection H as <- _ <-. eauto.
Qed.

(** C1, as the code has it: the base of an identity is looked up when
    the identity is read, among the identities read before it.  In a
    module that yin_read_module has compiled and registered, every base
    that lies in the module itself is therefore an identity declared
    earlier in the document; a base that names only a later identity is
    never bound.  The modules that the context loads for the imports of
    the module are read by a loader that, like the functions of yin.c,
    writes to the objects that were in the store only the derived lists
    of identities. *)
Theorem bases_of_registered_module_backward
  (L : ly_loader) (lyxml_read : string -> option lyxml_elem) (sizeof_ptr : nat)
  (ctx ctx' : ly_ctx) (mem mem' : memory) (data : string) (m : mod_ptr) :
  loads_der_only L ->
  yin_read_module L lyxml_read sizeof_ptr ctx mem data = (Ok m, ctx', mem') ->
  forall k j, base_of mem' (m, k) = Some (m, j) -> (j < k)%nat.
Proof.
  intros HL H. apply yin_read_module_Ok in H. destruct H as (-> & ctx1 & H).
  apply module_read_reading in H; [|exact HL].
  destruct H as (value & [Hb _ _ _ _ _]). exact Hb.
Qed.

Lemma bases_of_registered_module_backward_witness :
  (read_doc backward_bases fresh_ctx []).1.1 = Ok 0%nat /\
  forall k j,
    base_of (read_doc backward_bases fresh_ctx []).2 (0%nat, k) = Some (0%nat, j) ->
    (j < k)%nat.
Proof.
  split; [vm_compute; reflexivity|].
  apply (bases_of_registered_module_backward no_files (fun _ => Some backward_bases) 8
           fresh_ctx (read_doc backward_bases fresh_ctx []).1.2 [] _ "" 0).
  - split; intros; split; [simpl; lia | reflexivity | simpl; lia | reflexivity].
  - vm_compute. reflexivity.
Defined.

(** The counterexample to C1 as it is stated: identity a { base b; }
    before identity b.  The module is not compiled: the base b is not
    found among the identities read so far and read_sub_module fails with
    the invalid-argument code; nothing is registered. *)
Lemma forward_base_rejected :
  read_doc forward_base fresh_ctx [] = (Err (Val VE_INARG), fresh_ctx, []).
Proof. reflexivity. Qed.

(** The scenario of the specification: base, a { base base; },
    b { base a; } are bound backwards, and the derived lists are filled. *)
Example identity_derivation :
  (fun r => (fun i => (id_base i, id_der i)) <$> ident (at_ r.2 0))
    (read_doc backward_bases fresh_ctx [])
  = [(None, [(0, 1); (0, 2)]%nat); (Some (0, 0)%nat, [(0, 2)%nat]); (Some (0, 1)%nat, [])].
Proof. reflexivity. Qed.

(** ** The registration of a module *)


Lemma grow_models_room (sizeof_ptr : nat) (ctx : ly_ctx) :
  (models_used ctx < models_size ctx)%nat -> grow_models sizeof_ptr ctx = Ok ctx.
Proof.
  intros H. unfold grow_models. rewrite bool_decide_eq_false_2 by lia. reflexivity.
Qed.

(** *** The context while a module is read *)











(** A duplicate in a full context: the module m0 is registered a second
    time in a context whose sixteen slots are in use, the first of them
    by m0, neither with a revision.  The list is grown before the
    modules are compared, the growth writes outside of the block that
    realloc returns, and the behaviour is undefined: no duplicate-module
    error.  With one free slot in the context the same registration is
    refused with LY_EINVAL. *)
Example duplicate_in_full_context_undefined :
  models_list full_ctx !! 0%nat = Some (Ptr 0) /\
  m_name (at_ full_memory 0) = Some "m0" /\ rev_size (at_ full_memory 0) = 0%nat /\
  (read_doc module_m0 full_ctx full_memory).1.1 = Undef /\
  (read_doc module_m0 roomy_ctx full_memory).1.1 = Err (Log LY_EINVAL).
Proof. repeat split; vm_compute; reflexivity. Qed.

(** The scenario of the specification: the same document twice in a
    fresh context.  The second registration fails with LY_EINVAL and
    leaves the context and the store as the first one left them. *)

Example same_module_twice :
  (twice module_with_revision).2
  = (Err (Log LY_EINVAL), (twice module_with_revision).1.1.2, (twice module_with_revision).1.2)
  /\ (twice module_with_revision).1.1.1 = Ok 0%nat.
Proof. split; vm_compute; reflexivity. Qed.

Example same_module_without_revision_twice :
  (twice (module_m [])).2
  = (Err (Log LY_EINVAL), (twice (module_m [])).1.1.2, (twice (module_m [])).1.2).
Proof. vm_compute. reflexivity. Qed.


(** * Further properties of the reader *)

(** ** read_yin_common *)

Lemma common_step_Err (ext : bool) (d : diag) (sub : lyxml_elem) :
  common_step ext (Err d) sub = Err d.
Proof. reflexivity. Qed.

Lemma common_step_Undef (ext : bool) (sub : lyxml_elem) :
  common_step ext Undef sub = Undef.
Proof. reflexivity. Qed.

(** One child: it is kept if and only if it is not handled. *)
Lemma common_step_kept (ext : bool) (h h' : ly_common) (kept kept' : list lyxml_elem)
  (sub : lyxml_elem) :
  common_step ext (Ok (h, kept)) sub = Ok (h', kept') ->
  kept' = kept ++ (if handled ext sub then [] else [sub]).
Proof.
  unfold common_step, handled. simpl.
  destruct (named sub "description"); [intros [= _ <-]; simpl; symmetry; apply app_nil_r|].
  destruct (named sub "reference"); [intros [= _ <-]; simpl; symmetry; apply app_nil_r|].
  destruct (named sub "status"); simpl.
  { intros H. inv_bind H.
    repeat match type of H with
           | (if ?c then _ else _) = _ => destruct c
           end; injection H as _ <-; symmetry; apply app_nil_r. }
  destruct (ext && named sub "config")%bool; simpl.
  { intros H. inv_bind H.
    repeat match type of H with
           | (if ?c then _ else _) = _ => destruct c
           end; injection H as _ <-; symmetry; apply app_nil_r. }
  intros [= _ <-]. reflexivity.
Qed.

Lemma common_fold_kept (ext : bool) (children : list lyxml_elem) :
  forall h kept h' kept',
  fold_left (common_step ext) children (Ok (h, kept)) = Ok (h', kept') ->
  kept' = kept ++ filter (fun sub => negb (handled ext sub)) children.
Proof.
  induction children as [|sub next IH]; intros h kept h' kept' H; cbn [fold_left] in H.
  - injection H as _ <-. simpl. symmetry. apply app_nil_r.
  - destruct (common_step ext (Ok (h, kept)) sub) as [[h1 k1]|d|] eqn:E.
    + apply common_step_kept in E. apply IH in H. subst.
      rewrite <- app_assoc. f_equal.
      unfold filter at 2. simpl.
      destruct (handled ext sub); reflexivity.
    + rewrite fold_left_Err in H by apply common_step_Err. discriminate.
    + rewrite fold_left_Undef in H by apply common_step_Undef. discriminate.
Qed.

(** The name that read_yin_common stores is the name attribute, which is
    not empty. *)
Lemma read_yin_common_name (module : mod_ptr) (parent : list ly_mnode)
  (mnode hdr : ly_common) (xmlnode node' : lyxml_elem) (ext : bool) :
  read_yin_common module parent mnode xmlnode ext = Ok (hdr, node') ->
  exists value, lyxml_get_attr xmlnode "name" = Some value /\ value <> "" /\
                c_name hdr = Some value.
Proof.
  unfold read_yin_common. intros H. inv_bind H.
  destruct (lyxml_get_attr xmlnode "name") as [value|] eqn:Ename; [|discriminate].
  injection E as <-. exists value. split; [reflexivity|].
  destruct (String.eqb_spec value "") as [->|Hne]; [discriminate|].
  split; [exact Hne|].
  inv_bind H. destruct a as [h kept].
  assert (Hname : c_name h = Some value).
  { refine (fold_left_Ok_inv _ (fun hk => c_name hk.1 = Some value) _ _ _ _ _ _ _ E).
    - reflexivity.
    - reflexivity.
    - intros [h0 k0] sub [h1 k1] _ Hh0 Hstep. unfold common_step in Hstep. simpl in *.
      repeat match type of Hstep with
             | (if ?c then _ else _) = _ => destruct c
             | mbind _ _ = Ok _ => inv_bind Hstep
             end; injection Hstep as <- _; exact Hh0.
    - destruct ext; reflexivity. }
  destruct (ext && _)%bool; [destruct parent|]; injection H as <- _; exact Hname.
Qed.

(** The element that read_yin_common returns. *)
Lemma read_yin_common_node (module : mod_ptr) (parent : list ly_mnode)
  (mnode hdr : ly_common) (xmlnode node' : lyxml_elem) (ext : bool) :
  read_yin_common module parent mnode xmlnode ext = Ok (hdr, node') ->
  node' = Elem (x_name xmlnode) (x_ns xmlnode) (x_attr xmlnode) (x_content xmlnode)
               (filter (fun sub => negb (handled ext sub)) (x_child xmlnode)).
Proof.
  unfold read_yin_common. intros H. inv_bind H.
  destruct (String.eqb a ""); [discriminate|].
  inv_bind H. destruct a0 as [h kept].
  apply common_fold_kept in E0. simpl in E0. subst kept.
  destruct (ext && _)%bool; [destruct parent|]; injection H as _ <-; reflexivity.
Qed.

(** X1: read_yin_common returns the element with exactly the children it
    does not handle, in their order: description, reference and status
    are taken out, config only for the nodes that carry config flags;
    name, namespace, attributes and content are untouched; and the name
    it stores is the name attribute, which is not empty. *)
Theorem read_yin_common_children (module : mod_ptr) (parent : list ly_mnode)
  (mnode hdr : ly_common) (xmlnode node' : lyxml_elem) (ext : bool) :
  read_yin_common module parent mnode xmlnode ext = Ok (hdr, node') ->
  node' = Elem (x_name xmlnode) (x_ns xmlnode) (x_attr xmlnode) (x_content xmlnode)
               (filter (fun sub => negb (handled ext sub)) (x_child xmlnode)) /\
  c_name hdr = lyxml_get_attr xmlnode "name" /\ c_name hdr <> Some "".
Proof.
  intros H. split; [exact (read_yin_common_node _ _ _ _ _ _ _ H)|].
  apply read_yin_common_name in H. destruct H as (value & -> & Hne & ->).
  split; congruence.
Qed.

Lemma read_yin_common_children_witness :
  exists hdr,
    read_yin_common 0 [] common0 documented_leaf true
    = Ok (hdr, stmt "leaf" (arg "name" "x") [type_stmt "string" []]) /\
    c_name hdr = Some "x".
Proof.
  eexists. split; [reflexivity|].
  exact (proj1 (proj2 (read_yin_common_children 0 [] common0 _ documented_leaf _ true
                         eq_refl))).
Defined.

(** *** The config bits *)

Lemma config_bits_lor (h : ly_common) (f : Z) :
  Z.land f LY_NODE_CONFIG_MASK = 0 ->
  config_bits (set_flags h (Z.lor (c_flags h) f)) = config_bits h.
Proof.
  intros Hf. unfold config_bits. simpl. rewrite Z.land_lor_distr_l, Hf.
  apply Z.lor_0_r.
Qed.

Lemma config_bits_R (h : ly_common) :
  config_bits h = 0 \/ config_bits h = LY_NODE_CONFIG_R ->
  config_bits (set_flags h (Z.lor (c_flags h) LY_NODE_CONFIG_R)) = LY_NODE_CONFIG_R.
Proof.
  unfold config_bits. simpl. rewrite Z.land_lor_distr_l.
  intros [->| ->]; reflexivity.
Qed.

Lemma common_step_config (ext : bool) (h h' : ly_common) (kept kept' : list lyxml_elem)
  (sub : lyxml_elem) :
  common_step ext (Ok (h, kept)) sub = Ok (h', kept') ->
  config_bits h = 0 \/ config_bits h = LY_NODE_CONFIG_R ->
  config_bits h' =
    if (ext && config_false [sub])%bool then LY_NODE_CONFIG_R else config_bits h.
Proof.
  unfold common_step, config_false. simpl. intros H Hh.
  destruct (named sub "description") eqn:Ed.
  { injection H as <- _.
    assert (named sub "config" = false) as ->.
    { unfold named in *. apply String.eqb_eq in Ed. rewrite Ed. reflexivity. }
    rewrite andb_false_r. reflexivity. }
  destruct (named sub "reference") eqn:Er.
  { injection H as <- _.
    assert (named sub "config" = false) as ->.
    { unfold named in *. apply String.eqb_eq in Er. rewrite Er. reflexivity. }
    rewrite andb_false_r. reflexivity. }
  destruct (named sub "status") eqn:Es.
  { assert (named sub "config" = false) as ->.
    { unfold named in *. apply String.eqb_eq in Es. rewrite Es. reflexivity. }
    rewrite andb_false_r. inv_bind H.
    repeat match type of H with
           | (if ?c then _ else _) = _ => destruct c
           end; injection H as <- _; try reflexivity; apply config_bits_lor; reflexivity. }
  destruct ext; simpl.
  - destruct (named sub "config"); simpl.
    + inv_bind H. destruct (lyxml_get_attr sub "value") as [v|]; [|discriminate].
      injection E as <-.
      destruct (String.eqb v "false") eqn:Ev.
      * apply String.eqb_eq in Ev. injection H as <- _.
        rewrite bool_decide_eq_true_2 by congruence.
        apply config_bits_R. exact Hh.
      * apply String.eqb_neq in Ev. rewrite bool_decide_eq_false_2 by congruence.
        injection H as <- _. reflexivity.
    + injection H as <- _. reflexivity.
  - injection H as <- _. reflexivity.
Qed.

Lemma common_fold_config (ext : bool) (children : list lyxml_elem) :
  forall h kept h' kept',
  fold_left (common_step ext) children (Ok (h, kept)) = Ok (h', kept') ->
  config_bits h = 0 \/ config_bits h = LY_NODE_CONFIG_R ->
  config_bits h' =
    if (ext && config_false children)%bool then LY_NODE_CONFIG_R else config_bits h.
Proof.
  induction children as [|sub next IH]; intros h kept h' kept' H Hh; cbn [fold_left] in H.
  - injection H as <- _. simpl. rewrite andb_false_r. reflexivity.
  - destruct (common_step ext (Ok (h, kept)) sub) as [[h1 k1]|d|] eqn:E.
    + apply common_step_config in E; [|exact Hh].
      apply IH in H.
      2:{ rewrite E. destruct (ext && config_false [sub])%bool;
            [right; reflexivity | exact Hh]. }
      rewrite H, E. unfold config_false in *. simpl. rewrite orb_false_r.
      destruct ext; simpl; [|reflexivity].
      destruct (named sub "config" && _)%bool; simpl; [|reflexivity].
      destruct (existsb _ next); reflexivity.
    + rewrite fold_left_Err in H by apply common_step_Err. discriminate.
    + rewrite fold_left_Undef in H by apply common_step_Undef. discriminate.
Qed.

(** X2: the config flag that read_yin_common gives to a node that starts
    without one (calloc): R when a config statement of the element has
    the value false; otherwise the config bits of the parent, and W at
    the top level, where there is no parent. *)
Theorem read_yin_common_config (module : mod_ptr) (parent : list ly_mnode)
  (mnode hdr : ly_common) (xmlnode node' : lyxml_elem) :
  read_yin_common module parent mnode xmlnode true = Ok (hdr, node') ->
  config_bits mnode = 0 ->
  config_bits hdr =
    if config_false (x_child xmlnode) then LY_NODE_CONFIG_R
    else match parent with
         | p :: _ => config_of p
         | [] => LY_NODE_CONFIG_W
         end.
Proof.
  unfold read_yin_common. intros H H0. inv_bind H.
  destruct (String.eqb a ""); [discriminate|].
  inv_bind H. destruct a0 as [h kept].
  apply common_fold_config in E0; [|left; exact H0].
  simpl in E0. change (config_bits (set_name (set_module mnode (Some module)) (Some a)))
    with (config_bits mnode) in E0. rewrite H0 in E0.
  change (Z.land (c_flags h) LY_NODE_CONFIG_MASK) with (config_bits h) in H.
  rewrite E0 in H.
  destruct (config_false (x_child xmlnode)); simpl in H.
  - injection H as <- _. exact E0.
  - destruct parent as [|p up]; injection H as <- _; unfold config_bits in *; simpl;
      rewrite Z.land_lor_distr_l, E0; simpl.
    + reflexivity.
    + unfold config_of. rewrite <- Z.land_assoc. reflexivity.
Qed.

Lemma read_yin_common_config_witness :
  exists hdr node',
    read_yin_common 0 [state_container] common0 (leaf_stmt "x" "string" []) true
    = Ok (hdr, node') /\ config_bits hdr = LY_NODE_CONFIG_R.
Proof.
  eexists. eexists. split; [reflexivity|].
  exact (read_yin_common_config 0 [state_container] common0 _
           (leaf_stmt "x" "string" []) _ eq_refl eq_refl).
Defined.

(** ** Types *)

Lemma strcmp_eq_true (s : option string) (name : string) :
  strcmp_eq s name = Ok true -> s = Some name.
Proof.
  destruct s as [s|]; simpl; [|discriminate].
  intros [= H]. apply String.eqb_eq in H. congruence.
Qed.

Lemma builtin_def_name (s : string) (t : LY_DATA_TYPE) :
  In (s, t) ly_types -> tp_name (builtin_def t) = Some s.
Proof.
  unfold ly_types. simpl. intros H.
  repeat (destruct H as [[= <- <-]|H]; [reflexivity|]). destruct H.
Qed.

(** A typedef found in an array has the name that was asked for. *)
Lemma array_find_named (qname : string) (a : list ly_tpdf) (size i : nat) :
  array_find (fun t => strcmp_eq (tp_name t) qname) a size = Ok (Some i) ->
  exists d, a !! i = Some d /\ tp_name d = Some qname.
Proof.
  intros H. apply array_find_from_Some in H. destruct H as (_ & (d & Hd & Ht) & _).
  exists d. split; [exact Hd|]. apply strcmp_eq_true. exact Ht.
Qed.

Lemma find_local_type_named (mem : memory) (qname : string) (parent : list ly_mnode) :
  forall pre p,
  find_local_type qname parent (length pre) = Ok (Some p) ->
  exists d, tpdf_at mem (pre ++ parent) p = Ok d /\ tp_name d = Some qname.
Proof.
  induction parent as [|n rest IH]; intros pre p H; simpl in H; [discriminate|].
  assert (Hrest : find_local_type qname rest (S (length pre)) = Ok (Some p) ->
                  exists d, tpdf_at mem (pre ++ n :: rest) p = Ok d /\
                            tp_name d = Some qname).
  { intros H'. specialize (IH (pre ++ [n]) p).
    rewrite length_app, Nat.add_1_r, <- app_assoc in IH. apply IH, H'. }
  destruct (nodetype n); try (apply Hrest; exact H);
    inv_bind H; destruct a as [i|]; try (apply Hrest; exact H);
    injection H as <-; apply array_find_named in E; destruct E as (d & Hd & Hn);
    exists d; (split; [|exact Hn]); simpl;
    rewrite lookup_app_r, Nat.sub_diag by lia; simpl; rewrite Hd; reflexivity.
Qed.

Lemma find_inc_type_named (mem : memory) (qname : string) (incs : list ly_include)
  (parent : list ly_mnode) (n : nat) :
  forall i p,
  find_inc_type mem qname incs i n = Ok (Some p) ->
  exists d, tpdf_at mem parent p = Ok d /\ tp_name d = Some qname.
Proof.
  induction n as [|n IH]; intros i p H; simpl in H; [discriminate|].
  inv_bind H. inv_bind H. inv_bind H.
  destruct a1 as [j|]; [|eapply IH; exact H].
  injection H as <-. apply array_find_named in E1. destruct E1 as (d & Hd & Hn).
  exists d. split; [|exact Hn]. simpl. rewrite Hd. reflexivity.
Qed.

Lemma find_superior_type_named (mem : memory) (name : string) (module : mod_ptr)
  (parent : list ly_mnode) (p : tpdf_ptr) :
  find_superior_type mem name module parent = Ok (Some p) ->
  exists d, tpdf_at mem parent p = Ok d /\ tp_name d = Some (local_name name).
Proof.
  assert (Hmod : forall m qname,
    (r ← array_find (fun t => strcmp_eq (tp_name t) qname)
                    (tpdf (at_ mem m)) (tpdf_size (at_ mem m));
     match r with
     | Some i => Ok (Some (TpModule m i))
     | None => find_inc_type mem qname (inc (at_ mem m)) 0 (inc_size (at_ mem m))
     end) = Ok (Some p) ->
    exists d, tpdf_at mem parent p = Ok d /\ tp_name d = Some qname).
  { intros m qname H. inv_bind H. destruct a as [i|].
    - injection H as <-. apply array_find_named in E. destruct E as (d & Hd & Hn).
      exists d. split; [|exact Hn]. simpl. rewrite Hd. reflexivity.
    - eapply find_inc_type_named; exact H. }
  assert (Hloc : forall qname,
    (r ← find_local_type qname parent 0;
     match r with
     | Some p => Ok (Some p)
     | None =>
         r ← array_find (fun t => strcmp_eq (tp_name t) qname)
                        (tpdf (at_ mem module)) (tpdf_size (at_ mem module));
         match r with
         | Some i => Ok (Some (TpModule module i))
         | None => find_inc_type mem qname (inc (at_ mem module)) 0
                     (inc_size (at_ mem module))
         end
     end) = Ok (Some p) ->
    exists d, tpdf_at mem parent p = Ok d /\ tp_name d = Some qname).
  { intros qname H. inv_bind H. destruct a as [q|].
    - injection H as <-. exact (find_local_type_named mem qname parent [] q E).
    - apply (Hmod module). exact H. }
  unfold find_superior_type, local_name. intros H.
  destruct (strchr name ":") as [q|].
  - inv_bind H.
    destruct (if a then 0%nat else ptr_diff q name) eqn:Elen.
    + apply Hloc. exact H.
    + inv_bind H. destruct a0 as [i|]; [|discriminate].
      inv_bind H. inv_bind H. eapply Hmod. exact H.
  - destruct (List.find _ ly_types) as [[s t]|] eqn:Ef.
    + injection H as <-. apply find_some in Ef. destruct Ef as (Hin & Heq).
      apply String.eqb_eq in Heq. simpl in Heq. subst s.
      exists (builtin_def t). split; [reflexivity|]. apply builtin_def_name. exact Hin.
    + apply Hloc. exact H.
Qed.

(** X3: a type statement that is accepted has a name attribute and refers
    to a typedef that exists: a built-in type, a typedef of an ancestor
    or a top-level typedef of a module.  That typedef bears the name of
    the attribute without its prefix, and the type takes its base type
    from it. *)
Theorem fill_yin_type_refers (mem : memory) (module : mod_ptr) (parent : list ly_mnode)
  (yin : lyxml_elem) (type type' : ly_type) :
  fill_yin_type mem module parent yin type = Ok type' ->
  exists value p d,
    lyxml_get_attr yin "name" = Some value /\
    ty_der type' = Some p /\ tpdf_at mem parent p = Ok d /\
    tp_name d = Some (local_name value) /\
    ty_base type' = ty_base (tp_type d).
Proof.
  unfold fill_yin_type. intros H.
  destruct (lyxml_get_attr yin "name") as [value|]; [|discriminate].
  inv_bind H. destruct a as [p|]; [|discriminate].
  inv_bind H. rename a into d.
  destruct (find_superior_type_named _ _ _ _ _ E) as (d' & Hd' & Hn).
  rewrite Hd' in E0. injection E0 as ->.
  exists value, p, d. split; [reflexivity|].
  cut (ty_der type' = Some p /\ ty_base type' = ty_base (tp_type d)).
  { intros [? ?]. auto. }
  simpl in H.
  destruct (ty_base (tp_type d)) eqn:Eb;
    try (injection H as <-; simpl; auto; fail).
  - destruct (filter (fun node => negb (named node "enum")) (x_child yin));
      [|discriminate].
    match type of H with
    | match ?c with O => _ | S _ => _ end = _ => destruct c
    end.
    + destruct (ty_der (tp_type d)); [|discriminate]. injection H as <-. simpl. auto.
    + inv_bind H. injection H as <-. simpl. auto.
  - destruct (x_child yin) as [|child next]; [discriminate|].
    destruct (negb (named child "base")); [discriminate|].
    destruct next; [|discriminate]. inv_bind H. injection H as <-. simpl. auto.
Qed.

Lemma fill_yin_type_refers_witness :
  exists type',
    fill_yin_type mem_with_typedef 0 [] (type_stmt "m:t" []) type0 = Ok type' /\
    exists value p d,
      lyxml_get_attr (type_stmt "m:t" []) "name" = Some value /\
      ty_der type' = Some p /\ tpdf_at mem_with_typedef [] p = Ok d /\
      tp_name d = Some (local_name value) /\
      ty_base type' = ty_base (tp_type d).
Proof.
  eexists. split; [vm_compute; reflexivity|].
  apply (fill_yin_type_refers mem_with_typedef 0 [] (type_stmt "m:t" []) type0).
  vm_compute. reflexivity.
Defined.

(** ** Enumerations *)

Lemma take_eq_lookup {A} (n : nat) (a b : list A) :
  take n a = take n b -> forall j, (j < n)%nat -> a !! j = b !! j.
Proof.
  intros H j Hj.
  assert (Ha : take n a !! j = a !! j) by (rewrite lookup_take; destruct (decide (j < n)%nat); [reflexivity|lia]).
  assert (Hb : take n b !! j = b !! j) by (rewrite lookup_take; destruct (decide (j < n)%nat); [reflexivity|lia]).
  rewrite <- Ha, <- Hb, H. reflexivity.
Qed.

(** One round of the loop over the enum statements. *)
Lemma fill_yin_type_enums_step (module : mod_ptr) (child : lyxml_elem)
  (root' : list lyxml_elem) (enums enums' : list ly_type_enum) (i : nat) (v : Z) :
  fill_yin_type_enums module (child :: root') enums i v = Ok enums' ->
  exists e v',
    (i < length enums)%nat /\
    fill_yin_type_enums module root' (<[i := e]> enums) (S i) v' = Ok enums' /\
    (exists s, en_name e = Some s /\ lyxml_get_attr child "name" = Some s /\ trimmed s) /\
    (forall j e0, (j < i)%nat -> enums !! j = Some e0 -> en_name e0 <> en_name e) /\
    (if has_value child
     then INT32_MIN <= en_value e <= INT32_MAX /\
          (v < en_value e /\ v' = en_value e + 1 \/
           en_value e <= v /\ v' = v /\
           forall j e0, (j < i)%nat -> enums !! j = Some e0 -> en_value e0 <> en_value e)
     else en_value e = v /\ v <= INT32_MAX /\ v' = v + 1).
Proof.
  simpl. intros H. inv_bind H. rename a into en.
  assert (Hi : (i < length enums)%nat).
  { destruct (enums !! i) eqn:El; [|discriminate]. eapply lookup_lt_Some; eauto. }
  inv_bind H. destruct a as [hdr child'].
  pose proof (read_yin_common_name _ _ _ _ _ _ _ E0) as (s & Hattr & Hne & Hname).
  apply read_yin_common_node in E0.
  inv_bind H. rewrite Hname in E1. injection E1 as <-.
  destruct (first_is_space s || last_is_space s)%bool eqn:Ews; [discriminate|].
  apply orb_false_elim in Ews. destruct Ews as [Hf Hl].
  inv_bind H. destruct a as [dup|]; [discriminate|].
  assert (Hnames : forall j e0, (j < i)%nat -> enums !! j = Some e0 ->
                   en_name e0 <> Some s).
  { intros j e0 Hj He0 Heq.
    assert (Ht : strcmp_eq (c_name (en_hdr e0)) s = Ok false).
    { apply (array_find_from_None _ _ _ _ E1 j e0); [lia|].
      rewrite list_lookup_insert_ne by lia. exact He0. }
    unfold strcmp_eq in Ht. fold (en_name e0) in Ht. rewrite Heq in Ht. simpl in Ht.
    rewrite String.eqb_refl in Ht. discriminate. }
  assert (Hs : exists s0, Some s = Some s0 /\ lyxml_get_attr child "name" = Some s0 /\
                          trimmed s0).
  { exists s. unfold trimmed. auto. }
  subst child'. simpl in H. unfold has_value.
  assert (Hauto : (v >? INT32_MAX) = false ->
    fill_yin_type_enums module root' (<[i := TypeEnum hdr v]> enums) (S i) (v + 1)
    = Ok enums' ->
    exists e v',
      (i < length enums)%nat /\
      fill_yin_type_enums module root' (<[i := e]> enums) (S i) v' = Ok enums' /\
      (exists s, en_name e = Some s /\ lyxml_get_attr child "name" = Some s /\
                 trimmed s) /\
      (forall j e0, (j < i)%nat -> enums !! j = Some e0 -> en_name e0 <> en_name e) /\
      en_value e = v /\ v <= INT32_MAX /\ v' = v + 1).
  { intros Ev H'. rewrite Z.gtb_ltb in Ev. apply Z.ltb_ge in Ev.
    exists (TypeEnum hdr v), (v + 1). unfold en_name. simpl. rewrite Hname.
    split; [exact Hi|]. split; [exact H'|]. split; [exact Hs|]. split; [exact Hnames|].
    auto. }
  destruct (filter (fun sub => negb (handled false sub)) (x_child child)) as [|node rest];
    [|destruct (named node "value")].
  - destruct (v >? INT32_MAX) eqn:Ev; [discriminate|].
    rewrite list_insert_insert_eq in H. apply Hauto; [reflexivity|exact H].
  - inv_bind H. rename a into value.
    destruct ((strtol value <? INT32_MIN) || (strtol value >? INT32_MAX))%bool eqn:Er;
      [discriminate|].
    apply orb_false_elim in Er. destruct Er as [Hlo Hhi].
    apply Z.ltb_ge in Hlo. rewrite Z.gtb_ltb in Hhi. apply Z.ltb_ge in Hhi.
    rewrite list_insert_insert_eq in H.
    destruct (strtol value >? v) eqn:Ev; rewrite Z.gtb_ltb in Ev.
    + apply Z.ltb_lt in Ev.
      exists (TypeEnum hdr (strtol value)), (strtol value + 1).
      unfold en_name. simpl. rewrite Hname.
      split; [exact Hi|]. split; [exact H|]. split; [exact Hs|]. split; [exact Hnames|].
      split; [lia|]. left. split; [exact Ev|reflexivity].
    + apply Z.ltb_ge in Ev.
      inv_bind H. destruct a as [dup|]; [discriminate|].
      exists (TypeEnum hdr (strtol value)), v.
      unfold en_name. simpl. rewrite Hname.
      split; [exact Hi|]. split; [exact H|]. split; [exact Hs|]. split; [exact Hnames|].
      split; [lia|]. right. split; [exact Ev|]. split; [reflexivity|].
      intros j e0 Hj He0 Heq.
      assert (Ht : Ok (en_value e0 =? strtol value) = Ok false).
      { apply (array_find_from_None (fun e => Ok (en_value e =? strtol value))
                 _ _ _ E2 j e0); [lia|].
        rewrite list_lookup_insert_ne by lia. exact He0. }
      injection Ht as Ht. apply Z.eqb_neq in Ht. contradiction.
  - destruct (v >? INT32_MAX) eqn:Ev; [discriminate|].
    rewrite list_insert_insert_eq in H. apply Hauto; [reflexivity|exact H].
Qed.

(** The loop over the enum statements: what it writes to the array. *)
Lemma fill_yin_type_enums_spec (module : mod_ptr) (root : list lyxml_elem) :
  forall enums i v enums',
  fill_yin_type_enums module root enums i v = Ok enums' ->
  0 <= v ->
  (forall j e, (j < i)%nat -> enums !! j = Some e -> en_value e <= v) ->
  length enums' = length enums /\ take i enums' = take i enums /\
  forall k en, root !! k = Some en ->
    exists e, enums' !! (i + k)%nat = Some e /\
      (exists s, en_name e = Some s /\ lyxml_get_attr en "name" = Some s /\ trimmed s) /\
      INT32_MIN <= en_value e <= INT32_MAX /\
      forall j e0, (j < i + k)%nat -> enums' !! j = Some e0 ->
        en_name e0 <> en_name e /\
        if has_value en then en_value e0 <> en_value e else en_value e0 <= en_value e.
Proof.
  induction root as [|child root' IH]; intros enums i v enums' H Hv Hle.
  - simpl in H. injection H as <-. split; [reflexivity|]. split; [reflexivity|].
    intros k en Hk. discriminate.
  - apply fill_yin_type_enums_step in H.
    destruct H as (e & v' & Hi & H & Hs & Hnames & Hval).
    assert (Hv' : v <= v' /\ en_value e <= v' /\ INT32_MIN <= en_value e <= INT32_MAX).
    { unfold INT32_MIN, INT32_MAX in *. destruct (has_value child); lia. }
    apply IH in H.
    2:{ lia. }
    2:{ intros j e0 Hj. destruct (decide (j = i)) as [->|Hji].
        - rewrite list_lookup_insert_eq by exact Hi. intros [= <-]. lia.
        - rewrite list_lookup_insert_ne by auto. intros He0.
          specialize (Hle j e0 ltac:(lia) He0). lia. }
    destruct H as (Hlen & Htake & Hrest).
    rewrite length_insert in Hlen.
    pose proof (take_eq_lookup _ _ _ Htake) as Hsame.
    split; [exact Hlen|]. split.
    { apply list_eq. intros j. rewrite !lookup_take.
      destruct (decide (j < i)%nat); [|reflexivity].
      rewrite Hsame by lia. apply list_lookup_insert_ne. lia. }
    intros [|k] en Hk.
    + injection Hk as <-. exists e. rewrite Nat.add_0_r.
      split; [rewrite Hsame by lia; apply list_lookup_insert_eq; exact Hi|].
      split; [exact Hs|]. split; [lia|].
      intros j e0 Hj He0. rewrite Hsame in He0 by lia.
      rewrite list_lookup_insert_ne in He0 by lia.
      split; [eapply Hnames; eauto; lia|].
      specialize (Hle j e0 ltac:(lia) He0).
      destruct (has_value child).
      * destruct Hval as (_ & [(Hlt & _)|(_ & _ & Hne)]); [lia|].
        apply (Hne j e0); [lia|exact He0].
      * lia.
    + simpl in Hk. destruct (Hrest k en Hk) as (e1 & He1 & Hs1 & Hr1 & Hbefore).
      exists e1. replace (i + S k)%nat with (S i + k)%nat by lia. auto.
Qed.

(** The enumeration branch of fill_yin_type, for a type structure as
    calloc leaves it. *)
Lemma fill_yin_type_enumeration (mem : memory) (module : mod_ptr)
  (parent : list ly_mnode) (yin : lyxml_elem) (type type' : ly_type) :
  fill_yin_type mem module parent yin type = Ok type' ->
  ty_base type' = LY_TYPE_ENUM ->
  enums_count type = 0%nat -> enums_list type = [] ->
  enums_count type' = length (enum_stmts yin) /\
  (enum_stmts yin = [] /\ enums_list type' = [] \/
   fill_yin_type_enums module (enum_stmts yin)
     (replicate (length (enum_stmts yin)) enum0) 0 0 = Ok (enums_list type')).
Proof.
  unfold fill_yin_type, enum_stmts. intros H Hbase Hcount Hlist.
  destruct (lyxml_get_attr yin "name") as [value|]; [|discriminate].
  set (typ := match strchr value ":" with
              | Some delim => with_ty_prefix type (Some (strndup value (ptr_diff delim value)))
              | None => type
              end) in H.
  assert (Hc : enums_count typ = 0%nat) by (subst typ; destruct (strchr value ":"); exact Hcount).
  assert (Hl : enums_list typ = []) by (subst typ; destruct (strchr value ":"); exact Hlist).
  clearbody typ.
  inv_bind H. destruct a as [p|]; [|discriminate].
  inv_bind H. rename a into d. simpl in H.
  destruct (ty_base (tp_type d)) eqn:Eb;
    try (injection H as <-; simpl in Hbase; congruence).
  2:{ destruct (x_child yin) as [|child next]; [discriminate|].
      destruct (negb (named child "base")); [discriminate|].
      destruct next; [|discriminate]. inv_bind H. injection H as <-.
      simpl in Hbase. congruence. }
  destruct (filter (fun node => negb (named node "enum")) (x_child yin));
    [|discriminate].
  rewrite Hc in H. simpl in H.
  set (root := filter (fun node => named node "enum") (x_child yin)) in *.
  destruct (length root) as [|n] eqn:Elen.
  - destruct (ty_der (tp_type d)); [|discriminate]. injection H as <-. simpl.
    apply length_zero_iff_nil in Elen. auto.
  - inv_bind H. injection H as <-. simpl. auto.
Qed.

(** X4: the enums of an accepted enumeration bear the names of its enum
    statements, in the order of the document; the names are not empty,
    have no white space at either end and are pairwise distinct.  The
    type structure is as calloc leaves it when the statement is read. *)
Theorem fill_yin_type_enum_names (mem : memory) (module : mod_ptr)
  (parent : list ly_mnode) (yin : lyxml_elem) (type type' : ly_type) :
  fill_yin_type mem module parent yin type = Ok type' ->
  ty_base type' = LY_TYPE_ENUM ->
  enums_count type = 0%nat -> enums_list type = [] ->
  length (enums_list type') = enums_count type' /\
  en_name <$> enums_list type' = (fun en => lyxml_get_attr en "name") <$> enum_stmts yin /\
  NoDup (en_name <$> enums_list type') /\
  Forall (fun e => exists s, en_name e = Some s /\ trimmed s) (enums_list type').
Proof.
  intros H Hbase Hcount Hlist.
  destruct (fill_yin_type_enumeration _ _ _ _ _ _ H Hbase Hcount Hlist)
    as (Hn & [(Hroot & Hnil)|E1]).
  - rewrite Hn, Hroot, Hnil. repeat split; constructor.
  - set (root := enum_stmts yin) in *. set (enums := enums_list type') in *.
    apply fill_yin_type_enums_spec in E1; [|lia|intros; lia].
    destruct E1 as (Hlen & _ & Hent). rewrite length_replicate in Hlen.
    rewrite Hn.
    split; [exact Hlen|].
    assert (Hnone : forall k, root !! k = None -> enums !! k = None).
    { intros k Hk. apply lookup_ge_None in Hk. apply lookup_ge_None. lia. }
    split; [|split].
    + apply list_eq. intros k. rewrite !list_lookup_fmap.
      destruct (root !! k) as [en|] eqn:Ek.
      * destruct (Hent k en Ek) as (e & He & (s & Hs & Ha & _) & _).
        simpl in He. rewrite He. simpl. congruence.
      * rewrite (Hnone k Ek). reflexivity.
    + apply NoDup_alt. intros a b x Ha Hb.
      rewrite list_lookup_fmap in Ha, Hb.
      destruct (enums !! a) as [ea|] eqn:Ea; [|discriminate].
      destruct (enums !! b) as [eb|] eqn:Eb'; [|discriminate].
      injection Ha as Ha. injection Hb as Hb.
      assert (Hlt : forall a b ea eb, (a < b)%nat -> enums !! a = Some ea ->
                    enums !! b = Some eb -> en_name ea <> en_name eb).
      { intros a' b' ea' eb' Hab Hea Heb.
        destruct (root !! b') as [en|] eqn:Ek;
          [|rewrite (Hnone b' Ek) in Heb; discriminate].
        destruct (Hent b' en Ek) as (e & He & _ & _ & Hbefore). simpl in He.
        rewrite Heb in He. injection He as <-.
        apply (Hbefore a' ea'); [simpl; lia|exact Hea]. }
      destruct (Nat.lt_trichotomy a b) as [Hab|[Hab|Hab]]; [|exact Hab|].
      * exfalso. apply (Hlt a b ea eb Hab Ea Eb'). congruence.
      * exfalso. apply (Hlt b a eb ea Hab Eb' Ea). congruence.
    + apply Forall_lookup. intros k e Hk.
      destruct (root !! k) as [en|] eqn:Ek;
        [|rewrite (Hnone k Ek) in Hk; discriminate].
      destruct (Hent k en Ek) as (e1 & He1 & (s & Hs & _ & Ht) & _). simpl in He1.
      rewrite Hk in He1. injection He1 as <-. eauto.
Qed.

Lemma fill_yin_type_enum_names_witness :
  exists type',
    fill_yin_type [module0] 0 [] enumeration_7_auto_3 type0 = Ok type' /\
    en_name <$> enums_list type' = [Some "a"; Some "b"; Some "c"] /\
    NoDup (en_name <$> enums_list type').
Proof.
  eexists. split; [vm_compute; reflexivity|].
  destruct (fill_yin_type_enum_names [module0] 0 [] enumeration_7_auto_3 type0 _
              eq_refl eq_refl eq_refl eq_refl) as (_ & Hnames & Hdup & _).
  split; [exact Hnames|exact Hdup].
Defined.

(** X5: the values of the enums of an accepted enumeration fit int32; a
    value that an enum statement states differs from the value of every
    enum before it, and a value that is assigned automatically is not
    below the value of any enum before it. *)
Theorem fill_yin_type_enum_values (mem : memory) (module : mod_ptr)
  (parent : list ly_mnode) (yin : lyxml_elem) (type type' : ly_type) :
  fill_yin_type mem module parent yin type = Ok type' ->
  ty_base type' = LY_TYPE_ENUM ->
  enums_count type = 0%nat -> enums_list type = [] ->
  Forall (fun e => INT32_MIN <= en_value e <= INT32_MAX) (enums_list type') /\
  forall i j en ei ej,
    enum_stmts yin !! i = Some en -> enums_list type' !! i = Some ei ->
    (j < i)%nat -> enums_list type' !! j = Some ej ->
    if has_value en then en_value ej <> en_value ei else en_value ej <= en_value ei.
Proof.
  intros H Hbase Hcount Hlist.
  destruct (fill_yin_type_enumeration _ _ _ _ _ _ H Hbase Hcount Hlist)
    as (Hn & [(Hroot & Hnil)|E1]).
  - rewrite Hroot, Hnil. split; [constructor|]. intros i j en ei ej Hi. discriminate.
  - set (root := enum_stmts yin) in *. set (enums := enums_list type') in *.
    apply fill_yin_type_enums_spec in E1; [|lia|intros; lia].
    destruct E1 as (Hlen & _ & Hent). rewrite length_replicate in Hlen.
    split.
    + apply Forall_lookup. intros k e Hk.
      destruct (root !! k) as [en|] eqn:Ek.
      * destruct (Hent k en Ek) as (e1 & He1 & _ & Hr & _). simpl in He1.
        rewrite Hk in He1. injection He1 as <-. exact Hr.
      * apply lookup_ge_None in Ek. apply lookup_lt_Some in Hk. lia.
    + intros i j en ei ej Hen Hei Hj Hej.
      destruct (Hent i en Hen) as (e1 & He1 & _ & _ & Hbefore). simpl in He1.
      rewrite Hei in He1. injection He1 as <-.
      apply (Hbefore j ej); [simpl; lia|exact Hej].
Qed.

Lemma fill_yin_type_enum_values_witness :
  exists type',
    fill_yin_type [module0] 0 [] enumeration_7_auto_3 type0 = Ok type' /\
    en_value <$> enums_list type' = [7; 8; 3] /\
    Forall (fun e => INT32_MIN <= en_value e <= INT32_MAX) (enums_list type').
Proof.
  eexists. split; [vm_compute; reflexivity|]. split; [reflexivity|].
  exact (proj1 (fill_yin_type_enum_values [module0] 0 [] enumeration_7_auto_3 type0 _
                  eq_refl eq_refl eq_refl eq_refl)).
Defined.

(** ** Identity references *)

(** The identity that a search without an identity to resolve finds has
    the name that was asked for and is counted by its module. *)
Lemma find_base_ident_sub_found (module : mod_ptr) (basename : string)
  (mem mem' : memory) (r : ident_ptr) :
  find_base_ident_sub module None basename mem = (Ok (Some r), mem') ->
  ident_name mem r = Some basename /\ (r.2 < ident_size (at_ mem r.1))%nat.
Proof.
  unfold find_base_ident_sub. intros H. inv_state H.
  match goal with
  | E : array_find _ _ _ = Ok ?a |- _ =>
      destruct a as [i|];
        [apply array_find_from_Some in E; destruct E as (Hi & (e & He & Ht) & _)|]
  end; inv_state H; simplify_eq.
  unfold ident_name, ident_at. simpl. rewrite He. simpl.
  split; [apply strcmp_eq_true; exact Ht|lia].
Qed.

Lemma find_base_ident_inc_found (module : mod_ptr) (name : string) (n : nat) :
  forall i mem mem' r,
  find_base_ident_inc module None name i n mem = (Ok (Some r), mem') ->
  ident_name mem r = Some name /\ (r.2 < ident_size (at_ mem r.1))%nat.
Proof.
  induction n as [|n IH]; intros i mem mem' r H; simpl in H.
  - inv_state H. discriminate.
  - inv_state H.
    match goal with
    | E : find_base_ident_sub _ _ _ _ = _ |- _ =>
        pose proof (find_base_ident_sub_spec _ _ _ _ _ _ E) as Hmem; simpl in Hmem;
        rename E into Hsub
    end.
    subst.
    match type of H with
    | match ?res with _ => _ end _ = _ => destruct res as [r0|]
    end.
    + inv_state H. simplify_eq.
      eapply find_base_ident_sub_found. exact Hsub.
    + eapply IH. exact H.
Qed.

Lemma find_base_ident_found (module : mod_ptr) (node : lyxml_elem)
  (mem mem' : memory) (r : ident_ptr) :
  find_base_ident module None node mem = (Ok r, mem') ->
  exists value, lyxml_get_attr node "name" = Some value /\
    ident_name mem r = Some (local_name value) /\ (r.2 < ident_size (at_ mem r.1))%nat.
Proof.
  unfold find_base_ident, local_name. intros H.
  destruct (lyxml_get_attr node "name") as [basename|]; [|discriminate].
  exists basename. split; [reflexivity|].
  apply bindS_Ok in H. destruct H as ([name prefix_len] & mem1 & E & H).
  inv_state E. cbv beta iota in H.
  assert (Hname : name = match strchr basename ":" with
                         | Some q => str_next q
                         | None => basename
                         end).
  { destruct (strchr basename ":").
    - match goal with E : mbind _ _ = Ok _ |- _ => inv_bind E; injection E as <- _ end.
      reflexivity.
    - match goal with E : Ok _ = Ok _ |- _ => injection E as <- _ end. reflexivity. }
  rewrite <- Hname. clear Hname.
  apply bindS_Ok in H. destruct H as (target & mem2 & Et & H).
  assert (Htarget : mem2 = mem /\
                    match target with
                    | inl r0 => ident_name mem r0 = Some name /\
                                (r0.2 < ident_size (at_ mem r0.1))%nat
                    | inr _ => True
                    end).
  { destruct prefix_len.
    - inv_state Et.
      match goal with
      | E : find_base_ident_inc _ _ _ _ _ _ = _ |- _ =>
          pose proof (find_base_ident_inc_spec _ _ _ _ _ _ _ _ E) as Hmem;
          simpl in Hmem; rename E into Hinc
      end.
      subst.
      match type of Et with
      | match ?res with _ => _ end _ = _ => destruct res as [r0|]
      end; inv_state Et; (split; [reflexivity|]); [|exact I].
      eapply find_base_ident_inc_found. exact Hinc.
    - inv_state Et.
      match type of Et with
      | match ?res with _ => _ end _ = _ => destruct res
      end; [|discriminate].
      inv_state Et. split; [reflexivity|exact I]. }
  destruct Htarget as [-> Htarget].
  destruct target as [r0|m'].
  - inv_state H. exact Htarget.
  - inv_state H.
    match type of H with
    | match ?res with _ => _ end _ = _ => destruct res as [r0|]
    end; [|discriminate].
    inv_state H.
    match goal with
    | E : find_base_ident_sub _ _ _ _ = _ |- _ =>
        eapply find_base_ident_sub_found; exact E
    end.
Qed.

(** X6: an accepted type statement whose base type is identityref has
    exactly one child, a base statement, and refers to an identity that
    exists: its name is the argument of the base statement without the
    prefix, and its module counts it among the identities it has read. *)
Theorem fill_yin_type_identityref (mem : memory) (module : mod_ptr)
  (parent : list ly_mnode) (yin : lyxml_elem) (type type' : ly_type) :
  fill_yin_type mem module parent yin type = Ok type' ->
  ty_base type' = LY_TYPE_IDENT ->
  exists base value r,
    x_child yin = [base] /\ named base "base" = true /\
    lyxml_get_attr base "name" = Some value /\
    ident_ref type' = Some r /\
    ident_name mem r = Some (local_name value) /\
    (r.2 < ident_size (at_ mem r.1))%nat.
Proof.
  unfold fill_yin_type. intros H Hbase.
  destruct (lyxml_get_attr yin "name") as [value|]; [|discriminate].
  inv_bind H. destruct a as [p|]; [|discriminate].
  inv_bind H. rename a into d. simpl in H.
  destruct (ty_base (tp_type d)) eqn:Eb;
    try (injection H as <-; simpl in Hbase; congruence).
  { destruct (filter (fun node => negb (named node "enum")) (x_child yin));
      [|discriminate].
    match type of H with
    | match ?c with O => _ | S _ => _ end = _ => destruct c
    end.
    - destruct (ty_der (tp_type d)); [|discriminate]. injection H as <-.
      simpl in Hbase. congruence.
    - inv_bind H. injection H as <-. simpl in Hbase. congruence. }
  destruct (x_child yin) as [|child next]; [discriminate|].
  destruct (named child "base") eqn:En; [|discriminate]. simpl in H.
  destruct next; [|discriminate]. inv_bind H. injection H as <-. rename a into r.
  destruct (find_base_ident module None child mem) as [res mem'] eqn:Ef.
  simpl in E1. subst res.
  apply find_base_ident_found in Ef. destruct Ef as (v & Hv & Hn & Hr).
  exists child, v, r. simpl. auto 10.
Qed.

Lemma fill_yin_type_identityref_witness :
  exists type' r,
    fill_yin_type mem_with_identities 0 []
      (type_stmt "identityref" [stmt "base" (arg "name" "m:a") []]) type0 = Ok type' /\
    ident_ref type' = Some r /\ ident_name mem_with_identities r = Some "a".
Proof.
  eexists. eexists. split; [vm_compute; reflexivity|].
  destruct (fill_yin_type_identityref mem_with_identities 0 []
              (type_stmt "identityref" [stmt "base" (arg "name" "m:a") []]) type0 _
              eq_refl eq_refl) as (base & value & r & Hc & _ & Hv & Hr & Hn & _).
  injection Hc as <-. injection Hv as <-. injection Hr as <-.
  split; [reflexivity|exact Hn].
Defined.

(** ** The lists of derived identities *)

Lemma ident_valid_update_ident (mem : memory) (p q : ident_ptr) (f : ly_ident -> ly_ident) :
  ident_valid mem q -> ident_valid (update_ident mem p f) q.
Proof.
  unfold ident_valid, update_ident. destruct p as [pm pi], q as [qm qi]. simpl.
  intros [Hm Hi]. unfold update at 1.
  rewrite length_insert. split; [exact Hm|].
  rewrite at_update. destruct (decide _) as [[-> _]|_]; [|exact Hi].
  simpl. rewrite length_insert. exact Hi.
Qed.

Lemma ident_at_update_ident_valid (mem : memory) (p : ident_ptr) (f : ly_ident -> ly_ident) :
  ident_valid mem p -> ident_at (update_ident mem p f) p = f (ident_at mem p).
Proof.
  intros [Hm Hi]. rewrite ident_at_update_ident. rewrite decide_True; auto.
Qed.

Lemma ident_name_update_ident (mem : memory) (p q : ident_ptr) (f : ly_ident -> ly_ident) :
  (forall x, id_hdr (f x) = id_hdr x) ->
  ident_name (update_ident mem p f) q = ident_name mem q.
Proof.
  intros Hf. unfold ident_name. rewrite ident_at_update_ident.
  destruct (decide _) as [(-> & _)|_]; [rewrite Hf|]; reflexivity.
Qed.

(** The loop over the chain of bases: the identity stays bound to its
    base, no name changes, and once the base itself has been visited the
    identity is the last entry of its list of derived identities. *)
Lemma link_derived_last (id b0 : ident_ptr) (fuel : nat) :
  forall base_iter mem u mem',
  link_derived fuel id base_iter mem = (Ok u, mem') ->
  ident_valid mem b0 -> base_of mem id = Some b0 ->
  base_iter = Some b0 \/ last (id_der (ident_at mem b0)) = Some id ->
  base_of mem' id = Some b0 /\
  (forall q, ident_name mem' q = ident_name mem q) /\
  last (id_der (ident_at mem' b0)) = Some id.
Proof.
  induction fuel as [|fuel IH]; intros base_iter mem u mem' H Hvalid Hbase Hlast;
    destruct base_iter as [b|]; simpl in H; try discriminate;
    try (injection H as _ <-; destruct Hlast as [|Hlast]; [discriminate|]; auto; fail).
  - fold (base_of mem id) in H. rewrite Hbase in H.
    destruct (id_der (ident_at mem b)) as [|d0 der] eqn:Eder.
    + apply IH in H.
      * destruct H as (Hb & Hn & Hl). split; [exact Hb|]. split; [|exact Hl].
        intros q. rewrite Hn. apply ident_name_update_ident. reflexivity.
      * apply ident_valid_update_ident. exact Hvalid.
      * rewrite base_of_update_ident_kept by reflexivity. exact Hbase.
      * right. rewrite ident_at_update_ident_valid by exact Hvalid. reflexivity.
    + apply IH in H.
      * destruct H as (Hb & Hn & Hl). split; [exact Hb|]. split; [|exact Hl].
        intros q. rewrite Hn. apply ident_name_update_ident. reflexivity.
      * apply ident_valid_update_ident. exact Hvalid.
      * rewrite base_of_update_ident_kept by reflexivity. exact Hbase.
      * right. destruct (decide (b = b0)) as [->|Hne].
        -- rewrite ident_at_update_ident_valid by exact Hvalid. cbn [id_der].
           change (last ((d0 :: der) ++ [id]) = Some id). apply last_snoc.
        -- rewrite ident_at_update_ident.
           rewrite decide_False by (intros (? & _); congruence).
           destruct Hlast as [|Hlast]; [congruence|exact Hlast].
Qed.

(** X7: when the base of an identity of the store is resolved in a
    module, the identity is bound to the first identity of that name
    that the module has read, and it is the last entry of the list of
    derived identities of that base. *)
Theorem find_base_ident_sub_derived (module : mod_ptr) (id b : ident_ptr)
  (basename : string) (mem mem' : memory) :
  find_base_ident_sub module (Some id) basename mem = (Ok (Some b), mem') ->
  ident_valid mem id ->
  base_of mem' id = Some b /\
  b.1 = module /\ (b.2 < ident_size (at_ mem module))%nat /\
  ident_name mem' b = Some basename /\
  (forall j, (j < b.2)%nat -> ident_name mem (module, j) <> Some basename) /\
  last (id_der (ident_at mem' b)) = Some id.
Proof.
  unfold find_base_ident_sub. intros H Hid. inv_state H.
  match goal with
  | E : array_find _ _ _ = Ok ?a |- _ =>
      destruct a as [i|];
        [apply array_find_from_Some in E; destruct E as (Hi & (e & He & Ht) & Hfirst)|]
  end; inv_state H; simplify_eq.
  set (mem1 := update_ident mem id
                 (fun x => Ident (id_hdr x) (Some (module, i)) (id_der x))) in *.
  assert (Hb0 : ident_valid mem (module, i)).
  { unfold ident_valid. simpl. apply lookup_lt_Some in He. split; [|exact He].
    destruct (decide (module < length mem)%nat) as [Hm|Hm]; [exact Hm|].
    unfold at_ in He. rewrite lookup_ge_None_2 in He by lia. simpl in He. lia. }
  match goal with
  | E : link_derived _ _ _ _ = _ |- _ =>
      apply (link_derived_last id (module, i)) in E;
        [destruct E as (Hbase & Hn & Hl)| | |left; reflexivity]
  end.
  - match goal with
    | E : id_base (ident_at ?m id) = Some b |- _ =>
        change (base_of m id = Some b) in E; rewrite Hbase in E; injection E as <-
    end.
    split; [exact Hbase|]. split; [reflexivity|]. split; [simpl; lia|].
    split; [|split; [|exact Hl]].
    + rewrite Hn. unfold mem1. rewrite ident_name_update_ident by reflexivity.
      unfold ident_name, ident_at. simpl. rewrite He. apply strcmp_eq_true. exact Ht.
    + intros j Hj Hname. simpl in Hj.
      destruct (ident (at_ mem module) !! j) as [ej|] eqn:Ej.
      * specialize (Hfirst j ej ltac:(lia) Ej).
        unfold ident_name, ident_at in Hname. simpl in Hname. rewrite Ej in Hname.
        simpl in Hname. rewrite Hname in Hfirst. unfold strcmp_eq in Hfirst.
        simpl in Hfirst. rewrite String.eqb_refl in Hfirst. discriminate.
      * apply lookup_ge_None in Ej. apply lookup_lt_Some in He. lia.
  - apply ident_valid_update_ident. exact Hb0.
  - unfold mem1, base_of. rewrite ident_at_update_ident_valid by exact Hid. reflexivity.
Qed.

Lemma find_base_ident_sub_derived_witness :
  exists mem',
    find_base_ident_sub 0 (Some (0, 1)%nat) "x" one_identity_read
    = (Ok (Some (0, 0)%nat), mem') /\
    base_of mem' (0, 1)%nat = Some (0, 0)%nat /\
    last (id_der (ident_at mem' (0, 0)%nat)) = Some (0, 1)%nat.
Proof.
  eexists. split; [vm_compute; reflexivity|].
  destruct (find_base_ident_sub_derived 0 (0, 1)%nat (0, 0)%nat "x" one_identity_read _
              eq_refl) as (Hb & _ & _ & _ & _ & Hl).
  - split; simpl; lia.
  - split; [exact Hb|exact Hl].
Defined.

(** ** The statements of a module *)

Lemma first_run_yin_only (submodule : bool) (children : list lyxml_elem) :
  forall acc,
  fold_left (first_run_step submodule) children acc =
  fold_left (first_run_step submodule)
    (filter (fun node => x_ns node = Some LY_NSYIN) children) acc.
Proof.
  induction children as [|node next IH]; intros acc; [reflexivity|].
  rewrite filter_cons. destruct (decide (x_ns node = Some LY_NSYIN)) as [Hns|Hns].
  - simpl. apply IH.
  - simpl. rewrite <- IH. f_equal.
    unfold first_run_step. destruct acc as [st| |]; simpl; try reflexivity.
    rewrite bool_decide_eq_false_2 by exact Hns. simpl. destruct st. reflexivity.
Qed.

Lemma bindS_cong {S A B} (c c' : S -> result A * S) (k : A -> S -> result B * S)
  (mem : S) :
  c mem = c' mem -> bindS c k mem = bindS c' k mem.
Proof. unfold bindS. intros ->. reflexivity. Qed.

(** X8: read_sub_module skips the children of the document element that
    are not in the YIN namespace (or have no namespace): with them or
    without them the module is read to the same store, with the same
    outcome. *)
Theorem read_sub_module_yin_only (L : ly_loader) (module : mod_ptr) (yin : lyxml_elem)
  (submodule : bool) (w : world) :
  read_sub_module L module yin submodule w =
  read_sub_module L module (yin_only yin) submodule w.
Proof.
  unfold read_sub_module, yin_only. cbn [x_child].
  apply bindS_cong. unfold in_ctx, reads. cbn [fst snd].
  rewrite <- first_run_yin_only. reflexivity.
Qed.

(** *** What the reading of a module writes *)










(** ** The registration of a new module *)

(** The walk over a list whose first [used] slots hold modules and whose
    next slot is NULL can only end at that slot. *)
Lemma first_free_slot_Ok (mem : memory) (module : mod_ptr) (l : list slot) (used : nat) :
  (forall i, (i < used)%nat -> exists m, l !! i = Some (Ptr m)) ->
  l !! used = Some Null ->
  forall n i k, (i <= used)%nat -> first_free_slot mem module l i n = Ok k -> k = used.
Proof.
  intros Hused Hnull. induction n as [|n IH]; intros i k Hi H; simpl in H; [discriminate|].
  destruct (decide (i = used)) as [->|Hne].
  - rewrite Hnull in H. simpl in H. congruence.
  - destruct (Hused i ltac:(lia)) as (m & Hm). rewrite Hm in H. simpl in H.
    inv_bind H. inv_bind H.
    assert (Hnext : first_free_slot mem module l (S i) n = Ok k -> k = used).
    { apply IH. lia. }
    destruct (String.eqb a a0); [|exact (Hnext H)].
    destruct (rev_size (at_ mem m)), (rev_size (at_ mem module));
      try discriminate; try exact (Hnext H).
    inv_bind H. inv_bind H.
    destruct (String.eqb (rev_date a1) (rev_date a2)); [discriminate|exact (Hnext H)].
Qed.

(** The walk passes every module that is not a duplicate of the new one
    and ends at the first free slot. *)
Lemma first_free_slot_new (mem : memory) (module : mod_ptr) (l : list slot) (used : nat) :
  (forall i, (i < used)%nat ->
     exists m, l !! i = Some (Ptr m) /\ is_Some (m_name (at_ mem m)) /\
               revision_at_0 (at_ mem m) /\
               ~ duplicates (at_ mem m) (at_ mem module)) ->
  is_Some (m_name (at_ mem module)) ->
  revision_at_0 (at_ mem module) ->
  l !! used = Some Null ->
  forall n i, (i <= used)%nat -> (used - i < n)%nat ->
  first_free_slot mem module l i n = Ok used.
Proof.
  intros Hused (n2 & Hn2) Hrev Hnull.
  induction n as [|n IH]; intros i Hi Hn; [lia|]. simpl.
  destruct (decide (i = used)) as [->|Hne].
  - rewrite Hnull. reflexivity.
  - destruct (Hused i ltac:(lia)) as (m & Hm & (n1 & Hn1) & Hrm & Hdup).
    rewrite Hm. simpl. rewrite Hn1, Hn2. simpl.
    assert (Hnext : first_free_slot mem module l (S i) n = Ok used) by (apply IH; lia).
    destruct (String.eqb_spec n1 n2) as [->|_]; [|exact Hnext].
    assert (Hsame : is_Some (m_name (at_ mem m)) /\
                    m_name (at_ mem m) = m_name (at_ mem module)).
    { rewrite Hn1, Hn2. eauto. }
    destruct (rev_size (at_ mem m)) as [|s1] eqn:Es1,
             (rev_size (at_ mem module)) as [|s2] eqn:Es2; try exact Hnext.
    + exfalso. apply Hdup. unfold duplicates. rewrite Es1, Es2. tauto.
    + destruct (Hrm ltac:(lia)) as (r1 & Hr1). destruct (Hrev ltac:(lia)) as (r2 & Hr2).
      rewrite Hr1, Hr2. simpl.
      destruct (String.eqb_spec (rev_date r1) (rev_date r2)) as [Hd|_]; [|exact Hnext].
      exfalso. apply Hdup. unfold duplicates. rewrite Es1, Es2.
      split; [tauto|]. split; [tauto|]. right.
      split; [lia|]. split; [lia|]. eauto.
Qed.

(** The module that has been read is in the store, with a name and,
    if it has revisions, one at position 0. *)
Lemma module_read_card (L : ly_loader) (lyxml_read : string -> option lyxml_elem)
  (ctx ctx1 : ly_ctx) (mem mem1 : memory) (data : string) :
  loads_der_only L ->
  module_read L lyxml_read ctx mem data = Some (ctx1, mem1) ->
  (length mem < length mem1)%nat /\
  is_Some (m_name (at_ mem1 (length mem))) /\
  revision_at_0 (at_ mem1 (length mem)).
Proof.
  intros HL Hread.
  destruct (module_read_reading _ _ _ _ _ _ HL Hread) as (value & [_ _ _ Hname Hrev Ha]).
  simpl in *. rewrite length_app in Ha. simpl in Ha.
  split; [lia|]. split; [rewrite Hname; eauto|exact Hrev].
Qed.

(** X9: when yin_read_module succeeds and the context, as the imports
    of the module have left it, is well-formed and has a free slot, the
    new module is the object that was allocated first, behind the store
    as it was; it takes the first free slot of the list, after the
    modules registered before, and the context is well-formed again. *)
Theorem yin_read_module_registers
  (L : ly_loader) (lyxml_read : string -> option lyxml_elem) (sizeof_ptr : nat)
  (ctx ctx1 ctx' : ly_ctx) (mem mem' : memory) (data : string) (m : mod_ptr) :
  loads_der_only L ->
  module_read L lyxml_read ctx mem data = Some (ctx1, mem') ->
  ctx_wf ctx1 mem' ->
  (models_used ctx1 < models_size ctx1)%nat ->
  yin_read_module L lyxml_read sizeof_ptr ctx mem data = (Ok m, ctx', mem') ->
  m = length mem /\ (length mem < length mem')%nat /\
  ctx' = Ctx (<[models_used ctx1 := Ptr m]> (models_list ctx1))
             (S (models_used ctx1)) (models_size ctx1) /\
  registered ctx' = registered ctx1 ++ [Ptr m] /\
  ctx_wf ctx' mem'.
Proof.
  intros HL Hread Hwf Hroom H.
  destruct (module_read_card _ _ _ _ _ _ _ HL Hread) as (Hlen1 & Hname & Hrev).
  destruct Hwf as [Hlen Hused Hfree].
  assert (Hctx : m = length mem /\
                 ctx' = Ctx (<[models_used ctx1 := Ptr (length mem)]> (models_list ctx1))
                            (S (models_used ctx1)) (models_size ctx1)).
  { unfold yin_read_module in H. unfold module_read in Hread.
    destruct (lyxml_read data) as [yin|]; [|discriminate].
    destruct (negb (named yin "module")); [discriminate|].
    destruct (lyxml_get_attr yin "name") as [value|]; [|discriminate].
    destruct (read_sub_module _ _ _ _ _) as [[[]| |] [ctx2 mem2]]; try discriminate.
    injection Hread as -> ->.
    rewrite grow_models_room in H by assumption.
    destruct (first_free_slot _ _ _ _ _) as [k| |] eqn:Ef; try discriminate.
    apply (first_free_slot_Ok _ _ _ (models_used ctx1)) in Ef.
    - subst k. injection H as <- <-. auto.
    - intros i Hi. destruct (Hused i Hi) as (m0 & Hm0 & _). eauto.
    - apply Hfree. lia.
    - lia. }
  destruct Hctx as (-> & ->).
  split; [reflexivity|]. split; [exact Hlen1|]. split; [reflexivity|]. split.
  - unfold registered. simpl.
    rewrite (take_S_r _ _ (Ptr (length mem)))
      by (apply list_lookup_insert_eq; lia).
    rewrite take_insert_ge by lia. reflexivity.
  - constructor; simpl.
    + rewrite length_insert. exact Hlen.
    + intros i Hi. destruct (decide (i = models_used ctx1)) as [->|Hne].
      * exists (length mem). rewrite list_lookup_insert_eq by lia.
        split; [reflexivity|]. split; [lia|]. split; [exact Hname|exact Hrev].
      * destruct (Hused i ltac:(lia)) as (m & Hm & Hlt & Hnm & Hrm).
        exists m. rewrite list_lookup_insert_ne by auto. auto.
    + intros i Hi. rewrite list_lookup_insert_ne by lia. apply Hfree. lia.
Qed.

Lemma yin_read_module_registers_witness :
  read_doc module_with_revision (Ctx [Null; Null] 0 2) [] = (Ok 0%nat, ctx_with_m, mem_with_m)
  /\ registered ctx_with_m = [Ptr 0] /\ ctx_wf ctx_with_m mem_with_m.
Proof.
  split; [vm_compute; reflexivity|].
  destruct (yin_read_module_registers no_files (fun _ => Some module_with_revision) 8
              (Ctx [Null; Null] 0 2) (Ctx [Null; Null] 0 2) ctx_with_m [] mem_with_m "" 0)
    as (_ & _ & _ & Hreg & Hwf).
  - split; intros; split; [simpl; lia | reflexivity | simpl; lia | reflexivity].
  - vm_compute. reflexivity.
  - constructor.
    + reflexivity.
    + intros i Hi. simpl in Hi. lia.
    + intros i Hi. simpl in Hi. destruct i as [|[|i]]; [reflexivity | reflexivity | lia].
  - simpl. lia.
  - vm_compute. reflexivity.
  - split; [exact Hreg|exact Hwf].
Defined.

(** X10: when a module has been read and the context, as the imports of
    the module have left it, is well-formed and has a free slot, a
    module that is not a duplicate of any registered module (another
    name, another latest revision, or a revision on one side only) is
    registered in the first free slot. *)
Theorem new_module_registered
  (L : ly_loader) (lyxml_read : string -> option lyxml_elem) (sizeof_ptr : nat)
  (ctx ctx1 : ly_ctx) (mem mem1 : memory) (data : string) :
  loads_der_only L ->
  module_read L lyxml_read ctx mem data = Some (ctx1, mem1) ->
  ctx_wf ctx1 mem1 ->
  (models_used ctx1 < models_size ctx1)%nat ->
  (forall k other, (k < models_used ctx1)%nat ->
     models_list ctx1 !! k = Some (Ptr other) ->
     ~ duplicates (at_ mem1 other) (at_ mem1 (length mem))) ->
  yin_read_module L lyxml_read sizeof_ptr ctx mem data
  = (Ok (length mem),
     Ctx (<[models_used ctx1 := Ptr (length mem)]> (models_list ctx1))
         (S (models_used ctx1)) (models_size ctx1),
     mem1).
Proof.
  intros HL Hread Hwf Hroom Hnew.
  destruct (module_read_card _ _ _ _ _ _ _ HL Hread) as (Hlen1 & Hname & Hrev).
  destruct Hwf as [Hlen Hused Hfree].
  unfold module_read in Hread. unfold yin_read_module.
  destruct (lyxml_read data) as [yin|]; [|discriminate].
  destruct (negb (named yin "module")); [discriminate|].
  destruct (lyxml_get_attr yin "name") as [value|]; [|discriminate].
  destruct (read_sub_module _ _ _ _ _) as [[[]| |] [ctx2 mem2]] eqn:E; try discriminate.
  injection Hread as -> ->.
  rewrite grow_models_room by assumption.
  rewrite (first_free_slot_new mem1 (length mem) (models_list ctx1) (models_used ctx1));
    auto; try lia.
  intros i Hi. destruct (Hused i Hi) as (m & Hm & Hlt & Hnm & Hrm).
  exists m. split; [exact Hm|]. split; [exact Hnm|]. split; [exact Hrm|].
  apply (Hnew i m Hi Hm).
Qed.

Lemma new_module_registered_witness :
  yin_read_module no_files (fun _ => Some (module_m [])) 8 ctx_with_m mem_with_m ""
  = (Ok 1%nat, Ctx [Ptr 0; Ptr 1] 2 2, mem_with_m_and_m).
Proof.
  apply (new_module_registered no_files (fun _ => Some (module_m [])) 8
           ctx_with_m ctx_with_m mem_with_m mem_with_m_and_m "").
  - split; intros; split; [simpl; lia | reflexivity | simpl; lia | reflexivity].
  - vm_compute. reflexivity.
  - constructor.
    + reflexivity.
    + intros i Hi. destruct i as [|i]; [|simpl in Hi; lia].
      exists 0%nat. split; [reflexivity|]. split; [vm_compute; lia|].
      split; [eexists; vm_compute; reflexivity|]. intros _. eexists. vm_compute. reflexivity.
    + intros i Hi. simpl in Hi. destruct i as [|[|i]]; [lia | reflexivity | lia].
  - simpl. lia.
  - intros k other Hk Hother (_ & _ & [(H1 & _)|(_ & H2 & _)]).
    + simpl in Hk. destruct k as [|k]; [|lia]. injection Hother as <-.
      vm_compute in H1. discriminate.
    + vm_compute in H2. lia.
Defined.





(** An import that is not among the modules of the context is read from
    the search directory and registered, before the module that imports
    it; the base of an identity is found in it. *)
Example import_loaded_from_directory :
  let r := yin_read_module dir_with_x (fun _ => Some module_importing_x) 8 fresh_ctx [] "" in
  r.1.1 = Ok 0%nat /\ registered r.1.2 = [Ptr 1; Ptr 0] /\
  m_name <$> r.2 = [Some "m"; Some "x"] /\
  base_of r.2 (0, 0)%nat = Some (1, 0)%nat.
Proof. repeat split; vm_compute; reflexivity. Qed.



Lemma first_run_step_head (st0 st1 : first_run) (node : lyxml_elem) :
  first_run_step false (Ok st0) node = Ok st1 ->
  m_name (fr_module st1) = m_name (fr_module st0) /\
  m_ns (fr_module st1) =
    (if decide (x_ns node = Some LY_NSYIN /\ named node "namespace" = true)
     then lyxml_get_attr node "uri" else m_ns (fr_module st0)) /\
  m_prefix (fr_module st1) =
    (if decide (x_ns node = Some LY_NSYIN /\ named node "prefix" = true)
     then lyxml_get_attr node "value" else m_prefix (fr_module st0)).
Proof.
  unfold first_run_step. simpl. intros H.
  destruct (bool_decide (x_ns node = Some LY_NSYIN)) eqn:Ens; simpl in H.
  2:{ injection H as <-. simpl. apply bool_decide_eq_false in Ens.
      rewrite !decide_False by tauto. auto. }
  apply bool_decide_eq_true in Ens.
  destruct (named node "namespace") eqn:En; simpl in H.
  { destruct (lyxml_get_attr node "uri") eqn:Eu; [|discriminate].
    injection H as <-. simpl. rewrite decide_True by auto.
    rewrite decide_False; [auto|].
    intros [_ Hp]. unfold named in *. apply String.eqb_eq in En. rewrite En in Hp.
    discriminate. }
  destruct (named node "prefix") eqn:Ep; simpl in H.
  { destruct (lyxml_get_attr node "value") eqn:Eu; [|discriminate].
    injection H as <-. simpl. rewrite decide_False by (intros [_ ?]; discriminate).
    rewrite decide_True by auto. auto. }
  rewrite !decide_False by (intros [_ ?]; congruence).
  repeat match type of H with
         | (if ?c then _ else _) = _ => destruct c
         | mbind _ _ = Ok _ => inv_bind H
         end;
    try discriminate; injection H as <-; simpl; auto.
Qed.

(** The first run of a module: the name is left alone, the namespace and
    the prefix are those of the last statement of their kind. *)
Lemma first_run_head (children : list lyxml_elem) :
  forall st0 st,
  fold_left (first_run_step false) children (Ok st0) = Ok st ->
  m_name (fr_module st) = m_name (fr_module st0) /\
  m_ns (fr_module st) =
    match last_stmt "namespace" children with
    | Some s => lyxml_get_attr s "uri"
    | None => m_ns (fr_module st0)
    end /\
  m_prefix (fr_module st) =
    match last_stmt "prefix" children with
    | Some s => lyxml_get_attr s "value"
    | None => m_prefix (fr_module st0)
    end.
Proof.
  induction children as [|node next IH]; intros st0 st H; cbn [fold_left] in H.
  - injection H as <-. auto.
  - destruct (first_run_step false (Ok st0) node) as [st1|d|] eqn:E.
    + apply first_run_step_head in E. destruct E as (En & Ens & Ep).
      apply IH in H. destruct H as (Hn & Hns & Hp).
      split; [congruence|].
      unfold last_stmt in *. rewrite !filter_cons.
      split.
      * rewrite Hns, Ens. clear.
        destruct (decide (x_ns node = Some LY_NSYIN /\ named node "namespace" = true));
          [rewrite last_cons|]; destruct (last _); reflexivity.
      * rewrite Hp, Ep. clear.
        destruct (decide (x_ns node = Some LY_NSYIN /\ named node "prefix" = true));
          [rewrite last_cons|]; destruct (last _); reflexivity.
    + rewrite fold_left_Err in H by reflexivity. discriminate.
    + rewrite fold_left_Undef in H by reflexivity. discriminate.
Qed.

(** X12: a module that yin_read_module has registered bears the name of
    the document element, the namespace of its last namespace statement
    and the prefix of its last prefix statement, and all three are
    present; the headers of the modules that were in the store before
    are as they were. *)
Theorem registered_module_header
  (L : ly_loader) (lyxml_read : string -> option lyxml_elem) (sizeof_ptr : nat)
  (ctx ctx' : ly_ctx) (mem mem' : memory) (data : string) (m : mod_ptr) :
  loads_der_only L ->
  yin_read_module L lyxml_read sizeof_ptr ctx mem data = (Ok m, ctx', mem') ->
  (exists yin ns prefix name uri value,
     lyxml_read data = Some yin /\ named yin "module" = true /\
     lyxml_get_attr yin "name" = Some name /\
     last_stmt "namespace" (x_child yin) = Some ns /\
     lyxml_get_attr ns "uri" = Some uri /\
     last_stmt "prefix" (x_child yin) = Some prefix /\
     lyxml_get_attr prefix "value" = Some value /\
     m_name (at_ mem' m) = Some name /\
     m_ns (at_ mem' m) = Some uri /\
     m_prefix (at_ mem' m) = Some value) /\
  forall m0, (m0 < length mem)%nat -> head_of (at_ mem' m0) = head_of (at_ mem m0).
Proof.
  intros HL. unfold yin_read_module. intros H.
  destruct (lyxml_read data) as [yin|]; [|discriminate].
  destruct (named yin "module") eqn:Emod; [|discriminate]. cbn [negb] in H.
  destruct (lyxml_get_attr yin "name") as [name|] eqn:Ename; [|discriminate].
  set (mem0 := mem ++ [with_m_name module0 (Some name)]) in *.
  destruct (read_sub_module L (length mem) yin false (ctx, mem0))
    as [[[]| |] [ctx2 mem2]] eqn:E; try discriminate.
  destruct (grow_models sizeof_ptr ctx2); try discriminate.
  destruct (first_free_slot _ _ _ _ _); try discriminate.
  injection H as <- _ <-.
  unfold read_sub_module in E.
  apply bindS_Ok in E. destruct E as (st & [ctx1 mem1] & E & H). inv_state E.
  match goal with
  | E : fold_left _ _ _ = Ok st |- _ =>
      apply first_run_head in E; destruct E as (Hn & Hns & Hp)
  end.
  unfold mem0 in Hn, Hns, Hp. rewrite at_app_new in Hn, Hns, Hp. simpl in Hn, Hns, Hp.
  apply bindS_Ok in H. destruct H as (u1 & [ctx1 mem1'] & E & H). inv_state E.
  set (mem1 := update mem0 (length mem) (fun _ => fr_module st)) in *.
  apply bindS_Ok in H. destruct H as (u2 & [ctx3 mem3] & E & H).
  assert (Hcheck : (ctx3, mem3) = (ctx, mem1) /\ is_some (m_ns (fr_module st)) = true /\
                   is_some (m_prefix (fr_module st)) = true).
  { destruct (is_some (m_ns (fr_module st))); simpl in E; [|discriminate].
    destruct (is_some (m_prefix (fr_module st))); simpl in E; [|discriminate].
    apply retS_Ok in E. destruct E as (_ & E). auto. }
  destruct Hcheck as (Hw & Hcns & Hcp). injection Hw as -> ->. clear E.
  pose proof (later_runs_frame L (length mem) st HL (ctx, mem1)) as [Hlen F].
  rewrite H in Hlen, F. simpl in Hlen, F.
  assert (Hl1 : length mem1 = S (length mem)).
  { unfold mem1. rewrite length_update. unfold mem0. rewrite length_app. simpl. lia. }
  assert (Hnew : at_ mem1 (length mem) = fr_module st).
  { unfold mem1. rewrite at_update. rewrite decide_True; [reflexivity|].
    split; [reflexivity|]. unfold mem0. rewrite length_app. simpl. lia. }
  split.
  - destruct (last_stmt "namespace" (x_child yin)) as [ns|] eqn:Elns;
      [|rewrite Hns in Hcns; discriminate].
    destruct (last_stmt "prefix" (x_child yin)) as [prefix|] eqn:Elp;
      [|rewrite Hp in Hcp; discriminate].
    destruct (lyxml_get_attr ns "uri") as [uri|] eqn:Euri;
      [|rewrite Hns in Hcns; discriminate].
    destruct (lyxml_get_attr prefix "value") as [value|] eqn:Evalue;
      [|rewrite Hp in Hcp; discriminate].
    exists yin, ns, prefix, name, uri, value.
    specialize (F (length mem) ltac:(lia)). rewrite Hnew in F. unfold head_of in F.
    injection F as F1 F2 F3 _ _ _ _ _.
    repeat split; auto; congruence.
  - intros m0 Hm0. rewrite F by lia. unfold mem1. rewrite at_update_other by lia.
    unfold mem0. rewrite at_app_old by exact Hm0. reflexivity.
Qed.

Lemma registered_module_header_witness :
  read_doc module_with_revision (Ctx [Null; Null] 0 2) [] = (Ok 0%nat, ctx_with_m, mem_with_m)
  /\ m_name (at_ mem_with_m 0) = Some "m" /\ m_ns (at_ mem_with_m 0) = Some "urn:m"
  /\ m_prefix (at_ mem_with_m 0) = Some "m".
Proof.
  split; [vm_compute; reflexivity|].
  destruct (registered_module_header no_files (fun _ => Some module_with_revision) 8
              (Ctx [Null; Null] 0 2) ctx_with_m [] mem_with_m "" 0)
    as ((yin & ns & prefix & name & uri & value & Hy & _ & Hname & Hns & Huri & Hp &
         Hvalue & Hn1 & Hn2 & Hn3) & _).
  - split; intros; split; [simpl; lia | reflexivity | simpl; lia | reflexivity].
  - vm_compute. reflexivity.
  - injection Hy as <-.
    vm_compute in Hname. injection Hname as <-.
    vm_compute in Hns. injection Hns as <-.
    vm_compute in Huri. injection Huri as <-.
    vm_compute in Hp. injection Hp as <-.
    vm_compute in Hvalue. injection Hvalue as <-.
    split; [exact Hn1|]. split; [exact Hn2|exact Hn3].
Defined.

(** ** The children of a node *)

Lemma same_but_tpdf_refl (a : ly_mnode) : same_but_tpdf a a.
Proof. reflexivity. Qed.

Lemma same_but_tpdf_trans (a b c : ly_mnode) :
  same_but_tpdf a b -> same_but_tpdf b c -> same_but_tpdf a c.
Proof. unfold same_but_tpdf. congruence. Qed.

Lemma same_but_tpdf_members (a b : ly_mnode) :
  same_but_tpdf a b ->
  mn_hdr a = mn_hdr b /\ nodetype a = nodetype b /\ mn_child a = mn_child b.
Proof.
  unfold same_but_tpdf. intros H.
  split; [exact (f_equal mn_hdr H)|].
  split; [exact (f_equal nodetype H)|exact (f_equal mn_child H)].
Qed.

Lemma fill_yin_typedef_parent_tpdf (module : mod_ptr) (yin : lyxml_elem) (i : nat)
  (mem : memory) (p : ly_mnode) (up : list ly_mnode) (e : place_env) :
  fill_yin_typedef module yin (AtParent i) (mem, p :: up) = Ok e ->
  exists p', e = (mem, p' :: up) /\ same_but_tpdf p' p.
Proof.
  unfold fill_yin_typedef. intros H.
  inv_bind H. inv_bind H. cbv zeta in H. inv_bind H. inv_bind H.
  destruct (ty_der (tp_type a2)); [|discriminate]. injection H as <-.
  refine (fold_left_Ok_inv _
            (fun e => exists p', e = (mem, p' :: up) /\ same_but_tpdf p' p)
            _ _ _ _ _ _ _ E1).
  - reflexivity.
  - reflexivity.
  - intros e0 node e1 _ (p0 & -> & Hp0) Hstep.
    unfold fill_yin_typedef_step in Hstep. simpl in Hstep. inv_bind Hstep.
    assert (Hset : forall t', exists p', place_set module (AtParent i) t' (mem, p0 :: up)
                                        = (mem, p' :: up) /\ same_but_tpdf p' p).
    { intros t'. eexists. split; [reflexivity|].
      eapply same_but_tpdf_trans; [|exact Hp0]. reflexivity. }
    repeat match type of Hstep with
           | (if ?c then _ else _) = _ => destruct c
           | mbind _ _ = Ok _ => inv_bind Hstep
           | match ?c with _ => _ end = _ => destruct c; try discriminate
           end;
      try discriminate; try (injection Hstep as <-); try apply Hset; eauto.
  - eexists. split; [reflexivity|]. reflexivity.
Qed.

(** The middle run of a container, list or grouping writes nothing but
    the typedefs of the node. *)
Lemma read_typedefs_same_but_tpdf (mem : memory) (module : mod_ptr)
  (retval : ly_mnode) (children : list lyxml_elem) (r : ly_mnode) :
  read_typedefs mem module retval children = Ok r -> same_but_tpdf r retval.
Proof.
  unfold read_typedefs. intros H. inv_bind H. injection H as <-.
  set (start := match length (filter _ children) with O => retval | S _ => _ end) in E.
  assert (Hstart : same_but_tpdf start retval).
  { subst start. destruct (length _); reflexivity. }
  refine (fold_left_Ok_inv _ (fun rc => same_but_tpdf rc.1 retval) _ _ _ _ _ _ _ E).
  - reflexivity.
  - reflexivity.
  - intros [r0 c0] sub [r1 c1] _ Hr0 Hstep. simpl in *.
    destruct (named sub "typedef").
    + inv_bind Hstep. inv_bind Hstep. injection Hstep as <- <-.
      apply fill_yin_typedef_parent_tpdf in E0. destruct E0 as (p' & -> & Hp').
      simpl in E1. injection E1 as <-. eapply same_but_tpdf_trans; eauto.
    + injection Hstep as <- <-. exact Hr0.
  - exact Hstart.
Qed.

(** The last run leaves the header and the kind of the node alone. *)
Lemma read_data_nodes_kind
  (container leaflist leaf list_ choice grouping : list ly_mnode -> lyxml_elem -> result ly_mnode)
  (uses : list ly_mnode -> lyxml_elem -> bool -> result ly_mnode)
  (resolve : bool) (subs : list lyxml_elem) :
  forall retval r,
  read_data_nodes container leaflist leaf list_ choice grouping uses resolve
    subs retval = Ok r ->
  mn_hdr r = mn_hdr retval /\ nodetype r = nodetype retval.
Proof.
  induction subs as [|sub next IH]; simpl; intros retval r H.
  - injection H as <-. auto.
  - repeat match type of H with
           | (if ?c then _ else _) = _ => destruct c
           end;
      try (inv_bind H); apply IH in H; exact H.
Qed.

Lemma read_choice_nodes_kind
  (container leaflist leaf list_ : list ly_mnode -> lyxml_elem -> result ly_mnode)
  (subs : list lyxml_elem) :
  forall retval r,
  read_choice_nodes container leaflist leaf list_ subs retval = Ok r ->
  mn_hdr r = mn_hdr retval /\ nodetype r = nodetype retval.
Proof.
  induction subs as [|sub next IH]; simpl; intros retval r H.
  - injection H as <-. auto.
  - repeat match type of H with
           | (if ?c then _ else _) = _ => destruct c
           end;
      try (inv_bind H); apply IH in H; exact H.
Qed.

Lemma read_yin_list_key_kind (children : list lyxml_elem) (lst0 lst : ly_mnode)
  (key_str : option string) :
  fold_left read_yin_list_key children (Ok (lst0, None)) = Ok (lst, key_str) ->
  nodetype lst = nodetype lst0 /\ mn_child lst = mn_child lst0.
Proof.
  intros H.
  refine (fold_left_Ok_inv _
            (fun lk => nodetype lk.1 = nodetype lst0 /\ mn_child lk.1 = mn_child lst0)
            _ _ _ _ _ _ _ H).
  - reflexivity.
  - reflexivity.
  - intros [l0 k0] sub [l1 k1] _ Hl0 Hstep. simpl in *.
    repeat match type of Hstep with
           | (if ?c then _ else _) = _ => destruct c
           | mbind _ _ = Ok _ => inv_bind Hstep
           | match ?c with _ => _ end = _ => destruct c; try discriminate
           end;
      try discriminate; injection Hstep as <- _; exact Hl0.
  - auto.
Qed.

Lemma read_yin_list_keys_kind (n : nat) :
  forall i lst ks lst',
  read_yin_list_keys n i lst ks = Ok lst' -> nodetype lst' = nodetype lst.
Proof.
  induction n as [|n IH]; intros i lst ks lst' H; simpl in H.
  - injection H as <-. reflexivity.
  - inv_bind H. inv_bind H. inv_bind H.
    destruct a1 as [k|]; [|discriminate]. inv_bind H.
    repeat match type of H with
           | (if ?c then _ else _) = _ => destruct c; try discriminate
           end.
    apply IH in H. rewrite H. destruct a0; reflexivity.
Qed.

(** The readers, run by run. *)
Lemma read_yin_container_eq (mem : memory) (module : mod_ptr) (parent : list ly_mnode)
  (node : lyxml_elem) :
  read_yin_container mem module parent node =
  ('(hdr, node') ← read_yin_common module parent (mn_hdr (mnode0 LY_NODE_CONTAINER))
                     node true;
   retval ← read_typedefs mem module (with_hdr (mnode0 LY_NODE_CONTAINER) hdr)
              (x_child node');
   read_data_nodes
     (read_yin_container mem module) (read_yin_leaflist mem module)
     (read_yin_leaf mem module) (read_yin_list mem module)
     (read_yin_choice mem module) (read_yin_grouping mem module)
     (read_yin_uses mem module) true (x_child node) retval).
Proof. destruct node; reflexivity. Qed.

Lemma read_yin_grouping_eq (mem : memory) (module : mod_ptr) (parent : list ly_mnode)
  (node : lyxml_elem) :
  read_yin_grouping mem module parent node =
  ('(hdr, node') ← read_yin_common module parent
                     (mn_hdr (with_hdr (mnode0 LY_NODE_GROUPING)
                                (set_module common0 (Some module))))
                     node false;
   retval ← read_typedefs mem module
              (with_hdr (with_hdr (mnode0 LY_NODE_GROUPING)
                           (set_module common0 (Some module))) hdr)
              (x_child node');
   read_data_nodes
     (read_yin_container mem module) (read_yin_leaflist mem module)
     (read_yin_leaf mem module) (read_yin_list mem module)
     (read_yin_choice mem module) (read_yin_grouping mem module)
     (read_yin_uses mem module) false (x_child node) retval).
Proof. destruct node; reflexivity. Qed.

Lemma read_yin_choice_eq (mem : memory) (module : mod_ptr) (parent : list ly_mnode)
  (node : lyxml_elem) :
  read_yin_choice mem module parent node =
  ('(hdr, _) ← read_yin_common module parent
                 (mn_hdr (with_hdr (mnode0 LY_NODE_CHOICE)
                            (set_module common0 (Some module))))
                 node true;
   read_choice_nodes
     (read_yin_container mem module) (read_yin_leaflist mem module)
     (read_yin_leaf mem module) (read_yin_list mem module)
     (x_child node)
     (with_hdr (with_hdr (mnode0 LY_NODE_CHOICE) (set_module common0 (Some module))) hdr)).
Proof. destruct node; reflexivity. Qed.

(** A reader gives a node of its kind whose header is the one that
    read_yin_common has filled. *)
Lemma read_yin_container_hdr (mem : memory) (module : mod_ptr) (parent : list ly_mnode)
  (node : lyxml_elem) (n : ly_mnode) :
  read_yin_container mem module parent node = Ok n ->
  nodetype n = LY_NODE_CONTAINER /\
  exists node', read_yin_common module parent common0 node true = Ok (mn_hdr n, node').
Proof.
  rewrite read_yin_container_eq. intros H.
  inv_bind H. destruct a as [hdr node']. inv_bind H.
  apply read_typedefs_same_but_tpdf, same_but_tpdf_members in E0.
  destruct E0 as (Hh & Hk & _).
  apply read_data_nodes_kind in H. destruct H as (-> & ->).
  rewrite Hh, Hk. split; [reflexivity|]. exists node'. exact E.
Qed.

Lemma read_yin_grouping_hdr (mem : memory) (module : mod_ptr) (parent : list ly_mnode)
  (node : lyxml_elem) (n : ly_mnode) :
  read_yin_grouping mem module parent node = Ok n ->
  nodetype n = LY_NODE_GROUPING /\
  exists node', read_yin_common module parent (set_module common0 (Some module)) node false
                = Ok (mn_hdr n, node').
Proof.
  rewrite read_yin_grouping_eq. intros H.
  inv_bind H. destruct a as [hdr node']. inv_bind H.
  apply read_typedefs_same_but_tpdf, same_but_tpdf_members in E0.
  destruct E0 as (Hh & Hk & _).
  apply read_data_nodes_kind in H. destruct H as (-> & ->).
  rewrite Hh, Hk. split; [reflexivity|]. exists node'. exact E.
Qed.

Lemma read_yin_choice_hdr (mem : memory) (module : mod_ptr) (parent : list ly_mnode)
  (node : lyxml_elem) (n : ly_mnode) :
  read_yin_choice mem module parent node = Ok n ->
  nodetype n = LY_NODE_CHOICE /\
  exists node', read_yin_common module parent (set_module common0 (Some module)) node true
                = Ok (mn_hdr n, node').
Proof.
  rewrite read_yin_choice_eq. intros H.
  inv_bind H. destruct a as [hdr node'].
  apply read_choice_nodes_kind in H. destruct H as (-> & ->).
  split; [reflexivity|]. exists node'. exact E.
Qed.

Lemma read_yin_list_hdr (mem : memory) (module : mod_ptr) (parent : list ly_mnode)
  (node : lyxml_elem) (n : ly_mnode) :
  read_yin_list mem module parent node = Ok n ->
  nodetype n = LY_NODE_LIST /\
  exists node', read_yin_common module parent common0 node true = Ok (mn_hdr n, node').
Proof.
  rewrite read_yin_list_eq. intros H.
  inv_bind H. destruct a as [hdr node'].
  inv_bind H. destruct a as [lst1 key_str].
  pose proof (read_yin_list_key_kind _ _ _ _ E0) as (Hk1 & _).
  apply read_yin_list_key_spec in E0; [|reflexivity]. destruct E0 as (Hh1 & _).
  destruct (negb _ && _)%bool; [discriminate|].
  inv_bind H. rename a into retval. inv_bind H. rename a into lst2.
  apply read_typedefs_same_but_tpdf, same_but_tpdf_members in E0.
  destruct E0 as (Hh & Hk & _).
  apply read_data_nodes_kind in E1. destruct E1 as (Hh2 & Hk2).
  assert (Hn : nodetype n = nodetype lst2 /\ mn_hdr n = mn_hdr lst2).
  { destruct key_str as [s|]; [|injection H as <-; auto].
    split; [eapply read_yin_list_keys_kind; exact H|].
    clear -H. revert H. generalize (keys_size lst2) at 1. generalize 0%nat.
    intros i n0. revert i lst2 n. generalize (Some s).
    induction n0 as [|n0 IH]; intros ks i lst2 n H; simpl in H.
    - injection H as <-. reflexivity.
    - inv_bind H. inv_bind H. inv_bind H.
      destruct a1 as [k|]; [|discriminate]. inv_bind H.
      repeat match type of H with
             | (if ?c then _ else _) = _ => destruct c; try discriminate
             end.
      apply IH in H. rewrite H. destruct a0; reflexivity. }
  destruct Hn as (-> & ->). rewrite Hk2, Hh2, Hk, Hh, Hk1, Hh1.
  split; [reflexivity|]. exists node'. exact E.
Qed.

Lemma read_yin_leaf_hdr (mem : memory) (module : mod_ptr) (parent : list ly_mnode)
  (node : lyxml_elem) (n : ly_mnode) :
  read_yin_leaf mem module parent node = Ok n ->
  nodetype n = LY_NODE_LEAF /\
  exists node', read_yin_common module parent common0 node true = Ok (mn_hdr n, node').
Proof.
  unfold read_yin_leaf. intros H.
  inv_bind H. destruct a as [hdr node']. inv_bind H. injection H as <-.
  split; [reflexivity|]. exists node'. exact E.
Qed.

Lemma read_yin_leaflist_hdr (mem : memory) (module : mod_ptr) (parent : list ly_mnode)
  (node : lyxml_elem) (n : ly_mnode) :
  read_yin_leaflist mem module parent node = Ok n ->
  nodetype n = LY_NODE_LEAFLIST /\
  exists node', read_yin_common module parent common0 node true = Ok (mn_hdr n, node').
Proof.
  unfold read_yin_leaflist. intros H.
  inv_bind H. destruct a as [hdr node']. inv_bind H. injection H as <-.
  split; [reflexivity|]. exists node'. exact E.
Qed.

Lemma read_yin_uses_hdr (mem : memory) (module : mod_ptr) (parent : list ly_mnode)
  (node : lyxml_elem) (resolve : bool) (n : ly_mnode) :
  read_yin_uses mem module parent node resolve = Ok n ->
  nodetype n = LY_NODE_USES /\
  exists node', read_yin_common module parent (set_module common0 (Some module)) node false
                = Ok (mn_hdr n, node').
Proof.
  unfold read_yin_uses. intros H.
  inv_bind H. destruct a as [hdr node']. inv_bind H. inv_bind H.
  destruct a0 as [name prefix_len].
  assert (Hgoal : forall u g, nodetype (with_grp (with_hdr u hdr) g) = nodetype u /\
                              mn_hdr (with_grp (with_hdr u hdr) g) = hdr) by auto.
  destruct prefix_len.
  - inv_bind H. inv_bind H. injection H as <-.
    split; [reflexivity|]. exists node'. exact E.
  - inv_bind H. inv_bind H. destruct a1; [|discriminate].
    inv_bind H. destruct a1; [|discriminate]. injection H as <-.
    split; [reflexivity|]. exists node'. exact E.
Qed.

(** The node that a reader gives for a statement has the name of the
    statement. *)
Lemma read_yin_common_sig (module : mod_ptr) (parent : list ly_mnode) (m0 : ly_common)
  (sub node' : lyxml_elem) (ext : bool) (a : ly_mnode) (K : LY_NODE_TYPE) :
  nodetype a = K ->
  read_yin_common module parent m0 sub ext = Ok (mn_hdr a, node') ->
  sig_of a = (K, lyxml_get_attr sub "name").
Proof.
  intros Hk Hc. apply read_yin_common_name in Hc. destruct Hc as (v & Ha & _ & Hn).
  unfold sig_of, mn_name. rewrite Hk, Hn, Ha. reflexivity.
Qed.

(** The last run attaches one node for every data statement, in the
    order of the document. *)
Lemma read_data_nodes_children (mem : memory) (module : mod_ptr)
  (resolve : bool) (subs : list lyxml_elem) :
  forall retval r,
  read_data_nodes
    (read_yin_container mem module) (read_yin_leaflist mem module)
    (read_yin_leaf mem module) (read_yin_list mem module)
    (read_yin_choice mem module) (read_yin_grouping mem module)
    (read_yin_uses mem module) resolve subs retval = Ok r ->
  sig_of <$> mn_child r =
  (sig_of <$> mn_child retval) ++ (stmt_sig <$> filter is_data_stmt subs).
Proof.
  induction subs as [|sub next IH]; intros retval r H; simpl in H.
  - injection H as <-. rewrite filter_nil. simpl. rewrite app_nil_r. reflexivity.
  - rewrite filter_cons.
    assert (Hstep : forall a K,
              is_data_stmt sub = true -> kind_of sub = K -> nodetype a = K ->
              (exists m0 ext node',
                 read_yin_common module [retval] m0 sub ext
                 = Ok (mn_hdr a, node')) ->
              read_data_nodes
                (read_yin_container mem module) (read_yin_leaflist mem module)
                (read_yin_leaf mem module) (read_yin_list mem module)
                (read_yin_choice mem module) (read_yin_grouping mem module)
                (read_yin_uses mem module) resolve next
                (ly_mnode_addchild retval a) = Ok r ->
              sig_of <$> mn_child r =
              (sig_of <$> mn_child retval) ++
              (stmt_sig <$> (if decide (is_data_stmt sub) then sub :: filter is_data_stmt next
                             else filter is_data_stmt next))).
    { intros a K Hd Hkind Hk (m0 & ext & node' & Hc) Hr.
      apply IH in Hr. rewrite Hr. cbn [ly_mnode_addchild with_child mn_child].
      rewrite fmap_app, <- app_assoc. f_equal.
      rewrite decide_True by (rewrite Hd; exact I).
      rewrite fmap_cons. simpl. f_equal.
      rewrite (read_yin_common_sig _ _ _ _ _ _ _ K Hk Hc).
      unfold stmt_sig. rewrite Hkind. reflexivity. }
    destruct (named sub "container") eqn:E1.
    { inv_bind H. destruct (read_yin_container_hdr _ _ _ _ _ E) as (Hk & node' & Hc).
      apply (Hstep a LY_NODE_CONTAINER);
        [unfold is_data_stmt; rewrite E1; reflexivity
        |unfold kind_of; rewrite E1; reflexivity
        |exact Hk|eauto|exact H]. }
    destruct (named sub "leaf-list") eqn:E2.
    { inv_bind H. destruct (read_yin_leaflist_hdr _ _ _ _ _ E) as (Hk & node' & Hc).
      apply (Hstep a LY_NODE_LEAFLIST);
        [unfold is_data_stmt; rewrite E1, E2; reflexivity
        |unfold kind_of; rewrite E1, E2; reflexivity
        |exact Hk|eauto|exact H]. }
    destruct (named sub "leaf") eqn:E3.
    { inv_bind H. destruct (read_yin_leaf_hdr _ _ _ _ _ E) as (Hk & node' & Hc).
      apply (Hstep a LY_NODE_LEAF);
        [unfold is_data_stmt; rewrite E1, E2, E3; reflexivity
        |unfold kind_of; rewrite E1, E2, E3; reflexivity
        |exact Hk|eauto|exact H]. }
    destruct (named sub "list") eqn:E4.
    { inv_bind H. destruct (read_yin_list_hdr _ _ _ _ _ E) as (Hk & node' & Hc).
      apply (Hstep a LY_NODE_LIST);
        [unfold is_data_stmt; rewrite E1, E2, E3, E4; reflexivity
        |unfold kind_of; rewrite E1, E2, E3, E4; reflexivity
        |exact Hk|eauto|exact H]. }
    destruct (named sub "choice") eqn:E5.
    { inv_bind H. destruct (read_yin_choice_hdr _ _ _ _ _ E) as (Hk & node' & Hc).
      apply (Hstep a LY_NODE_CHOICE);
        [unfold is_data_stmt; rewrite E1, E2, E3, E4, E5; reflexivity
        |unfold kind_of; rewrite E1, E2, E3, E4, E5; reflexivity
        |exact Hk|eauto|exact H]. }
    destruct (named sub "uses") eqn:E6.
    { inv_bind H. destruct (read_yin_uses_hdr _ _ _ _ _ _ E) as (Hk & node' & Hc).
      apply (Hstep a LY_NODE_USES);
        [unfold is_data_stmt; rewrite E1, E2, E3, E4, E5, E6; reflexivity
        |unfold kind_of; rewrite E1, E2, E3, E4, E5, E6; reflexivity
        |exact Hk|eauto|exact H]. }
    destruct (named sub "grouping") eqn:E7.
    { inv_bind H. destruct (read_yin_grouping_hdr _ _ _ _ _ E) as (Hk & node' & Hc).
      apply (Hstep a LY_NODE_GROUPING);
        [unfold is_data_stmt; rewrite E1, E2, E3, E4, E5, E6, E7; reflexivity
        |unfold kind_of; rewrite E1, E2, E3, E4, E5, E6, E7; reflexivity
        |exact Hk|eauto|exact H]. }
    apply IH in H. rewrite H.
    rewrite decide_False; [reflexivity|].
    unfold is_data_stmt. rewrite E1, E2, E3, E4, E5, E6, E7. simpl. tauto.
Qed.

(** X13: a container that is read has the name of its statement, and
    its children are the nodes of the data statements among the children
    of the statement (container, leaf-list, leaf, list, choice, uses,
    grouping), in the order of the document, each of the kind and with
    the name of its statement. *)
Theorem read_yin_container_children (mem : memory) (module : mod_ptr)
  (parent : list ly_mnode) (node : lyxml_elem) (c : ly_mnode) :
  read_yin_container mem module parent node = Ok c ->
  sig_of c = (LY_NODE_CONTAINER, lyxml_get_attr node "name") /\
  sig_of <$> mn_child c = stmt_sig <$> filter is_data_stmt (x_child node).
Proof.
  intros H.
  destruct (read_yin_container_hdr _ _ _ _ _ H) as (Hk & node0 & Hc).
  split; [exact (read_yin_common_sig _ _ _ _ _ _ _ _ Hk Hc)|].
  rewrite read_yin_container_eq in H.
  inv_bind H. destruct a as [hdr node']. inv_bind H.
  apply read_typedefs_same_but_tpdf, same_but_tpdf_members in E0.
  destruct E0 as (_ & _ & Hch).
  apply read_data_nodes_children in H. rewrite H, Hch. reflexivity.
Qed.

Lemma read_yin_container_children_witness :
  exists c,
    read_yin_container [module0] 0 [] container_c = Ok c /\
    sig_of c = (LY_NODE_CONTAINER, Some "c") /\
    sig_of <$> mn_child c
    = [(LY_NODE_LEAF, Some "a"); (LY_NODE_CONTAINER, Some "d"); (LY_NODE_LEAFLIST, Some "e")].
Proof.
  eexists. split; [vm_compute; reflexivity|].
  exact (read_yin_container_children [module0] 0 [] container_c _ eq_refl).
Defined.

(** ** The key argument of a list *)

Lemma strpbrk_head (s accept q : string) :
  strpbrk s accept = Some q ->
  exists a rest, q = String a rest /\ ascii_in a accept = true.
Proof.
  induction s as [|a s IH]; simpl; [discriminate|].
  destruct (ascii_in a accept) eqn:Ea.
  - intros [= <-]. eauto.
  - exact IH.
Qed.

Lemma skip_space_length (s : string) :
  (String.length (skip_space s) <= String.length s)%nat.
Proof.
  induction s as [|a s IH]; simpl; [lia|].
  destruct (isspace a); simpl; lia.
Qed.

Lemma key_delims_isspace (a : ascii) : ascii_in a key_delims = true -> isspace a = true.
Proof.
  unfold ascii_in, key_delims. simpl. rewrite !orb_true_iff.
  intros [H|[H|[H|H]]]; try discriminate; apply Ascii.eqb_eq in H; subst a; reflexivity.
Qed.

(** The rest of the argument after a name is shorter than the argument. *)
Lemma key_rest_shorter (s q : string) :
  strpbrk s key_delims = Some q ->
  (String.length (skip_space q) < String.length s)%nat.
Proof.
  intros H. pose proof (strpbrk_length _ _ _ H) as Hl.
  apply strpbrk_head in H. destruct H as (a & rest & -> & Ha).
  apply key_delims_isspace in Ha. simpl. rewrite Ha.
  pose proof (skip_space_length rest). simpl in Hl. lia.
Qed.

Lemma count_keys_tokens (fuel : nat) :
  forall s k, (String.length s <= fuel)%nat ->
  exists n, count_keys fuel s k = Some n /\ (k < n)%nat /\
    forall m, (n - k <= m)%nat -> length (key_tokens m (Some s)) = (n - k)%nat.
Proof.
  induction fuel as [|fuel IH]; intros s k Hs.
  - destruct s; [|simpl in Hs; lia]. exists (S k). simpl.
    split; [reflexivity|]. split; [lia|].
    intros [|m] Hm; [lia|]. replace (S k - k)%nat with 1%nat by lia.
    simpl. unfold key_rest. simpl. destruct m; reflexivity.
  - simpl. destruct (strpbrk s key_delims) as [q|] eqn:Eq.
    + pose proof (key_rest_shorter _ _ Eq) as Hlt.
      destruct (IH (skip_space q) (S k) ltac:(lia)) as (n & Hn & Hk & Htok).
      exists n. split; [exact Hn|]. split; [lia|].
      intros [|m] Hm; [lia|]. simpl. unfold key_rest. rewrite Eq. simpl.
      rewrite Htok by lia. lia.
    + exists (S k). split; [reflexivity|]. split; [lia|].
      intros [|m] Hm; [lia|]. replace (S k - k)%nat with 1%nat by lia.
      simpl. unfold key_rest. rewrite Eq. simpl. destruct m; reflexivity.
Qed.

(** X14: the loop that counts the keys of a list ends for every
    argument of the key statement, with a count of at least one; the
    count is the number of names that the walk over the argument finds,
    however many rounds it is given. *)
Theorem count_keys_total (s : string) :
  exists n, count_keys (String.length s) s 0 = Some n /\ (0 < n)%nat /\
    forall m, (n <= m)%nat -> length (key_tokens m (Some s)) = n.
Proof.
  destruct (count_keys_tokens (String.length s) s 0 ltac:(lia)) as (n & Hn & Hk & Htok).
  exists n. split; [exact Hn|]. split; [exact Hk|].
  intros m Hm. rewrite Htok by lia. lia.
Qed.

(** ** The keys of a list *)

Lemma count_keys_le (fuel : nat) :
  forall s k n, count_keys fuel s k = Some n -> (n <= k + S (String.length s))%nat.
Proof.
  induction fuel as [|fuel IH]; intros s k n H; simpl in H;
    destruct (strpbrk s key_delims) as [q|] eqn:Eq;
    try discriminate; try (injection H as <-; lia).
  apply IH in H. pose proof (key_rest_shorter _ _ Eq). lia.
Qed.

Lemma key_tokens_take (n d : nat) :
  forall ks, key_tokens n ks = take n (key_tokens (n + d) ks).
Proof.
  induction n as [|n IH]; intros ks; [reflexivity|].
  destruct ks as [s|]; [|reflexivity]. simpl. f_equal. apply IH.
Qed.

(** The walk as far as the keys were counted is the walk to the end of
    the argument. *)
Lemma key_tokens_counted (s : string) (n : nat) :
  count_keys (String.length s) s 0 = Some n ->
  key_tokens n (Some s) = key_names s /\
  forall m, (n <= m)%nat -> key_tokens m (Some s) = key_names s.
Proof.
  intros H.
  destruct (count_keys_tokens (String.length s) s 0 ltac:(lia)) as (n' & Hn & _ & Htok).
  rewrite H in Hn. injection Hn as <-. rewrite Nat.sub_0_r in Htok.
  apply count_keys_le in H.
  assert (Hall : forall m, (n <= m)%nat -> key_tokens n (Some s) = key_tokens m (Some s)).
  { intros m Hm. replace m with (n + (m - n))%nat at 1 by lia.
    rewrite (key_tokens_take n (m - n)).
    replace (n + (m - n))%nat with m by lia.
    apply take_ge. rewrite Htok by lia. lia. }
  unfold key_names. split.
  - apply Hall. lia.
  - intros m Hm. rewrite <- (Hall m Hm). apply Hall. lia.
Qed.

(** X26: a list that read_yin_list has compiled as configuration
    (flag W), or with a key statement, has a key array that is not
    empty, whose entries point at distinct children of the list, each
    of them a leaf whose base type is not empty and whose config bits
    are those of the list.  The array has one entry for every name of
    the argument of the key statement, in order, each bound to the
    first child of that name: a name, wherever it stands in the
    argument, for which that child is missing, bound before, not a
    leaf, of type empty or of another config leaves read_yin_list
    without a list. *)
Theorem read_yin_list_keys_valid (mem : memory) (module : mod_ptr)
  (parent : list ly_mnode) (node : lyxml_elem) (lst : ly_mnode) :
  read_yin_list mem module parent node = Ok lst ->
  Z.land (mn_flags lst) LY_NODE_CONFIG_W <> 0 \/ (0 < keys_size lst)%nat ->
  keys_valid lst /\
  exists key key_str,
    In key (x_child node) /\ named key "key" = true /\
    lyxml_get_attr key "value" = Some key_str /\
    keys_bound lst key_str.
Proof.
  intros H HW. rewrite read_yin_list_eq in H.
  inv_bind H. destruct a as [hdr node'].
  inv_bind H. destruct a as [lst1 key_str].
  apply read_yin_list_key_spec in E0; [|reflexivity].
  destruct E0 as (Hhdr1 & Hkey).
  destruct (negb _ && _)%bool eqn:Emand; [discriminate|].
  inv_bind H. rename a into retval. inv_bind H. rename a into lst2.
  apply read_typedefs_same_keys in E0. apply read_data_nodes_same_keys in E1.
  assert (Hsame : same_keys lst2 lst1) by (eapply same_keys_trans; eauto).
  destruct Hsame as (Hh2 & Hs2 & Hk2).
  destruct Hkey as [(-> & Hsz)|(key & s & Hin & Hnamed & Hattr & -> & Hpos & Hrep & Hcount)].
  - (* no key statement: the list is not configuration *)
    injection H as <-. exfalso. destruct HW as [HW|HW]; [|lia].
    apply andb_false_iff in Emand. destruct Emand as [Em|Em].
    + apply negb_false_iff, Z.eqb_eq in Em. apply HW.
      unfold mn_flags in *. rewrite Hh2. exact Em.
    + apply bool_decide_eq_false in Em. congruence.
  - clear HW. apply read_yin_list_keys_spec in H.
    2:{ intros j Hj. rewrite Hk2, Hrep, <- Hs2. apply lookup_replicate_2. lia. }
    destruct H as (Hh & Hc & Hs & Hl & _ & Htok & Hall).
    apply key_tokens_counted in Hcount. destruct Hcount as (Hnames & _).
    rewrite <- Hs2 in Hnames. rewrite Hnames in Htok, Hall.
    assert (Hlen : length (keys lst) = keys_size lst).
    { rewrite Hl, Hk2, Hrep, length_replicate. congruence. }
    assert (Heach : forall i slot, keys lst !! i = Some slot ->
              exists k, slot = Some k /\ key_leaf lst k /\ ~ In slot (take i (keys lst))
                /\ exists tok, key_names s !! i = Some tok
                               /\ first_named (mn_child lst) tok k).
    { intros i slot Hi.
      assert (Hlt : (i < keys_size lst2)%nat).
      { apply lookup_lt_Some in Hi. lia. }
      destruct (Hall i ltac:(lia)) as (k & Hk & Hleaf & Hnot & tok & Ht & Hfirst).
      rewrite Hk in Hi. injection Hi as <-. exists k.
      rewrite Nat.sub_0_r in Ht. rewrite Hc.
      repeat split; eauto using key_leaf_same. }
    split.
    + constructor.
      * lia.
      * exact Hlen.
      * apply NoDup_by_prefix. intros j x Hj.
        destruct (Heach j x Hj) as (k & -> & _ & Hnot & _). exact Hnot.
      * intros i slot Hi. destruct (Heach i slot Hi) as (k & -> & Hleaf & _). eauto.
    + exists key, s. split; [eapply read_yin_common_kept; eauto|].
      split; [exact Hnamed|]. split; [exact Hattr|].
      rewrite <- Hs in *. split; [exact Htok|].
      intros i tok Ht.
      assert (Hlt : (i < keys_size lst)%nat).
      { apply lookup_lt_Some in Ht. lia. }
      destruct (lookup_lt_is_Some_2 (keys lst) i ltac:(lia)) as (slot & Hslot).
      destruct (Heach i slot Hslot) as (k & -> & _ & _ & tok' & Ht' & Hfirst).
      exists k. split; [exact Hslot|]. congruence.
Qed.

Example keyed_list_compiled :
  (fun lst => (keys lst, mn_name <$> mn_child lst)) <$>
    read_yin_list [module0] 0 [] keyed_list
  = Ok ([Some 0%nat], [Some "k"; Some "v"]).
Proof. reflexivity. Qed.

(** A name behind the first that is bound to no leaf: the list is
    refused. *)
Example second_key_missing :
  read_yin_list [module0] 0 []
    (stmt "list" (arg "name" "l")
       [stmt "key" (arg "value" "k w") []; leaf_stmt "k" "string" []; leaf_stmt "v" "string" []])
  = Err (Val VE_KEY_MISS).
Proof. reflexivity. Qed.

Lemma read_yin_list_keys_valid_witness :
  exists lst, read_yin_list [module0] 0 [] keyed_list = Ok lst /\ keys_valid lst /\
              keys_bound lst "k".
Proof.
  destruct (read_yin_list [module0] 0 [] keyed_list) as [lst| |] eqn:E;
    [|vm_compute in E; discriminate..].
  exists lst. split; [reflexivity|].
  destruct (read_yin_list_keys_valid [module0] 0 [] keyed_list lst E)
    as (Hv & key & key_str & Hin & Hnamed & Hattr & Hb).
  - left. vm_compute in E. injection E as <-. vm_compute. discriminate.
  - split; [exact Hv|].
    destruct Hin as [<-|[<-|[<-|[]]]]; try discriminate Hnamed.
    injection Hattr as <-. exact Hb.
Defined.

(** ** Lists without a key *)

Lemma read_yin_list_no_key (children : list lyxml_elem) (lst0 lst : ly_mnode)
  (key_str : option string) :
  Forall (fun sub => named sub "key" = false) children ->
  fold_left read_yin_list_key children (Ok (lst0, None)) = Ok (lst, key_str) ->
  key_str = None /\ keys_size lst = keys_size lst0 /\ keys lst = keys lst0.
Proof.
  intros Hall H. rewrite List.Forall_forall in Hall.
  refine (fold_left_Ok_inv _
            (fun lk => lk.2 = None /\ keys_size lk.1 = keys_size lst0 /\
                       keys lk.1 = keys lst0)
            _ _ _ _ _ _ _ H).
  - reflexivity.
  - reflexivity.
  - intros [l0 k0] sub [l1 k1] Hsub Hl0 Hstep. simpl in *.
    destruct (is_data_stmt sub); [injection Hstep as <- <-; exact Hl0|].
    rewrite (Hall sub Hsub) in Hstep. injection Hstep as <- <-. exact Hl0.
  - auto.
Qed.

(** X15: a list statement without a key statement is accepted only as a
    list that is not configuration, and the list that is read has no
    keys. *)
Theorem read_yin_list_without_key (mem : memory) (module : mod_ptr)
  (parent : list ly_mnode) (node : lyxml_elem) (lst : ly_mnode) :
  read_yin_list mem module parent node = Ok lst ->
  Forall (fun sub => named sub "key" = false) (x_child node) ->
  keys_size lst = 0%nat /\ keys lst = [] /\
  Z.land (mn_flags lst) LY_NODE_CONFIG_W = 0.
Proof.
  intros H Hall. rewrite read_yin_list_eq in H.
  inv_bind H. destruct a as [hdr node'].
  inv_bind H. destruct a as [lst1 key_str].
  pose proof (read_yin_common_node _ _ _ _ _ _ _ E) as Hnode.
  assert (Hall' : Forall (fun sub => named sub "key" = false) (x_child node')).
  { rewrite List.Forall_forall in *. intros x Hx. apply Hall.
    eapply read_yin_common_kept; eauto. }
  pose proof E0 as Hspec. apply read_yin_list_key_spec in Hspec; [|reflexivity].
  destruct Hspec as (Hh1 & _).
  apply read_yin_list_no_key in E0; [|exact Hall'].
  destruct E0 as (-> & Hs1 & Hk1).
  destruct (negb _ && _)%bool eqn:Emand; [discriminate|].
  inv_bind H. rename a into retval. inv_bind H. rename a into lst2.
  injection H as <-.
  apply read_typedefs_same_keys in E0. apply read_data_nodes_same_keys in E1.
  destruct (same_keys_trans _ _ _ E1 E0) as (Hh & Hs & Hk).
  split; [rewrite Hs, Hs1; reflexivity|]. split; [rewrite Hk, Hk1; reflexivity|].
  apply andb_false_iff in Emand. destruct Emand as [Em|Em].
  - apply negb_false_iff, Z.eqb_eq in Em. unfold mn_flags in *. rewrite Hh. exact Em.
  - apply bool_decide_eq_false in Em. congruence.
Qed.

Lemma read_yin_list_without_key_witness :
  exists lst,
    read_yin_list [module0] 0 [state_container]
      (stmt "list" (arg "name" "l") [leaf_stmt "v" "string" []]) = Ok lst /\
    keys_size lst = 0%nat /\ keys lst = [] /\
    Z.land (mn_flags lst) LY_NODE_CONFIG_W = 0.
Proof.
  eexists. split; [vm_compute; reflexivity|].
  apply (read_yin_list_without_key [module0] 0 [state_container]
           (stmt "list" (arg "name" "l") [leaf_stmt "v" "string" []]) _ eq_refl).
  repeat constructor.
Defined.

(** ** Typedefs *)

(** A slot that can be read holds what is written to it. *)
Lemma place_get_set (module : mod_ptr) (pl : tpdf_place) (t t0 : ly_tpdf) (e : place_env) :
  place_get module pl e = Ok t0 ->
  place_get module pl (place_set module pl t e) = Ok t.
Proof.
  destruct pl as [i|i]; simpl.
  - intros H. destruct (tpdf (at_ e.1 module) !! i) as [x|] eqn:El; [|discriminate].
    apply lookup_lt_Some in El.
    assert (Hm : (module < length e.1)%nat).
    { destruct (decide (module < length e.1)%nat) as [Hm|Hm]; [exact Hm|].
      unfold at_ in El. rewrite lookup_ge_None_2 in El by lia. simpl in El. lia. }
    rewrite at_update, decide_True by auto. simpl.
    rewrite list_lookup_insert_eq by exact El. reflexivity.
  - destruct e as [mem [|p up]]; simpl; [discriminate|].
    intros H. destruct (mn_tpdf p !! i) as [x|] eqn:El; [|discriminate].
    apply lookup_lt_Some in El.
    rewrite list_lookup_insert_eq by exact El. reflexivity.
Qed.

(** X16: a typedef statement that is accepted has filled its slot with a
    typedef that bears the name of the statement and whose type has a
    derivation. *)
Theorem fill_yin_typedef_named (module : mod_ptr) (yin : lyxml_elem) (pl : tpdf_place)
  (e e' : place_env) :
  fill_yin_typedef module yin pl e = Ok e' ->
  exists t value p,
    place_get module pl e' = Ok t /\
    lyxml_get_attr yin "name" = Some value /\ tp_name t = Some value /\
    ty_der (tp_type t) = Some p.
Proof.
  unfold fill_yin_typedef. intros H.
  inv_bind H. rename a into value.
  destruct (lyxml_get_attr yin "name") as [v|]; [|discriminate]. injection E as ->.
  inv_bind H. rename a into t0. cbv zeta in H.
  inv_bind H. rename a into e1. inv_bind H. rename a into t.
  destruct (ty_der (tp_type t)) as [p|] eqn:Eder; [|discriminate]. injection H as <-.
  exists t, value, p. split; [exact E1|]. split; [reflexivity|]. split; [|exact Eder].
  assert (Hinv : exists t1, place_get module pl e1 = Ok t1 /\ tp_name t1 = Some value).
  { refine (fold_left_Ok_inv _
              (fun e1 => exists t1, place_get module pl e1 = Ok t1 /\
                                    tp_name t1 = Some value)
              _ _ _ _ _ _ _ E0).
    - reflexivity.
    - reflexivity.
    - intros e2 node e3 _ (t2 & Ht2 & Hn2) Hstep.
      unfold fill_yin_typedef_step in Hstep. simpl in Hstep.
      rewrite Ht2 in Hstep. simpl in Hstep.
      assert (Hset : forall dsc ref flags ty,
                exists t1, place_get module pl
                             (place_set module pl (Tpdf (tp_name t2) dsc ref flags ty) e2)
                           = Ok t1 /\ tp_name t1 = Some value).
      { intros. eexists. split; [eapply place_get_set; exact Ht2|exact Hn2]. }
      repeat match type of Hstep with
             | (if ?c then _ else _) = _ => destruct c
             | mbind _ _ = Ok _ => inv_bind Hstep
             | match ?c with _ => _ end = _ => destruct c; try discriminate
             end;
        try discriminate; injection Hstep as <-; first [apply Hset | eauto].
    - eexists. split; [eapply place_get_set; exact E|reflexivity]. }
  destruct Hinv as (t1 & Ht1 & Hn1). rewrite Ht1 in E1. injection E1 as <-. exact Hn1.
Qed.

Lemma fill_yin_typedef_named_witness :
  exists e' t,
    fill_yin_typedef 0 typedef_t (AtModule 0) (mem_one_tpdf_slot, []) = Ok e' /\
    place_get 0 (AtModule 0) e' = Ok t /\ tp_name t = Some "t" /\
    ty_der (tp_type t) = Some (TpBuiltin LY_TYPE_STRING).
Proof.
  eexists. eexists. split; [vm_compute; reflexivity|].
  destruct (fill_yin_typedef_named 0 typedef_t (AtModule 0) (mem_one_tpdf_slot, []) _
              eq_refl) as (t & value & p & Ht & Hv & Hn & Hp).
  vm_compute in Ht. injection Ht as <-.
  split; [vm_compute; reflexivity|]. split; reflexivity.
Defined.

(** ** Uses *)

Lemma find_grouping_Some (nodes : list ly_mnode) (name : string) (i : nat) :
  find_grouping nodes name = Ok (Some i) ->
  exists n, nodes !! i = Some n /\ nodetype n = LY_NODE_GROUPING /\ mn_name n = Some name.
Proof.
  unfold find_grouping. intros H. apply array_find_from_Some in H.
  destruct H as (_ & (n & Hn & Ht) & _). exists n. split; [exact Hn|].
  destruct (bool_decide (nodetype n = LY_NODE_GROUPING)) eqn:Ek; [|discriminate].
  apply bool_decide_eq_true in Ek. split; [exact Ek|]. apply strcmp_eq_true. exact Ht.
Qed.

Lemma find_grouping_local_Some (mem : memory) (module : mod_ptr) (parent : list ly_mnode)
  (name : string) (par : list ly_mnode) :
  forall found g,
  find_grouping_local par parent name found = Ok (Some g) ->
  found = Some g \/
  exists n, grp_at mem module parent g = Some n /\
            nodetype n = LY_NODE_GROUPING /\ mn_name n = Some name.
Proof.
  induction par as [|p0 up IH]; intros found g H; simpl in H.
  - left. congruence.
  - inv_bind H. apply IH in H. destruct a as [i|]; [|exact H].
    destruct H as [[= <-]|H]; [|right; exact H]. right.
    apply find_grouping_Some in E. destruct E as (n & Hn & Hk & Hname).
    exists n. simpl. destruct parent as [|p rest]; [discriminate|]. simpl. auto.
Qed.

(** X17: when a uses that is read points at a grouping, that node is a
    grouping and bears the name that the uses gives without its prefix;
    it lies among the children of the parent of the uses or at the top
    level of the module of the uses. *)
Theorem read_yin_uses_grouping (mem : memory) (module : mod_ptr) (parent : list ly_mnode)
  (node : lyxml_elem) (resolve : bool) (u : ly_mnode) (g : grp_ptr) :
  read_yin_uses mem module parent node resolve = Ok u ->
  grp u = Some g ->
  exists n value,
    grp_at mem module parent g = Some n /\
    lyxml_get_attr node "name" = Some value /\
    nodetype n = LY_NODE_GROUPING /\ mn_name n = Some (local_name value).
Proof.
  unfold read_yin_uses. intros H Hg.
  inv_bind H. destruct a as [hdr node'].
  apply read_yin_common_name in E. destruct E as (value & Hattr & _ & Hname).
  inv_bind H. rename a into uses_name.
  unfold mn_name in E. simpl in E. rewrite Hname in E. injection E as <-.
  inv_bind H. destruct a as [name prefix_len].
  assert (Hlocal : name = local_name value).
  { unfold local_name. destruct (strchr value ":").
    - inv_bind E. injection E as <- _. reflexivity.
    - injection E as <- _. reflexivity. }
  subst name.
  cut (exists n, grp_at mem module parent g = Some n /\
                 nodetype n = LY_NODE_GROUPING /\ mn_name n = Some (local_name value)).
  { intros (n & ? & ? & ?). exists n, value. auto. }
  destruct prefix_len.
  - inv_bind H. inv_bind H. injection H as <-. simpl in Hg.
    destruct a0 as [i|].
    + injection Hg as <-. apply find_grouping_Some in E1. exact E1.
    + subst a. apply (find_grouping_local_Some mem module) in E0.
      destruct E0 as [E0|E0]; [discriminate|exact E0].
  - inv_bind H. inv_bind H. destruct a0; [|discriminate].
    inv_bind H. destruct a0 as [i|]; [|discriminate]. injection H as <-.
    simpl in Hg. injection Hg as <-. apply find_grouping_Some in E2. exact E2.
Qed.

Lemma read_yin_uses_grouping_witness :
  exists u n,
    read_yin_uses mem_with_grouping 0 [] (stmt "uses" (arg "name" "m:g") []) true = Ok u /\
    grp u = Some (GrpData 0) /\
    grp_at mem_with_grouping 0 [] (GrpData 0) = Some n /\
    nodetype n = LY_NODE_GROUPING /\ mn_name n = Some "g".
Proof.
  eexists. eexists. split; [vm_compute; reflexivity|]. split; [reflexivity|].
  destruct (read_yin_uses_grouping mem_with_grouping 0 []
              (stmt "uses" (arg "name" "m:g") []) true _ (GrpData 0) eq_refl eq_refl)
    as (n & value & Hn & Hv & Hk & Hname).
  injection Hv as <-. vm_compute in Hn. injection Hn as <-.
  split; [reflexivity|]. split; reflexivity.
Defined.

(** ** The top-level nodes of a module *)

(** A statement with another name is not a data statement. *)
Lemma named_not_data (node : lyxml_elem) (name : string) :
  named node name = true -> is_data_stmt (Elem name None [] None []) = false ->
  is_data_stmt node = false.
Proof.
  unfold named. intros H. apply String.eqb_eq in H.
  unfold is_data_stmt, named. simpl. rewrite H. auto.
Qed.

Lemma first_run_step_root (submodule : bool) (st0 st1 : first_run) (node : lyxml_elem) :
  first_run_step submodule (Ok st0) node = Ok st1 ->
  fr_root st1 = fr_root st0 ++
    (if decide (x_ns node = Some LY_NSYIN /\ is_data_stmt node = true)
     then [node] else []) /\
  data (fr_module st1) = data (fr_module st0).
Proof.
  unfold first_run_step. simpl. intros H.
  destruct (bool_decide (x_ns node = Some LY_NSYIN)) eqn:Ens; simpl in H.
  2:{ injection H as <-. simpl. apply bool_decide_eq_false in Ens.
      rewrite decide_False by tauto. rewrite app_nil_r. auto. }
  apply bool_decide_eq_true in Ens.
  assert (Hother : forall name,
            named node name = true -> is_data_stmt (Elem name None [] None []) = false ->
            forall st, fr_root st = fr_root st0 -> data (fr_module st) = data (fr_module st0) ->
            fr_root st = fr_root st0 ++
              (if decide (x_ns node = Some LY_NSYIN /\ is_data_stmt node = true)
               then [node] else []) /\
            data (fr_module st) = data (fr_module st0)).
  { intros name Hn Hd st Hr Hdata. rewrite (named_not_data node name Hn Hd).
    rewrite decide_False by (intros [_ ?]; discriminate). rewrite app_nil_r. auto. }
  destruct (negb submodule && named node "namespace")%bool eqn:E1; simpl in H.
  { apply andb_true_iff in E1. destruct E1 as [_ E1].
    destruct (lyxml_get_attr node "uri"); [|discriminate]. injection H as <-.
    apply (Hother "namespace"); auto. }
  destruct (negb submodule && named node "prefix")%bool eqn:E2; simpl in H.
  { apply andb_true_iff in E2. destruct E2 as [_ E2].
    destruct (lyxml_get_attr node "value"); [|discriminate]. injection H as <-.
    apply (Hother "prefix"); auto. }
  destruct (named node "import") eqn:E3;
    [injection H as <-; apply (Hother "import"); auto|].
  destruct (named node "revision") eqn:E4;
    [injection H as <-; apply (Hother "revision"); auto|].
  destruct (named node "typedef") eqn:E5;
    [injection H as <-; apply (Hother "typedef"); auto|].
  destruct (named node "identity") eqn:E6;
    [injection H as <-; apply (Hother "identity"); auto|].
  destruct (named node "include") eqn:E7;
    [injection H as <-; apply (Hother "include"); auto|].
  destruct (is_data_stmt node) eqn:Ed.
  { injection H as <-. simpl. rewrite decide_True by auto. auto. }
  rewrite decide_False by (intros [_ ?]; discriminate). rewrite app_nil_r.
  repeat match type of H with
         | (if ?c then _ else _) = _ => destruct c
         | mbind _ _ = Ok _ => inv_bind H
         end;
    try discriminate; injection H as <-; simpl; auto.
Qed.

(** The first run stages the data statements of the YIN namespace, in
    the order of the document, and attaches no node. *)
Lemma first_run_root (submodule : bool) (children : list lyxml_elem) :
  forall st0 st,
  fold_left (first_run_step submodule) children (Ok st0) = Ok st ->
  fr_root st = fr_root st0 ++
    filter (fun node => x_ns node = Some LY_NSYIN /\ is_data_stmt node = true) children /\
  data (fr_module st) = data (fr_module st0).
Proof.
  induction children as [|node next IH]; intros st0 st H; cbn [fold_left] in H.
  - injection H as <-. rewrite filter_nil, app_nil_r. auto.
  - destruct (first_run_step submodule (Ok st0) node) as [st1|d|] eqn:E.
    + apply first_run_step_root in E. destruct E as (Hr & Hd).
      apply IH in H. destruct H as (Hr' & Hd').
      split; [|congruence]. rewrite Hr', Hr, filter_cons, <- app_assoc.
      destruct (decide _); reflexivity.
    + rewrite fold_left_Err in H by reflexivity. discriminate.
    + rewrite fold_left_Undef in H by reflexivity. discriminate.
Qed.

(** One step of the last run attaches the node of its statement at the
    end of the top-level nodes. *)
Lemma last_run_step_data (module : mod_ptr) (node : lyxml_elem) (mem mem' : memory)
  (u : unit) :
  last_run_step module node mem = (Ok u, mem') ->
  (module < length mem)%nat ->
  length mem' = length mem /\
  sig_of <$> data (at_ mem' module) =
  (sig_of <$> data (at_ mem module)) ++
  (if is_data_stmt node then [stmt_sig node] else []).
Proof.
  intros H Hm.
  assert (Hinc : forall (read : memory -> result ly_mnode) K m0 ext,
            (forall n, read mem = Ok n ->
               nodetype n = K /\
               exists node', read_yin_common module [] m0 node ext = Ok (mn_hdr n, node')) ->
            is_data_stmt node = true -> kind_of node = K ->
            bindS (reads read)
              (fun mnode => writes (fun mem => update mem module
                                      (fun m => with_data m (data m ++ [mnode])))) mem
            = (Ok u, mem') ->
            length mem' = length mem /\
            sig_of <$> data (at_ mem' module) =
            (sig_of <$> data (at_ mem module)) ++
            (if is_data_stmt node then [stmt_sig node] else [])).
  { intros read K m0 ext Hread Hd Hk Hrun. inv_state Hrun.
    match goal with
    | E : read _ = Ok ?n |- _ => destruct (Hread n E) as (Hkn & node' & Hc)
    end.
    split; [apply length_insert|].
    rewrite at_update, decide_True by auto. simpl.
    rewrite fmap_app, Hd. simpl. f_equal.
    rewrite (read_yin_common_sig _ _ _ _ _ _ _ _ Hkn Hc). reflexivity. }
  assert (Hkind : forall name,
            named node name = true ->
            is_data_stmt (Elem name None [] None []) = true ->
            is_data_stmt node = true /\
            kind_of node = kind_of (Elem name None [] None [])).
  { intros name Hn Hd. unfold named in Hn. apply String.eqb_eq in Hn.
    unfold is_data_stmt, kind_of, named in *. simpl in *. rewrite Hn. auto. }
  unfold last_run_step in H.
  destruct (named node "container") eqn:E1.
  { destruct (Hkind "container" E1 eq_refl) as (Hd & Hk).
    eapply Hinc; [|exact Hd|exact Hk|exact H].
    intros n Hn. exact (read_yin_container_hdr _ _ _ _ _ Hn). }
  destruct (named node "leaf-list") eqn:E2.
  { destruct (Hkind "leaf-list" E2 eq_refl) as (Hd & Hk).
    eapply Hinc; [|exact Hd|exact Hk|exact H].
    intros n Hn. exact (read_yin_leaflist_hdr _ _ _ _ _ Hn). }
  destruct (named node "leaf") eqn:E3.
  { destruct (Hkind "leaf" E3 eq_refl) as (Hd & Hk).
    eapply Hinc; [|exact Hd|exact Hk|exact H].
    intros n Hn. exact (read_yin_leaf_hdr _ _ _ _ _ Hn). }
  destruct (named node "list") eqn:E4.
  { destruct (Hkind "list" E4 eq_refl) as (Hd & Hk).
    eapply Hinc; [|exact Hd|exact Hk|exact H].
    intros n Hn. exact (read_yin_list_hdr _ _ _ _ _ Hn). }
  destruct (named node "choice") eqn:E5.
  { destruct (Hkind "choice" E5 eq_refl) as (Hd & Hk).
    eapply Hinc; [|exact Hd|exact Hk|exact H].
    intros n Hn. exact (read_yin_choice_hdr _ _ _ _ _ Hn). }
  destruct (named node "grouping") eqn:E6.
  { destruct (Hkind "grouping" E6 eq_refl) as (Hd & Hk).
    eapply Hinc; [|exact Hd|exact Hk|exact H].
    intros n Hn. exact (read_yin_grouping_hdr _ _ _ _ _ Hn). }
  destruct (named node "uses") eqn:E7.
  { destruct (Hkind "uses" E7 eq_refl) as (Hd & Hk).
    eapply Hinc; [|exact Hd|exact Hk|exact H].
    intros n Hn. exact (read_yin_uses_hdr _ _ _ _ _ _ Hn). }
  inv_state H. split; [reflexivity|].
  unfold is_data_stmt. rewrite E1, E2, E3, E4, E5, E6, E7. simpl.
  rewrite app_nil_r. reflexivity.
Qed.

Lemma last_run_data (module : mod_ptr) (root : list lyxml_elem) :
  forall mem mem' u,
  last_run module root mem = (Ok u, mem') ->
  (module < length mem)%nat ->
  sig_of <$> data (at_ mem' module) =
  (sig_of <$> data (at_ mem module)) ++ (stmt_sig <$> filter is_data_stmt root).
Proof.
  induction root as [|node next IH]; intros mem mem' u H Hm; simpl in H.
  - inv_state H. rewrite filter_nil. simpl. rewrite app_nil_r. reflexivity.
  - apply bindS_Ok in H. destruct H as (u1 & mem1 & E & H).
    apply last_run_step_data in E; [|exact Hm]. destruct E as (Hl & Hd).
    apply IH in H; [|lia]. rewrite H, Hd, <- app_assoc. f_equal.
    rewrite filter_cons. destruct (is_data_stmt node); reflexivity.
Qed.

Lemma filter_data_stmts (l : list lyxml_elem) :
  filter is_data_stmt
    (filter (fun node => x_ns node = Some LY_NSYIN /\ is_data_stmt node = true) l)
  = filter (fun node => x_ns node = Some LY_NSYIN /\ is_data_stmt node = true) l.
Proof.
  induction l as [|x l IH]; [reflexivity|].
  rewrite filter_cons. destruct (decide _) as [[_ Hd]|_]; [|exact IH].
  rewrite filter_cons, decide_True by (rewrite Hd; exact I). rewrite IH. reflexivity.
Qed.

(** The top-level nodes that read_sub_module attaches. *)
Lemma read_sub_module_data (L : ly_loader) (module : mod_ptr) (yin : lyxml_elem)
  (submodule : bool) (ctx ctx' : ly_ctx) (mem mem' : memory) (u : unit) :
  loads_der_only L ->
  read_sub_module L module yin submodule (ctx, mem) = (Ok u, (ctx', mem')) ->
  (module < length mem)%nat ->
  sig_of <$> data (at_ mem' module) =
  (sig_of <$> data (at_ mem module)) ++ (stmt_sig <$> data_stmts yin).
Proof.
  intros HL H Hm. unfold read_sub_module in H.
  apply bindS_Ok in H. destruct H as (st & [ctx1 mem1] & E & H). inv_state E.
  match goal with
  | E : fold_left _ _ _ = Ok st |- _ =>
      apply first_run_root in E; destruct E as (Hroot & Hdata)
  end.
  simpl in Hroot, Hdata.
  apply bindS_Ok in H. destruct H as (u1 & [ctx2 mem2] & E & H). inv_state E.
  set (mem1 := update mem module (fun _ => fr_module st)) in *.
  apply bindS_Ok in H. destruct H as (u2 & [ctx2 mem2] & E & H).
  assert (Hcheck : (ctx2, mem2) = (ctx, mem1)).
  { repeat match type of E with
           | (if ?c then _ else _) _ = _ => destruct c
           end;
      first [discriminate E | apply retS_Ok in E; destruct E as (_ & E); exact E]. }
  injection Hcheck as -> ->. clear E.
  assert (Hlen1 : length mem1 = length mem) by apply length_update.
  assert (Hnew : at_ mem1 module = fr_module st).
  { unfold mem1. rewrite at_update. rewrite decide_True; auto. }
  (* the allocation and the middle run *)
  apply bindS_Ok in H. destruct H as (u3 & [ctx3 mem3] & E3 & H).
  apply bindS_Ok in H. destruct H as (u4 & [ctx4 mem4] & E4 & H).
  pose proof (allocate_middle_run_keeps frame_data frame_data_refl frame_data_trans
                module
                (fun mem f Hf Hd => frame_data_update mem module f Hf Hd)
                (fun mem p g _ _ => frame_data_update_ident mem p g)
                der_only_frame_data L HL st (ctx, mem1)) as [[Hl4 _] Hd4].
  assert (Erun : (in_ctx (writes (fun mem0 => update mem0 module
                                                (allocate_arrays (fr_count st)))) ;;
                  middle_run L module (fr_child st)) (ctx, mem1)
                 = (Ok u4, (ctx4, mem4))).
  { unfold bindS at 1. rewrite E3. exact E4. }
  rewrite Erun in Hl4, Hd4. simpl in Hl4, Hd4.
  inv_state H.
  match goal with
  | E : last_run _ _ _ = _ |- _ => apply last_run_data in E; [|lia]; rename E into Hlast
  end.
  rewrite Hlast, Hd4 by lia. rewrite Hnew, Hdata. f_equal. rewrite Hroot. simpl.
  unfold data_stmts. rewrite filter_data_stmts. reflexivity.
Qed.

(** X18: the top-level nodes of a module that yin_read_module has
    registered are the nodes of the data statements of the YIN namespace
    at the top level of the document, in the order of the document, each
    of the kind and with the name of its statement. *)
Theorem registered_module_data (L : ly_loader)
  (lyxml_read : string -> option lyxml_elem) (sizeof_ptr : nat)
  (ctx ctx' : ly_ctx) (mem mem' : memory) (data_ : string) (m : mod_ptr) :
  loads_der_only L ->
  yin_read_module L lyxml_read sizeof_ptr ctx mem data_ = (Ok m, ctx', mem') ->
  exists yin,
    lyxml_read data_ = Some yin /\
    sig_of <$> data (at_ mem' m) = stmt_sig <$> data_stmts yin.
Proof.
  unfold yin_read_module. intros HL H.
  destruct (lyxml_read data_) as [yin|]; [|discriminate].
  destruct (named yin "module") eqn:Emod; [|discriminate]. cbn [negb] in H.
  destruct (lyxml_get_attr yin "name") as [name|] eqn:Ename; [|discriminate].
  set (mem0 := mem ++ [with_m_name module0 (Some name)]) in *.
  destruct (read_sub_module L (length mem) yin false (ctx, mem0))
    as [[[]| |] [ctx2 mem2]] eqn:E; try discriminate.
  destruct (grow_models sizeof_ptr ctx2); try discriminate.
  destruct (first_free_slot _ _ _ _ _); try discriminate.
  injection H as <- _ <-.
  exists yin. split; [reflexivity|].
  apply read_sub_module_data in E; [|exact HL|].
  - rewrite E. unfold mem0. rewrite at_app_new. reflexivity.
  - unfold mem0. rewrite length_app. simpl. lia.
Qed.

Lemma registered_module_data_witness :
  (read_doc module_x_c fresh_ctx []).1.1 = Ok 0%nat /\
  sig_of <$> data (at_ (read_doc module_x_c fresh_ctx []).2 0)
  = [(LY_NODE_LEAF, Some "x"); (LY_NODE_CONTAINER, Some "c")].
Proof.
  split; [vm_compute; reflexivity|].
  destruct (registered_module_data no_files (fun _ => Some module_x_c) 8 fresh_ctx
              (read_doc module_x_c fresh_ctx []).1.2 []
              (read_doc module_x_c fresh_ctx []).2 "" 0) as (yin & Hy & Hd).
  - split; intros; split; [simpl; lia | reflexivity | simpl; lia | reflexivity].
  - vm_compute. reflexivity.
  - injection Hy as <-. rewrite Hd. vm_compute. reflexivity.
Defined.

(** ** Submodules *)

Lemma first_run_sub_head (children : list lyxml_elem) (st0 st : first_run) :
  fold_left (first_run_step true) children (Ok st0) = Ok st ->
  m_name (fr_module st) = m_name (fr_module st0) /\
  m_ns (fr_module st) = m_ns (fr_module st0) /\
  m_prefix (fr_module st) = m_prefix (fr_module st0).
Proof.
  intros H.
  refine (fold_left_Ok_inv _
            (fun st => m_name (fr_module st) = m_name (fr_module st0) /\
                       m_ns (fr_module st) = m_ns (fr_module st0) /\
                       m_prefix (fr_module st) = m_prefix (fr_module st0))
            _ _ _ _ _ _ _ H).
  - reflexivity.
  - reflexivity.
  - intros st1 node st2 _ Hst1 Hstep. unfold first_run_step in Hstep. simpl in Hstep.
    repeat match type of Hstep with
           | (if ?c then _ else _) = _ => destruct c
           | mbind _ _ = Ok _ => inv_bind Hstep
           end;
      try discriminate; injection Hstep as <-; exact Hst1.
  - auto.
Qed.

(** The header of the module after read_sub_module is the one that the
    first run has built; the headers of the other modules are left
    alone. *)
Lemma read_sub_module_head (L : ly_loader) (module : mod_ptr) (yin : lyxml_elem)
  (submodule : bool) (ctx ctx' : ly_ctx) (mem mem' : memory) (u : unit) :
  loads_der_only L ->
  read_sub_module L module yin submodule (ctx, mem) = (Ok u, (ctx', mem')) ->
  (module < length mem)%nat ->
  exists st,
    fold_left (first_run_step submodule) (x_child yin)
      (Ok (FirstRun (at_ mem module) [] [] (Counters 0 0 0 0 0))) = Ok st /\
    (length mem <= length mem')%nat /\
    head_of (at_ mem' module) = head_of (fr_module st) /\
    forall m0, (m0 < length mem)%nat -> m0 <> module ->
      head_of (at_ mem' m0) = head_of (at_ mem m0).
Proof.
  intros HL H Hm. unfold read_sub_module in H.
  apply bindS_Ok in H. destruct H as (st & [ctx1 mem1] & E & H). inv_state E.
  exists st. split; [assumption|].
  apply bindS_Ok in H. destruct H as (u1 & [ctx2 mem2] & E & H). inv_state E.
  set (mem1 := update mem module (fun _ => fr_module st)) in *.
  apply bindS_Ok in H. destruct H as (u2 & [ctx2 mem2] & E & H).
  assert (Hcheck : (ctx2, mem2) = (ctx, mem1)).
  { repeat match type of E with
           | (if ?c then _ else _) _ = _ => destruct c
           end;
      first [discriminate E | apply retS_Ok in E; destruct E as (_ & E); exact E]. }
  injection Hcheck as -> ->. clear E.
  assert (Hlen1 : length mem1 = length mem) by apply length_update.
  pose proof (later_runs_frame L module st HL (ctx, mem1)) as [Hl F].
  rewrite H in Hl, F. simpl in Hl, F.
  split; [lia|]. split.
  - rewrite F by lia. unfold mem1. rewrite at_update, decide_True by auto. reflexivity.
  - intros m0 Hm0 Hne. rewrite F by lia. unfold mem1.
    rewrite at_update_other by exact Hne. reflexivity.
Qed.

(** X19: a submodule that yin_read_submodule returns is the object
    allocated first, behind the objects of the store; it has the name
    attribute of the document element submodule, no namespace and no
    prefix, whatever statements the document has, and its top-level
    nodes are the nodes of the data statements of the document in their
    order; the headers of the modules that were in the store before are
    as they were.  What the submodule imports or includes is loaded
    behind it, by a loader that writes nothing to the objects at hand
    but derived lists of identities. *)
Theorem yin_read_submodule_reads (L : ly_loader)
  (lyxml_read : string -> option lyxml_elem) (ctx ctx' : ly_ctx)
  (mem mem' : memory) (data_ : string) (s : mod_ptr) :
  loads_der_only L ->
  yin_read_submodule L lyxml_read ctx mem data_ = (Ok s, ctx', mem') ->
  s = length mem /\ (length mem < length mem')%nat /\
  (exists yin name,
     lyxml_read data_ = Some yin /\ named yin "submodule" = true /\
     lyxml_get_attr yin "name" = Some name /\
     m_name (at_ mem' s) = Some name /\
     m_ns (at_ mem' s) = None /\ m_prefix (at_ mem' s) = None /\
     sig_of <$> data (at_ mem' s) = stmt_sig <$> data_stmts yin) /\
  forall m0, (m0 < length mem)%nat -> head_of (at_ mem' m0) = head_of (at_ mem m0).
Proof.
  unfold yin_read_submodule. intros HL H.
  destruct (lyxml_read data_) as [yin|]; [|discriminate].
  destruct (named yin "submodule") eqn:Esub; [|discriminate]. cbn [negb] in H.
  destruct (lyxml_get_attr yin "name") as [name|] eqn:Ename; [|discriminate].
  set (mem0 := mem ++ [with_m_name module0 (Some name)]) in *.
  destruct (read_sub_module L (length mem) yin true (ctx, mem0))
    as [[[]| |] [ctx2 mem2]] eqn:E; try discriminate.
  injection H as <- _ <-.
  assert (Hm : (length mem < length mem0)%nat).
  { unfold mem0. rewrite length_app. simpl. lia. }
  pose proof (read_sub_module_data _ _ _ _ _ _ _ _ _ HL E Hm) as Hdata.
  destruct (read_sub_module_head _ _ _ _ _ _ _ _ _ HL E Hm)
    as (st & Hst & Hlen & Hhead & Hothers).
  split; [reflexivity|]. split; [lia|].
  apply first_run_sub_head in Hst. destruct Hst as (Hn & Hns & Hp).
  unfold mem0 in Hn, Hns, Hp, Hdata. rewrite at_app_new in Hn, Hns, Hp, Hdata.
  simpl in Hn, Hns, Hp, Hdata.
  unfold head_of in Hhead. injection Hhead as H1 H2 H3 _ _ _ _ _.
  split.
  - exists yin, name. repeat split; auto; congruence.
  - intros m0 Hm0. rewrite Hothers by lia. unfold mem0.
    rewrite at_app_old by exact Hm0. reflexivity.
Qed.

Lemma yin_read_submodule_reads_witness :
  (yin_read_submodule no_files (fun _ => Some submodule_s) fresh_ctx mem_with_m "").1.1
  = Ok 1%nat /\
  m_prefix (at_ (yin_read_submodule no_files (fun _ => Some submodule_s) fresh_ctx
                   mem_with_m "").2 1)
  = None /\
  sig_of <$> data (at_ (yin_read_submodule no_files (fun _ => Some submodule_s) fresh_ctx
                          mem_with_m "").2 1)
  = [(LY_NODE_LEAF, Some "x")].
Proof.
  split; [vm_compute; reflexivity|].
  destruct (yin_read_submodule_reads no_files (fun _ => Some submodule_s) fresh_ctx
              (yin_read_submodule no_files (fun _ => Some submodule_s) fresh_ctx
                 mem_with_m "").1.2
              mem_with_m
              (yin_read_submodule no_files (fun _ => Some submodule_s) fresh_ctx
                 mem_with_m "").2
              "" 1)
    as (_ & _ & (yin & name & Hy & _ & _ & _ & _ & Hp & Hd) & _).
  - split; intros; split; [simpl; lia | reflexivity | simpl; lia | reflexivity].
  - vm_compute. reflexivity.
  - injection Hy as <-. split; [exact Hp|]. rewrite Hd. vm_compute. reflexivity.
Defined.

(** ** The statements of an identity *)

Lemma fill_yin_identity_children_base (module : mod_ptr) (ident_p : ident_ptr)
  (children : list lyxml_elem) :
  forall mem mem' u,
  fill_yin_identity_children module ident_p children mem = (Ok u, mem') ->
  Forall (fun c => named c "base" = true) children.
Proof.
  induction children as [|node next IH]; intros mem mem' u H; simpl in H.
  - constructor.
  - apply bindS_Ok in H. destruct H as (u1 & mem1 & E & H).
    constructor; [|eapply IH; exact H].
    destruct (named node "base"); [reflexivity|discriminate].
Qed.

(** X20: fill_yin_identity accepts an identity statement only if each of
    its children is a description, a reference, a status or a base
    statement; any other child makes it fail. *)
Theorem fill_yin_identity_strict (module : mod_ptr) (yin : lyxml_elem)
  (ident_p : ident_ptr) (mem mem' : memory) (u : unit) :
  fill_yin_identity module yin ident_p mem = (Ok u, mem') ->
  Forall (fun c => handled false c = true \/ named c "base" = true) (x_child yin).
Proof.
  unfold fill_yin_identity. intros H.
  apply bindS_Ok in H. destruct H as (hdr & mem1 & E & H). inv_state E.
  apply bindS_Ok in H. destruct H as ([hdr' yin'] & mem1 & E & H). inv_state E.
  apply bindS_Ok in H. destruct H as (u1 & mem2 & E' & H). inv_state E'.
  apply fill_yin_identity_children_base in H.
  apply read_yin_common_node in E. subst yin'. simpl in H.
  rewrite List.Forall_forall in *. intros c Hc.
  destruct (handled false c) eqn:Eh; [left; reflexivity|right].
  apply H. apply list_elem_of_In. apply list_elem_of_filter.
  split; [rewrite Eh; exact I|]. apply list_elem_of_In. exact Hc.
Qed.

Lemma fill_yin_identity_strict_witness :
  (fill_yin_identity 0 (identity_stmt "y" (Some "x")) (0, 1)%nat one_identity_read).1
  = Ok tt /\
  Forall (fun c => handled false c = true \/ named c "base" = true)
    (x_child (identity_stmt "y" (Some "x"))).
Proof.
  split; [vm_compute; reflexivity|].
  apply (fill_yin_identity_strict 0 (identity_stmt "y" (Some "x")) (0, 1)%nat
           one_identity_read
           (fill_yin_identity 0 (identity_stmt "y" (Some "x")) (0, 1)%nat
              one_identity_read).2 tt).
  vm_compute. reflexivity.
Defined.

(** ** A full list of modules *)

Lemma clear_slots_outside (n : nat) (newlist : list slot) (i : nat) :
  (0 < n)%nat -> (length newlist <= i)%nat -> clear_slots newlist i n = Undef.
Proof.
  intros Hn Hi. destruct n as [|n]; [lia|]. simpl. unfold store.
  rewrite bool_decide_eq_false_2 by lia. reflexivity.
Qed.

Lemma realloc_length (sizeof_ptr : nat) (l : list slot) (bytes : nat) :
  length (realloc sizeof_ptr l bytes) = (bytes / sizeof_ptr)%nat.
Proof.
  unfold realloc. rewrite length_app, length_take, length_replicate. lia.
Qed.

(** X21: when the list of modules of the context is full, with at least
    one slot and pointers of at least two bytes, the growth of the list
    stores outside the block that realloc returns: yin_read_module has
    undefined behaviour for every document that read_sub_module
    accepts.  The list is the one that the registration finds, after the
    imports of the document were loaded. *)
Theorem full_context_undefined (L : ly_loader)
  (lyxml_read : string -> option lyxml_elem) (sizeof_ptr : nat)
  (ctx ctx1 : ly_ctx) (mem mem1 : memory) (data_ : string) :
  module_read L lyxml_read ctx mem data_ = Some (ctx1, mem1) ->
  models_used ctx1 = models_size ctx1 ->
  (0 < models_size ctx1)%nat ->
  (2 <= sizeof_ptr)%nat ->
  grow_models sizeof_ptr ctx1 = Undef /\
  yin_read_module L lyxml_read sizeof_ptr ctx mem data_ = (Undef, ctx1, mem1).
Proof.
  intros Hread Hfull Hsize Hptr.
  assert (Hgrow : grow_models sizeof_ptr ctx1 = Undef).
  { unfold grow_models. rewrite bool_decide_eq_true_2 by exact Hfull.
    rewrite clear_slots_outside; [reflexivity|lia|].
    rewrite realloc_length. apply Nat.Div0.div_le_upper_bound. nia. }
  split; [exact Hgrow|].
  unfold module_read in Hread. unfold yin_read_module.
  destruct (lyxml_read data_) as [yin|]; [|discriminate].
  destruct (negb (named yin "module")); [discriminate|].
  destruct (lyxml_get_attr yin "name") as [value|]; [|discriminate].
  destruct (read_sub_module _ _ _ _ _) as [[[]| |] [ctx2 mem2]]; try discriminate.
  injection Hread as -> ->. rewrite Hgrow. reflexivity.
Qed.

Lemma full_context_undefined_witness :
  module_read no_files (fun _ => Some (module_m [])) full_ctx full_memory ""
  = Some (full_ctx,
          default [] (snd <$> module_read no_files (fun _ => Some (module_m []))
                                full_ctx full_memory "")) /\
  grow_models 8 full_ctx = Undef /\
  yin_read_module no_files (fun _ => Some (module_m [])) 8 full_ctx full_memory ""
  = (Undef, full_ctx,
     default [] (snd <$> module_read no_files (fun _ => Some (module_m []))
                           full_ctx full_memory "")).
Proof.
  assert (H : module_read no_files (fun _ => Some (module_m [])) full_ctx full_memory ""
              = Some (full_ctx,
                      default [] (snd <$> module_read no_files
                                            (fun _ => Some (module_m []))
                                            full_ctx full_memory "")))
    by (vm_compute; reflexivity).
  split; [exact H|].
  apply (full_context_undefined no_files (fun _ => Some (module_m [])) 8 full_ctx full_ctx
           full_memory _ "").
  - exact H.
  - reflexivity.
  - simpl. lia.
  - lia.
Defined.

(** ** Dates *)

(** The date of a revision is copied with memcpy, ten bytes whatever the
    length of the argument: a date of nine characters is copied with its
    terminator, a shorter one is read beyond it. *)
Example revision_date_too_short :
  (read_doc (module_m [stmt "revision" (arg "date" "2015") []]) fresh_ctx []).1.1 = Undef /\
  (read_doc (module_m [stmt "revision" (arg "date" "2015-07-0") []]) fresh_ctx []).1.1
  = Ok 0%nat.
Proof. split; vm_compute; reflexivity. Qed.

(** ** The type of a leaf *)

Lemma read_types_last (mem : memory) (module : mod_ptr) (parent : list ly_mnode)
  (children : list lyxml_elem) :
  forall type type',
  read_types mem module parent children type = Ok type' ->
  match last_named "type" children with
  | Some ts => exists t0, fill_yin_type mem module parent ts t0 = Ok type'
  | None => type' = type
  end.
Proof.
  unfold read_types, last_named.
  induction children as [|sub next IH]; intros type type' H; cbn [fold_left] in H.
  - injection H as <-. reflexivity.
  - rewrite filter_cons. simpl in H.
    destruct (named sub "type") eqn:En.
    + rewrite decide_True by reflexivity. rewrite last_cons.
      destruct (fill_yin_type mem module parent sub type) as [t1|d|] eqn:Et.
      * apply IH in H. destruct (last _); [exact H|]. subst. eauto.
      * rewrite fold_left_Err in H by reflexivity. discriminate.
      * rewrite fold_left_Undef in H by reflexivity. discriminate.
    + rewrite decide_False by discriminate. apply IH in H. exact H.
Qed.

Lemma last_named_kept (name : string) (ext : bool) (children : list lyxml_elem) :
  handled ext (Elem name None [] None []) = false ->
  last_named name (filter (fun sub => negb (handled ext sub)) children)
  = last_named name children.
Proof.
  intros Hh. unfold last_named. f_equal.
  induction children as [|c l IH]; [reflexivity|].
  rewrite !filter_cons.
  destruct (decide (named c name = true)) as [Hn|Hn].
  - assert (Hc : handled ext c = false).
    { unfold named in Hn. apply String.eqb_eq in Hn.
      unfold handled, named in *. simpl in *. rewrite Hn. exact Hh. }
    rewrite Hc. simpl. rewrite filter_cons, decide_True by exact Hn. rewrite IH.
    reflexivity.
  - destruct (decide (negb (handled ext c))); [|exact IH].
    rewrite filter_cons, decide_False by exact Hn. exact IH.
Qed.

(** X22: the type of a leaf that read_yin_leaf returns is what
    fill_yin_type gives for the last type statement of the leaf, read
    with the parent of the leaf. *)
Theorem read_yin_leaf_type (mem : memory) (module : mod_ptr) (parent : list ly_mnode)
  (node ts : lyxml_elem) (n : ly_mnode) :
  read_yin_leaf mem module parent node = Ok n ->
  last_named "type" (x_child node) = Some ts ->
  exists t0, fill_yin_type mem module parent ts t0 = Ok (mn_type n).
Proof.
  unfold read_yin_leaf. intros H Hts.
  inv_bind H. destruct a as [hdr node']. inv_bind H. injection H as <-.
  apply read_yin_common_node in E. subst node'. simpl in E0.
  apply read_types_last in E0.
  rewrite last_named_kept in E0 by reflexivity. rewrite Hts in E0. exact E0.
Qed.

Lemma read_yin_leaf_type_witness :
  exists n t0,
    read_yin_leaf mem_with_typedef 0 [] leaf_two_types = Ok n /\
    fill_yin_type mem_with_typedef 0 [] (type_stmt "m:t" []) t0 = Ok (mn_type n) /\
    ty_der (mn_type n) = Some (TpModule 0 0).
Proof.
  destruct (read_yin_leaf mem_with_typedef 0 [] leaf_two_types) as [n| |] eqn:E;
    [|vm_compute in E; discriminate..].
  destruct (read_yin_leaf_type mem_with_typedef 0 [] leaf_two_types (type_stmt "m:t" [])
              n E eq_refl) as (t0 & Ht0).
  exists n, t0. split; [reflexivity|]. split; [exact Ht0|].
  vm_compute in E. injection E as <-. reflexivity.
Defined.

(** ** Imports *)

Lemma fill_yin_import_fold (children : list lyxml_elem) :
  forall imp0 imp1,
  fold_left fill_yin_import_step children (Ok imp0) = Ok imp1 ->
  Forall (fun c => named c "prefix" = true \/ named c "revision-date" = true) children /\
  imp_module imp1 = imp_module imp0 /\
  imp_prefix imp1 = match last_named "prefix" children with
                    | Some c => lyxml_get_attr c "value"
                    | None => imp_prefix imp0
                    end /\
  Some (imp_rev imp1) = match last_named "revision-date" children with
                        | Some c => (fun v => strndup v (LY_REV_SIZE - 1)) <$>
                                    lyxml_get_attr c "date"
                        | None => Some (imp_rev imp0)
                        end.
Proof.
  unfold last_named.
  induction children as [|c next IH]; intros imp0 imp1 H; cbn [fold_left] in H.
  - injection H as <-. repeat split. constructor.
  - destruct (fill_yin_import_step (Ok imp0) c) as [imp|d|] eqn:E.
    2:{ rewrite fold_left_Err in H by reflexivity. discriminate. }
    2:{ rewrite fold_left_Undef in H by reflexivity. discriminate. }
    apply IH in H. destruct H as (Hall & Hm & Hp & Hr).
    unfold fill_yin_import_step in E. simpl in E. rewrite !filter_cons.
    destruct (named c "prefix") eqn:E1.
    + assert (E2 : named c "revision-date" = false).
      { unfold named in *. apply String.eqb_eq in E1. rewrite E1. reflexivity. }
      rewrite E2. simpl.
      destruct (lyxml_get_attr c "value") as [value|] eqn:Ev; [|discriminate].
      injection E as <-. simpl in *.
      split; [constructor; auto|]. split; [exact Hm|].
      rewrite last_cons. split; [|exact Hr].
      rewrite Hp. clear -Ev.
      destruct (last (filter (fun c => named c "prefix" = true) next));
        [reflexivity|].
      rewrite Ev. reflexivity.
    + destruct (named c "revision-date") eqn:E2; [|discriminate]. simpl.
      destruct (lyxml_get_attr c "date") as [date|] eqn:Ed; [|discriminate].
      unfold memcpy_rev in E. destruct (_ <? _)%nat; [discriminate|]. simpl in E.
      injection E as <-. simpl in *.
      split; [constructor; auto|]. split; [exact Hm|]. split; [exact Hp|].
      rewrite last_cons, Hr. clear -Ed.
      destruct (last (filter (fun c => named c "revision-date" = true) next));
        [reflexivity|].
      rewrite Ed. reflexivity.
Qed.

(** X23: an import statement that fill_yin_import accepts has only
    prefix and revision-date children; the import gets the value of the
    last prefix statement as its prefix, the first ten characters of
    the date of the last revision-date statement as its revision, and a
    module. *)
Theorem fill_yin_import_strict (L : ly_loader) (yin : lyxml_elem)
  (imp imp' : ly_import) (w w' : world) :
  fill_yin_import L yin imp w = (Ok imp', w') ->
  Forall (fun c => named c "prefix" = true \/ named c "revision-date" = true)
    (x_child yin) /\
  is_Some (imp_module imp') /\
  imp_prefix imp' = match last_named "prefix" (x_child yin) with
                    | Some c => lyxml_get_attr c "value"
                    | None => imp_prefix imp
                    end /\
  Some (imp_rev imp') = match last_named "revision-date" (x_child yin) with
                        | Some c => (fun v => strndup v (LY_REV_SIZE - 1)) <$>
                                    lyxml_get_attr c "date"
                        | None => Some (imp_rev imp)
                        end.
Proof.
  unfold fill_yin_import. intros H.
  apply bindS_Ok in H. destruct H as (imp1 & w1 & E & H).
  apply pure_Ok in E. destruct E as (E & ->).
  apply fill_yin_import_fold in E. destruct E as (Hall & Hm & Hp & Hr).
  apply bindS_Ok in H. destruct H as (m & w2 & _ & H).
  destruct m as [m|]; [|discriminate].
  apply retS_Ok in H. destruct H as (-> & _). simpl. eauto.
Qed.

Lemma fill_yin_import_strict_witness :
  exists imp',
    (fill_yin_import no_files import_m import0 (ctx_with_m, mem_with_m)).1 = Ok imp' /\
    imp_prefix imp' = Some "b" /\ imp_rev imp' = "2015-07-03" /\
    is_Some (imp_module imp').
Proof.
  destruct (fill_yin_import no_files import_m import0 (ctx_with_m, mem_with_m))
    as [[imp'| |] w'] eqn:E; [|vm_compute in E; discriminate..].
  exists imp'. split; [reflexivity|].
  destruct (fill_yin_import_strict no_files import_m import0 imp'
              (ctx_with_m, mem_with_m) w' E) as (_ & Hm & Hp & Hr).
  split; [exact Hp|]. split; [|exact Hm].
  injection Hr as Hr. exact Hr.
Defined.

(** ** The children of a choice *)

Lemma read_choice_nodes_children (mem : memory) (module : mod_ptr)
  (subs : list lyxml_elem) :
  forall retval r,
  read_choice_nodes
    (read_yin_container mem module) (read_yin_leaflist mem module)
    (read_yin_leaf mem module) (read_yin_list mem module)
    subs retval = Ok r ->
  sig_of <$> mn_child r =
  (sig_of <$> mn_child retval) ++ (stmt_sig <$> filter is_case_stmt subs).
Proof.
  induction subs as [|sub next IH]; intros retval r H; simpl in H.
  - injection H as <-. rewrite filter_nil. simpl. rewrite app_nil_r. reflexivity.
  - rewrite filter_cons.
    assert (Hstep : forall a K,
              is_case_stmt sub = true -> kind_of sub = K -> nodetype a = K ->
              (exists m0 ext node',
                 read_yin_common module [retval] m0 sub ext
                 = Ok (mn_hdr a, node')) ->
              read_choice_nodes
                (read_yin_container mem module) (read_yin_leaflist mem module)
                (read_yin_leaf mem module) (read_yin_list mem module)
                next (ly_mnode_addchild retval a) = Ok r ->
              sig_of <$> mn_child r =
              (sig_of <$> mn_child retval) ++
              (stmt_sig <$> (if decide (is_case_stmt sub) then sub :: filter is_case_stmt next
                             else filter is_case_stmt next))).
    { intros a K Hd Hkind Hk (m0 & ext & node' & Hc) Hr.
      apply IH in Hr. rewrite Hr. cbn [ly_mnode_addchild with_child mn_child].
      rewrite fmap_app, <- app_assoc. f_equal.
      rewrite decide_True by (rewrite Hd; exact I).
      rewrite fmap_cons. simpl. f_equal.
      rewrite (read_yin_common_sig _ _ _ _ _ _ _ K Hk Hc).
      unfold stmt_sig. rewrite Hkind. reflexivity. }
    destruct (named sub "container") eqn:E1.
    { inv_bind H. destruct (read_yin_container_hdr _ _ _ _ _ E) as (Hk & node' & Hc).
      apply (Hstep a LY_NODE_CONTAINER);
        [unfold is_case_stmt; rewrite E1; reflexivity
        |unfold kind_of; rewrite E1; reflexivity
        |exact Hk|eauto|exact H]. }
    destruct (named sub "leaf-list") eqn:E2.
    { inv_bind H. destruct (read_yin_leaflist_hdr _ _ _ _ _ E) as (Hk & node' & Hc).
      apply (Hstep a LY_NODE_LEAFLIST);
        [unfold is_case_stmt; rewrite E1, E2; reflexivity
        |unfold kind_of; rewrite E1, E2; reflexivity
        |exact Hk|eauto|exact H]. }
    destruct (named sub "leaf") eqn:E3.
    { inv_bind H. destruct (read_yin_leaf_hdr _ _ _ _ _ E) as (Hk & node' & Hc).
      apply (Hstep a LY_NODE_LEAF);
        [unfold is_case_stmt; rewrite E1, E2, E3; reflexivity
        |unfold kind_of; rewrite E1, E2, E3; reflexivity
        |exact Hk|eauto|exact H]. }
    destruct (named sub "list") eqn:E4.
    { inv_bind H. destruct (read_yin_list_hdr _ _ _ _ _ E) as (Hk & node' & Hc).
      apply (Hstep a LY_NODE_LIST);
        [unfold is_case_stmt; rewrite E1, E2, E3, E4; reflexivity
        |unfold kind_of; rewrite E1, E2, E3, E4; reflexivity
        |exact Hk|eauto|exact H]. }
    apply IH in H. rewrite H.
    rewrite decide_False; [reflexivity|].
    unfold is_case_stmt. rewrite E1, E2, E3, E4. simpl. tauto.
Qed.

(** X24: a choice that read_yin_choice returns has the name of its
    statement, and its children are the nodes of the container,
    leaf-list, leaf and list statements among the children of the
    statement, in the order of the document; every other child,
    a uses or a grouping too, gives no node. *)
Theorem read_yin_choice_children (mem : memory) (module : mod_ptr)
  (parent : list ly_mnode) (node : lyxml_elem) (c : ly_mnode) :
  read_yin_choice mem module parent node = Ok c ->
  sig_of c = (LY_NODE_CHOICE, lyxml_get_attr node "name") /\
  sig_of <$> mn_child c = stmt_sig <$> filter is_case_stmt (x_child node).
Proof.
  intros H.
  destruct (read_yin_choice_hdr _ _ _ _ _ H) as (Hk & node0 & Hc).
  split; [exact (read_yin_common_sig _ _ _ _ _ _ _ _ Hk Hc)|].
  rewrite read_yin_choice_eq in H.
  inv_bind H. destruct a as [hdr node'].
  apply read_choice_nodes_children in H. rewrite H. reflexivity.
Qed.

Lemma read_yin_choice_children_witness :
  exists c,
    read_yin_choice [module0] 0 [] choice_ch = Ok c /\
    sig_of c = (LY_NODE_CHOICE, Some "ch") /\
    sig_of <$> mn_child c = [(LY_NODE_LEAF, Some "a"); (LY_NODE_CONTAINER, Some "b")].
Proof.
  eexists. split; [vm_compute; reflexivity|].
  exact (read_yin_choice_children [module0] 0 [] choice_ch _ eq_refl).
Defined.

(** ** The scope of a typedef *)

(** X25: an unprefixed name that is not the name of a built-in type and
    that a typedef of the nearest ancestor bears, when that ancestor is
    a container, a list or a grouping, is resolved by
    find_superior_type to the first typedef of that name of that
    ancestor, whatever the outer ancestors and the module define. *)
Theorem find_superior_type_nearest (mem : memory) (name : string) (module : mod_ptr)
  (p : ly_mnode) (up : list ly_mnode) (r : option tpdf_ptr) (j : nat) (dj : ly_tpdf) :
  find_superior_type mem name module (p :: up) = Ok r ->
  strchr name ":" = None ->
  List.find (fun e => String.eqb (fst e) name) ly_types = None ->
  nodetype p = LY_NODE_CONTAINER \/ nodetype p = LY_NODE_LIST \/
  nodetype p = LY_NODE_GROUPING ->
  (j < mn_tpdf_size p)%nat -> mn_tpdf p !! j = Some dj -> tp_name dj = Some name ->
  exists i d,
    r = Some (TpLocal 0 i) /\ (i <= j)%nat /\
    mn_tpdf p !! i = Some d /\ tp_name d = Some name /\
    forall k dk, (k < i)%nat -> mn_tpdf p !! k = Some dk -> tp_name dk <> Some name.
Proof.
  unfold find_superior_type. intros H Hcolon Hbuiltin Hkind Hj Hdj Hname.
  rewrite Hcolon, Hbuiltin in H. inv_bind H. simpl in E.
  assert (Htest : strcmp_eq (tp_name dj) name = Ok true).
  { rewrite Hname. unfold strcmp_eq. simpl. rewrite String.eqb_refl. reflexivity. }
  assert (Hfind : forall ro,
            array_find (fun t => strcmp_eq (tp_name t) name) (mn_tpdf p) (mn_tpdf_size p)
            = Ok ro ->
            exists i d, ro = Some i /\ (i <= j)%nat /\
              mn_tpdf p !! i = Some d /\ tp_name d = Some name /\
              forall k dk, (k < i)%nat -> mn_tpdf p !! k = Some dk ->
                           tp_name dk <> Some name).
  { intros [i|] Hro.
    - apply array_find_from_Some in Hro. destruct Hro as (Hi & (d & Hd & Ht) & Hfirst).
      exists i, d. split; [reflexivity|]. split.
      + destruct (decide (i <= j)%nat) as [Hle|Hgt]; [exact Hle|].
        specialize (Hfirst j dj ltac:(lia) Hdj). congruence.
      + split; [exact Hd|]. split; [apply strcmp_eq_true; exact Ht|].
        intros k dk Hk Hdk Hn. specialize (Hfirst k dk ltac:(lia) Hdk).
        rewrite Hn in Hfirst. unfold strcmp_eq in Hfirst. simpl in Hfirst.
        rewrite String.eqb_refl in Hfirst. discriminate.
    - exfalso.
      pose proof (array_find_from_None _ _ _ _ Hro j dj ltac:(lia) Hdj). congruence. }
  destruct Hkind as [Hk|[Hk|Hk]]; rewrite Hk in E; inv_bind E;
    destruct (Hfind _ E0) as (i & d & -> & Hrest);
    injection E as <-; injection H as <-; exists i, d; split; auto.
Qed.

Lemma find_superior_type_nearest_witness :
  exists r i d,
    find_superior_type mem_with_typedef "t" 0 [container_with_typedefs] = Ok r /\
    r = Some (TpLocal 0 i) /\ i = 1%nat /\
    mn_tpdf container_with_typedefs !! i = Some d /\ tp_name d = Some "t".
Proof.
  destruct (find_superior_type_nearest mem_with_typedef "t" 0 container_with_typedefs []
              (Some (TpLocal 0 1)) 1 (Tpdf (Some "t") None None 0 type0))
    as (i & d & Hr & Hi & Hd & Hn & Hfirst).
  - vm_compute. reflexivity.
  - reflexivity.
  - reflexivity.
  - left. reflexivity.
  - simpl. lia.
  - reflexivity.
  - reflexivity.
  - exists (Some (TpLocal 0 1)), i, d.
    split; [vm_compute; reflexivity|]. split; [exact Hr|].
    split; [congruence|]. split; [exact Hd|exact Hn].
Defined.

(** While the children of a node are read the node is not yet linked to
    its parent, so the typedefs of the parent of the parent are out of
    sight: a type named after one of them is unknown, and a typedef of
    the module of the same name is the one that is found. *)
Example typedef_two_levels_up_unseen :
  (read_doc module_typedef_two_up fresh_ctx []).1.1 = Err (Val VE_INARG).
Proof. vm_compute. reflexivity. Qed.

Example typedef_of_module_behind_parent :
  (read_doc module_typedef_behind fresh_ctx []).1.1 = Ok 0%nat.
Proof. vm_compute. reflexivity. Qed.
